(** * BESTPOOL: the data-aggregation and allocation core

    A shallow embedding of
    - [src/services/orca/orcaClient.ts]        (module [OrcaClient]),
    - [src/services/poolDataAggregator.ts]     (module [PoolDataAggregator]),
    - [src/services/priceWebSocket.ts]         (module [PriceWebSocketService]),
    - [src/config/pools.ts]                    (module [Pools]),
    the properties of the specification that concern them, and further
    properties of the code. *)

From Stdlib Require Import Reals Lra Lia ZArith List String Bool.
From stdpp Require Import base option gmap strings.
Import ListNotations.

#[local] Open Scope string_scope.

(* ===================================================================== *)
(** * JavaScript numbers

    A JavaScript [number] is modelled by its real value, or one of the three
    special values of IEEE 754.  Finite arithmetic is exact: rounding and
    overflow are not modelled, and the two zeros are one (a zero divisor
    counts as [+0], which is what every divisor of the code is when it
    vanishes: a difference of small counts, or a sum started at [0]). *)
(* ===================================================================== *)

Module JS.

Inductive number : Type :=
| Num (r : R)
| PInf
| NInf
| NaN.

#[local] Open Scope R_scope.

Definition of_nat (n : nat) : number := Num (IZR (Z.of_nat n)).

(** Sign of a real as the three-way case analysis the special-value rules
    need. *)
Inductive sign : Type := Neg | Zero | Pos.

Definition sgn (r : R) : sign :=
  if Rlt_dec r 0 then Neg else if Rlt_dec 0 r then Pos else Zero.

Definition neg (a : number) : number :=
  match a with
  | Num r => Num (- r)
  | PInf => NInf
  | NInf => PInf
  | NaN => NaN
  end.

Definition add (a b : number) : number :=
  match a, b with
  | NaN, _ | _, NaN => NaN
  | PInf, NInf | NInf, PInf => NaN
  | PInf, _ | _, PInf => PInf
  | NInf, _ | _, NInf => NInf
  | Num x, Num y => Num (x + y)
  end.

Definition sub (a b : number) : number := add a (neg b).

(** An infinity of sign [s] (the product or quotient rule of signs has
    already been applied); [Zero] stands for the invalid operation. *)
Definition inf_of (s : sign) : number :=
  match s with Pos => PInf | Neg => NInf | Zero => NaN end.

Definition flip (s : sign) : sign :=
  match s with Pos => Neg | Neg => Pos | Zero => Zero end.

Definition mul (a b : number) : number :=
  match a, b with
  | NaN, _ | _, NaN => NaN
  | Num x, Num y => Num (x * y)
  | PInf, Num y | Num y, PInf => inf_of (sgn y)
  | NInf, Num y | Num y, NInf => inf_of (flip (sgn y))
  | PInf, PInf | NInf, NInf => PInf
  | PInf, NInf | NInf, PInf => NInf
  end.

Definition div (a b : number) : number :=
  match a, b with
  | NaN, _ | _, NaN => NaN
  | Num x, Num y =>
      match sgn y with
      | Zero => inf_of (sgn x)          (* x / 0 : +-Infinity, 0 / 0 : NaN *)
      | _ => Num (x / y)
      end
  | Num _, (PInf | NInf) => Num 0
  | (PInf | NInf), (PInf | NInf) => NaN
  | PInf, Num y => match sgn y with Neg => NInf | _ => PInf end
  | NInf, Num y => match sgn y with Neg => PInf | _ => NInf end
  end.

(** [Math.abs], [Math.sqrt], [Math.min], [Math.max]. *)
Definition abs (a : number) : number :=
  match a with
  | Num r => Num (Rabs r)
  | PInf | NInf => PInf
  | NaN => NaN
  end.

Definition sqrt (a : number) : number :=
  match a with
  | Num r => if Rlt_dec r 0 then NaN else Num (R_sqrt.sqrt r)
  | PInf => PInf
  | NInf | NaN => NaN
  end.

Definition min (a b : number) : number :=
  match a, b with
  | NaN, _ | _, NaN => NaN
  | NInf, _ | _, NInf => NInf
  | PInf, c | c, PInf => c
  | Num x, Num y => Num (Rmin x y)
  end.

Definition max (a b : number) : number :=
  match a, b with
  | NaN, _ | _, NaN => NaN
  | PInf, _ | _, PInf => PInf
  | NInf, c | c, NInf => c
  | Num x, Num y => Num (Rmax x y)
  end.

(** The comparisons [a < b], [a > b], [a >= b]: false when an operand is
    [NaN]. *)
Definition lt (a b : number) : bool :=
  match a, b with
  | NaN, _ | _, NaN => false
  | Num x, Num y => if Rlt_dec x y then true else false
  | NInf, (Num _ | PInf) => true
  | Num _, PInf => true
  | _, _ => false
  end.

Definition gt (a b : number) : bool := lt b a.

Definition ge (a b : number) : bool :=
  match a, b with
  | NaN, _ | _, NaN => false
  | _, _ => negb (lt a b)
  end.

(** Truthiness of a number: [0] and [NaN] are falsy.  [or_else a d] is
    [a || d]. *)
Definition truthy (a : number) : bool :=
  match a with
  | Num r => if Req_dec_T r 0 then false else true
  | PInf | NInf => true
  | NaN => false
  end.

Definition or_else (a d : number) : number := if truthy a then a else d.

(** ** Objects used as string-keyed records

    [Record<string, A>]: the keys are kept in insertion order, which is the
    order [Object.keys], [Object.values] and [Object.entries] enumerate
    them in; assigning to a key that exists keeps its place. *)

Definition object (A : Type) : Type := list (string * A).

Fixpoint get {A} (o : object A) (k : string) : option A :=
  match o with
  | [] => None
  | (k', v) :: o' => if String.eqb k' k then Some v else get o' k
  end.

Fixpoint set {A} (o : object A) (k : string) (v : A) : object A :=
  match o with
  | [] => [(k, v)]
  | (k', v') :: o' =>
      if String.eqb k' k then (k', v) :: o' else (k', v') :: set o' k v
  end.

Definition keys {A} (o : object A) : list string := List.map fst o.
Definition values {A} (o : object A) : list A := List.map snd o.

(** [o[k] || d] for a record of numbers: a missing key reads [undefined]. *)
Definition get_or (o : object number) (k : string) (d : number) : number :=
  match get o k with
  | Some v => or_else v d
  | None => d
  end.

(** [Math.pow(a, n)] for an exponent that is a natural number. *)
Definition pow (a : number) (n : nat) : number :=
  match n with
  | O => Num 1
  | S _ =>
      match a with
      | Num r => Num (r ^ n)
      | PInf => PInf
      | NInf => if Nat.even n then PInf else NInf
      | NaN => NaN
      end
  end.

End JS.

(* ===================================================================== *)
(** * [config/pools.ts]: the pool registry *)
(* ===================================================================== *)

Module Pools.
Import JS.

Inductive RiskLevel : Type := low | medium | high.
Inductive HedgeType : Type := bluechip | stablecoin | hedge.

Record PoolConfig : Type := {
  id : string;
  name : string;
  symbol : string;
  address : string;
  token0 : string;
  token1 : string;
  description : string;
  riskLevel : RiskLevel;
  hedgeType : HedgeType
}.

Definition SOL_USDC : PoolConfig := {|
  id := "SOL_USDC"; name := "SOL/USDC Pool"; symbol := "SOL-USDC";
  address := "Czfq3xZZDmsdGdUyrNLtRhGc47cXcZtLG4crryfu44zE";
  token0 := "SOL"; token1 := "USDC";
  description := "Solana native token paired with USDC stablecoin";
  riskLevel := high; hedgeType := bluechip |}.

Definition CBBTC_USDC : PoolConfig := {|
  id := "CBBTC_USDC"; name := "cbBTC/USDC Pool"; symbol := "cbBTC-USDC";
  address := "HxA6SKW5qA4o12fjVgTpXdq2YnZ5Zv1s7SB4FFomsyLM";
  token0 := "cbBTC"; token1 := "USDC";
  description := "Coinbase wrapped Bitcoin paired with USDC";
  riskLevel := medium; hedgeType := bluechip |}.

Definition EURC_USDC : PoolConfig := {|
  id := "EURC_USDC"; name := "EURC/USDC Pool"; symbol := "EURC-USDC";
  address := "ArisQNcbjXPJD7RgPRvysatX3xcfHPTbcTkfD8kDoZ9i";
  token0 := "EURC"; token1 := "USDC";
  description := "Euro Coin paired with USDC - Primary hedge asset";
  riskLevel := low; hedgeType := hedge |}.

Definition USDT_USDC : PoolConfig := {|
  id := "USDT_USDC"; name := "USDT/USDC Pool"; symbol := "USDT-USDC";
  address := "4fuUiYxTQ6QCrdSq9ouBYcTM7bqSwYTSyLueGZLTy4T4";
  token0 := "USDT"; token1 := "USDC";
  description :=
    "Tether USD paired with USDC - Low volatility stablecoin pair";
  riskLevel := low; hedgeType := stablecoin |}.

Definition WETH_USDC : PoolConfig := {|
  id := "WETH_USDC"; name := "WETH/USDC Pool"; symbol := "WETH-USDC";
  address := "AU971DrPyhhrpRnmEBp5pDTWL2ny7nofb5vYBjDJkR2E";
  token0 := "WETH"; token1 := "USDC";
  description := "Wrapped Ethereum paired with USDC";
  riskLevel := medium; hedgeType := bluechip |}.

Definition SUPPORTED_POOLS : object PoolConfig :=
  [ ("SOL_USDC", SOL_USDC); ("CBBTC_USDC", CBBTC_USDC);
    ("EURC_USDC", EURC_USDC); ("USDT_USDC", USDT_USDC);
    ("WETH_USDC", WETH_USDC) ].

#[local] Open Scope R_scope.

(** Pool correlation matrix. *)
Definition POOL_CORRELATIONS : object (object number) :=
  [ ("SOL_USDC",
      [ ("CBBTC_USDC", Num 0.65); ("WETH_USDC", Num 0.70);
        ("EURC_USDC", Num (-0.15)); ("USDT_USDC", Num 0.05) ]);
    ("CBBTC_USDC",
      [ ("SOL_USDC", Num 0.65); ("WETH_USDC", Num 0.75);
        ("EURC_USDC", Num (-0.10)); ("USDT_USDC", Num 0.02) ]);
    ("WETH_USDC",
      [ ("SOL_USDC", Num 0.70); ("CBBTC_USDC", Num 0.75);
        ("EURC_USDC", Num (-0.12)); ("USDT_USDC", Num 0.03) ]);
    ("EURC_USDC",
      [ ("SOL_USDC", Num (-0.15)); ("CBBTC_USDC", Num (-0.10));
        ("WETH_USDC", Num (-0.12)); ("USDT_USDC", Num 0.85) ]);
    ("USDT_USDC",
      [ ("SOL_USDC", Num 0.05); ("CBBTC_USDC", Num 0.02);
        ("WETH_USDC", Num 0.03); ("EURC_USDC", Num 0.85) ]) ].

(** Default pool allocation weights for the balanced strategy. *)
Definition DEFAULT_ALLOCATION_WEIGHTS : object number :=
  [ ("SOL_USDC", Num 0.25); ("CBBTC_USDC", Num 0.20);
    ("WETH_USDC", Num 0.20); ("EURC_USDC", Num 0.20);
    ("USDT_USDC", Num 0.15) ].

(** ** The queries of the registry *)

Definition sameRisk (a b : RiskLevel) : bool :=
  match a, b with
  | low, low | medium, medium | high, high => true
  | _, _ => false
  end.

Definition sameHedge (a b : HedgeType) : bool :=
  match a, b with
  | bluechip, bluechip | stablecoin, stablecoin | hedge, hedge => true
  | _, _ => false
  end.

(** Get all available pools. *)
Definition getAllPools : list PoolConfig := values SUPPORTED_POOLS.

(** Get pool by ID. *)
Definition getPoolById (id : string) : option PoolConfig :=
  get SUPPORTED_POOLS id.

(** Get pools by risk level. *)
Definition getPoolsByRiskLevel (r : RiskLevel) : list PoolConfig :=
  List.filter (fun pool => sameRisk (riskLevel pool) r)
              (values SUPPORTED_POOLS).

(** Get pools by hedge type. *)
Definition getPoolsByHedgeType (h : HedgeType) : list PoolConfig :=
  List.filter (fun pool => sameHedge (hedgeType pool) h)
              (values SUPPORTED_POOLS).

End Pools.

(* ===================================================================== *)
(** * [services/orca/orcaClient.ts]: the caching data-source client

    The client's effects are threaded through a [World]: the part of
    [AsyncStorage] under [CACHE_PREFIX], the clock behind [Date.now()], the
    requests sent to the RPC node and the number of [Math.random()] draws.
    What the outside answers is an [Env].  The clock stands still during an
    operation and moves between operations ([advance]). *)
(* ===================================================================== *)

Module OrcaClient.
Import JS.

Definition CACHE_PREFIX : string := "orca_cache_".
Definition CACHE_TTL : Z := 30000.        (* 30 seconds for pool data *)
Definition PRICE_CACHE_TTL : Z := 5000.   (* 5 seconds for price data *)

Record Token : Type := {
  tsymbol : string;
  mint : string;
  decimals : nat
}.

(** A field the mock table leaves out reads [undefined]: a number field is
    then [NaN] (what arithmetic makes of [undefined]), a token [None]. *)
Record PoolData : Type := {
  address : string;
  tokenA : option Token;
  tokenB : option Token;
  price : number;
  liquidity : number;
  volume24h : number;
  fee : number;
  apy : number;
  tvl : number
}.

Record PriceData : Type := {
  poolAddress : string;
  currentPrice : number;
  priceChange24h : number;
  priceChange7d : number;
  high24h : number;
  low24h : number;
  timestamp : Z
}.

(** A cache entry, [{ data, timestamp }]. *)
Record Entry (T : Type) : Type := {
  data : T;
  stamp : Z
}.
Arguments data {T} _.
Arguments stamp {T} _.

(** [AsyncStorage] below [CACHE_PREFIX], by the type of what a key holds:
    [pool_...] keys hold pool data, [price_...] keys price data (no key is
    both).  Both maps are indexed by the full storage key. *)
Record World : Type := {
  poolStore : gmap string (Entry PoolData);
  priceStore : gmap string (Entry PriceData);
  now : Z;
  rpcLog : list string;
  draws : nat
}.

Inductive AccountInfo : Type := Account | NoAccount | RpcError.

Record Env : Type := {
  publicKey : string -> bool;              (* [new PublicKey(a)] succeeds *)
  getAccountInfo : string -> AccountInfo;  (* [connection.getAccountInfo] *)
  random : nat -> R                        (* the k-th [Math.random()] *)
}.

(** An [async] function settles with a value or rejects. *)
Inductive Outcome (A : Type) : Type :=
| Resolved (a : A)
| Rejected (message : string).
Arguments Resolved {A} a.
Arguments Rejected {A} message.

(** The state monad of the client's operations. *)
Definition M (A : Type) : Type := World -> A * World.

Definition ret {A} (a : A) : M A := fun w => (a, w).
#[export] Instance M_bind : MBind M :=
  fun A B f m w => let '(a, w') := m w in f a w'.

Definition advance (dt : Z) : M unit :=
  fun w => (tt, {| poolStore := poolStore w; priceStore := priceStore w;
                   now := (now w + dt)%Z; rpcLog := rpcLog w;
                   draws := draws w |}).

Definition dateNow : M Z := fun w => (now w, w).

Definition mathRandom (env : Env) : M number :=
  fun w => (Num (random env (draws w)),
            {| poolStore := poolStore w; priceStore := priceStore w;
               now := now w; rpcLog := rpcLog w; draws := S (draws w) |}).

(** ** Cache management utilities *)

(** [getFromCache(key, ttl)] on one typed part of the storage.
    [cacheEnabled] is [true] and never assigned. *)
Definition getFromCache {T} (store : gmap string (Entry T)) (t : Z)
    (key : string) (ttl : Z) : option T * gmap string (Entry T) :=
  match store !! (CACHE_PREFIX ++ key) with
  | None => (None, store)
  | Some e =>
      if (t - stamp e >? ttl)%Z
      then (None, delete (CACHE_PREFIX ++ key) store)
      else (Some (data e), store)
  end.

Definition saveToCache {T} (store : gmap string (Entry T)) (t : Z)
    (key : string) (d : T) : gmap string (Entry T) :=
  <[ CACHE_PREFIX ++ key := {| data := d; stamp := t |} ]> store.

Definition poolCacheGet (key : string) (ttl : Z) : M (option PoolData) :=
  fun w =>
    let '(r, s) := getFromCache (poolStore w) (now w) key ttl in
    (r, {| poolStore := s; priceStore := priceStore w; now := now w;
           rpcLog := rpcLog w; draws := draws w |}).

Definition poolCacheSave (key : string) (d : PoolData) : M unit :=
  fun w =>
    (tt, {| poolStore := saveToCache (poolStore w) (now w) key d;
            priceStore := priceStore w; now := now w;
            rpcLog := rpcLog w; draws := draws w |}).

Definition priceCacheGet (key : string) (ttl : Z) : M (option PriceData) :=
  fun w =>
    let '(r, s) := getFromCache (priceStore w) (now w) key ttl in
    (r, {| poolStore := poolStore w; priceStore := s; now := now w;
           rpcLog := rpcLog w; draws := draws w |}).

(** [JSON.stringify] writes [NaN] and the infinities as [null], which every
    later use of a price field reads as [0]. *)
Definition jsonNumber (x : number) : number :=
  match x with Num r => Num r | _ => Num 0 end.

Definition jsonPriceData (d : PriceData) : PriceData := {|
  poolAddress := poolAddress d;
  currentPrice := jsonNumber (currentPrice d);
  priceChange24h := jsonNumber (priceChange24h d);
  priceChange7d := jsonNumber (priceChange7d d);
  high24h := jsonNumber (high24h d);
  low24h := jsonNumber (low24h d);
  timestamp := timestamp d |}.

Definition priceCacheSave (key : string) (d : PriceData) : M unit :=
  fun w =>
    (tt, {| poolStore := poolStore w;
            priceStore :=
              saveToCache (priceStore w) (now w) key (jsonPriceData d);
            now := now w; rpcLog := rpcLog w; draws := draws w |}).

(** [clearCache()]: every key under [CACHE_PREFIX] is removed. *)
Definition clearCache : M unit :=
  fun w => (tt, {| poolStore := ∅; priceStore := ∅; now := now w;
                   rpcLog := rpcLog w; draws := draws w |}).

(** The request [connection.getAccountInfo(poolPubkey)], logged. *)
Definition rpcGetAccountInfo (env : Env) (a : string) : M AccountInfo :=
  fun w => (getAccountInfo env a,
            {| poolStore := poolStore w; priceStore := priceStore w;
               now := now w; rpcLog := a :: rpcLog w; draws := draws w |}).

(** ** The mock API *)

#[local] Open Scope R_scope.

Definition USDC_mint : string := "EPjFWdd5AufqSSqeM2qN1xzybapC8G4wEGGkZwyTDt1v".

Definition mockPool (a symA mintA : string) (decA : nat)
    (p liq vol f y : R) : PoolData := {|
  address := a;
  tokenA := Some {| tsymbol := symA; mint := mintA; decimals := decA |};
  tokenB := Some {| tsymbol := "USDC"; mint := USDC_mint; decimals := 6 |};
  price := Num p; liquidity := Num liq; volume24h := Num vol;
  fee := Num f; apy := Num y; tvl := Num liq |}.

Definition mockPools : object PoolData :=
  [ ("Czfq3xZZDmsdGdUyrNLtRhGc47cXcZtLG4crryfu44zE",
      mockPool "Czfq3xZZDmsdGdUyrNLtRhGc47cXcZtLG4crryfu44zE"
        "SOL" "So11111111111111111111111111111111111111112" 9
        221.85 45200000 12800000 0.25 12.4);
    ("HxA6SKW5qA4o12fjVgTpXdq2YnZ5Zv1s7SB4FFomsyLM",
      mockPool "HxA6SKW5qA4o12fjVgTpXdq2YnZ5Zv1s7SB4FFomsyLM"
        "cbBTC" "cbBTCmint" 8
        102850 67800000 18400000 0.25 8.7);
    ("ArisQNcbjXPJD7RgPRvysatX3xcfHPTbcTkfD8kDoZ9i",
      mockPool "ArisQNcbjXPJD7RgPRvysatX3xcfHPTbcTkfD8kDoZ9i"
        "EURC" "EURCmint" 6
        1.059 28500000 3200000 0.05 4.2);
    ("4fuUiYxTQ6QCrdSq9ouBYcTM7bqSwYTSyLueGZLTy4T4",
      mockPool "4fuUiYxTQ6QCrdSq9ouBYcTM7bqSwYTSyLueGZLTy4T4"
        "USDT" "USDTmint" 6
        1.0001 52000000 8500000 0.01 3.1);
    ("AU971DrPyhhrpRnmEBp5pDTWL2ny7nofb5vYBjDJkR2E",
      mockPool "AU971DrPyhhrpRnmEBp5pDTWL2ny7nofb5vYBjDJkR2E"
        "WETH" "WETHmint" 8
        3850 38400000 9200000 0.25 9.8) ].

(** [fetchPoolDataFromAPI]: [{ address: poolAddress, ...mockPools[poolAddress] }]. *)
Definition fetchPoolDataFromAPI (poolAddress : string) : PoolData :=
  match get mockPools poolAddress with
  | Some d => d
  | None => {| address := poolAddress; tokenA := None; tokenB := None;
               price := NaN; liquidity := NaN; volume24h := NaN;
               fee := NaN; apy := NaN; tvl := NaN |}
  end.

(** ** [getPoolData]: pool data through the cache.  Every failure inside
    the [try] is caught and answered with [null]. *)
Definition getPoolData (env : Env) (poolAddress : string)
    : M (option PoolData) :=
  cached ← poolCacheGet ("pool_" ++ poolAddress) CACHE_TTL;
  match cached with
  | Some d => ret (Some d)
  | None =>
      if publicKey env poolAddress then
        accountInfo ← rpcGetAccountInfo env poolAddress;
        match accountInfo with
        | Account =>
            let poolData := fetchPoolDataFromAPI poolAddress in
            _ ← poolCacheSave ("pool_" ++ poolAddress) poolData;
            ret (Some poolData)
        | NoAccount | RpcError => ret None
        end
      else ret None
  end.

(** The record [fetchPriceDataFromAPI] builds from the pool data, the
    draw [u] of [Math.random()] and the time [t]. *)
Definition mockPriceData (poolAddress : string) (poolData : PoolData)
    (u : number) (t : Z) : PriceData :=
  let randomChange := mul (sub u (Num 0.5)) (Num 0.1) in
  let currentPrice := mul (price poolData) (add (Num 1) randomChange) in
  {| poolAddress := poolAddress;
     currentPrice := currentPrice;
     priceChange24h := mul randomChange (Num 100);
     priceChange7d := mul randomChange (Num 200);
     high24h := mul currentPrice (Num 1.05);
     low24h := mul currentPrice (Num 0.95);
     timestamp := t |}.

(** [fetchPriceDataFromAPI]: mock price data with some randomness. *)
Definition fetchPriceDataFromAPI (env : Env) (poolAddress : string)
    : M (Outcome PriceData) :=
  poolData ← getPoolData env poolAddress;
  match poolData with
  | None => ret (Rejected "Pool data not found")
  | Some poolData =>
      u ← mathRandom env;
      t ← dateNow;
      ret (Resolved (mockPriceData poolAddress poolData u t))
  end.

(** [getPriceData]: price data through the cache, with the shorter TTL. *)
Definition getPriceData (env : Env) (poolAddress : string)
    : M (option PriceData) :=
  cached ← priceCacheGet ("price_" ++ poolAddress) PRICE_CACHE_TTL;
  match cached with
  | Some d => ret (Some d)
  | None =>
      fetched ← fetchPriceDataFromAPI env poolAddress;
      match fetched with
      | Resolved priceData =>
          _ ← priceCacheSave ("price_" ++ poolAddress) priceData;
          ret (Some priceData)
      | Rejected _ => ret None
      end
  end.

Record OptimalRange : Type := {
  lowerPrice : number;
  upperPrice : number;
  expectedAPY : number
}.

Definition volatilityMultiplier (riskTolerance : Pools.RiskLevel) : number :=
  match riskTolerance with
  | Pools.low => Num 0.05
  | Pools.medium => Num 0.10
  | Pools.high => Num 0.20
  end.

(** The range [calculateOptimalRange] derives from the price data. *)
Definition optimalRangeOf (priceData : PriceData)
    (riskTolerance : Pools.RiskLevel) : OptimalRange :=
  let multiplier := volatilityMultiplier riskTolerance in
  let currentPrice := currentPrice priceData in
  (* Calculate range based on volatility and risk tolerance *)
  let lowerPrice := mul currentPrice (sub (Num 1) multiplier) in
  let upperPrice := mul currentPrice (add (Num 1) multiplier) in
  (* Estimate APY based on range (tighter range = higher APY) *)
  let baseAPY := Num 10 in
  let rangeBonus := mul (div (Num 1) multiplier) (Num 0.5) in
  let expectedAPY := add baseAPY rangeBonus in
  {| lowerPrice := lowerPrice;
     upperPrice := upperPrice;
     expectedAPY := min expectedAPY (Num 50) |}.

(** [calculateOptimalRange]: the position range for a risk tolerance. *)
Definition calculateOptimalRange (env : Env) (poolAddress : string)
    (investment : number) (riskTolerance : Pools.RiskLevel)
    : M (Outcome OptimalRange) :=
  priceData ← getPriceData env poolAddress;
  match priceData with
  | None => ret (Rejected "Unable to fetch price data")
  | Some priceData => ret (Resolved (optimalRangeOf priceData riskTolerance))
  end.

(** [calculateImpermanentLoss]: impermanent loss for a position, as a
    percentage. *)
Definition calculateImpermanentLoss
    (initialPriceRatio currentPriceRatio : number) : number :=
  let priceRatioChange := div currentPriceRatio initialPriceRatio in
  let impermanentLoss :=
    sub (div (mul (Num 2) (sqrt priceRatioChange))
             (add (Num 1) priceRatioChange))
        (Num 1) in
  mul impermanentLoss (Num 100).

(** ** [getYieldMetrics]: yield metrics for a pool *)

Record YieldMetrics : Type := {
  yApy : number;
  yApr : number;
  dailyFees : number;
  weeklyFees : number
}.

(** The metrics [getYieldMetrics] computes from the pool data. *)
Definition yieldMetricsOf (poolData : PoolData) : YieldMetrics :=
  (* Simplified APR calculation *)
  let apr := mul (fee poolData) (Num 365) in
  let apy :=
    mul (sub (pow (add (Num 1) (div (fee poolData) (Num 365))) 365) (Num 1))
        (Num 100) in
  let dailyFees := mul (volume24h poolData) (div (fee poolData) (Num 100)) in
  let weeklyFees := mul dailyFees (Num 7) in
  {| yApy := apy; yApr := apr; dailyFees := dailyFees;
     weeklyFees := weeklyFees |}.

Definition getYieldMetrics (env : Env) (poolAddress : string)
    : M (Outcome YieldMetrics) :=
  poolData ← getPoolData env poolAddress;
  match poolData with
  | None => ret (Rejected "Unable to fetch pool data")
  | Some poolData => ret (Resolved (yieldMetricsOf poolData))
  end.

End OrcaClient.

(* ===================================================================== *)
(** * [services/poolDataAggregator.ts]: the allocation engine *)
(* ===================================================================== *)

Module PoolDataAggregator.
Import JS.
Import Pools(RiskLevel, low, medium, high,
             HedgeType, bluechip, stablecoin, hedge).
Import OrcaClient(M, ret, Env, World, Outcome, Resolved, Rejected).
#[local] Existing Instance OrcaClient.M_bind.

#[local] Open Scope R_scope.

Inductive Trend : Type := bull | bear | stable.

Record Range : Type := {
  lower : number;
  upper : number
}.

Record Allocation : Type := {
  amount : number;
  percentage : number
}.

Record AggregatedPoolData : Type := {
  poolId : string;
  poolName : string;
  address : string;
  currentPrice : number;
  priceChange24h : number;
  liquidity : number;
  volume24h : number;
  apy : number;
  tvl : number;
  fee : number;
  riskLevel : RiskLevel;
  hedgeType : HedgeType;
  trend : Trend;
  trendStrength : number;
  impermanentLossEstimate : number;
  optimalRange : option Range;
  allocationSuggestion : option Allocation
}.

Record PortfolioRecommendation : Type := {
  totalInvestment : number;
  expectedDailyYield : number;
  expectedDailyYieldPercentage : number;
  portfolioRisk : RiskLevel;
  pools : list AggregatedPoolData;
  hedgeRatio : number;
  correlationScore : number;
  lastUpdated : Z
}.

Definition RiskLevel_eqb (a b : RiskLevel) : bool :=
  match a, b with
  | low, low | medium, medium | high, high => true
  | _, _ => false
  end.

Definition HedgeType_eqb (a b : HedgeType) : bool :=
  match a, b with
  | bluechip, bluechip | stablecoin, stablecoin | hedge, hedge => true
  | _, _ => false
  end.

(** [{ ...pool, allocationSuggestion: a }] *)
Definition withAllocation (pool : AggregatedPoolData) (a : Allocation)
    : AggregatedPoolData := {|
  poolId := poolId pool; poolName := poolName pool;
  address := address pool; currentPrice := currentPrice pool;
  priceChange24h := priceChange24h pool; liquidity := liquidity pool;
  volume24h := volume24h pool; apy := apy pool; tvl := tvl pool;
  fee := fee pool; riskLevel := riskLevel pool;
  hedgeType := hedgeType pool; trend := trend pool;
  trendStrength := trendStrength pool;
  impermanentLossEstimate := impermanentLossEstimate pool;
  optimalRange := optimalRange pool;
  allocationSuggestion := Some a |}.

(** ** Weights *)

(** [adjustWeightsForRiskTolerance]: the base weight of each pool. *)
Definition adjustWeightsForRiskTolerance (pools : list AggregatedPoolData)
    (riskTolerance : RiskLevel) : object number :=
  let totalPools := of_nat (length pools) in
  match riskTolerance with
  | low =>
      (* Favor stable and hedge pools *)
      fold_left (fun weights pool =>
        if HedgeType_eqb (hedgeType pool) stablecoin
           || HedgeType_eqb (hedgeType pool) hedge
        then set weights (poolId pool) (div (Num 0.35) (Num 2))
        else set weights (poolId pool)
                 (div (Num 0.30) (sub totalPools (Num 2))))
        pools []
  | high =>
      (* Favor high-yield pools *)
      fold_left (fun weights pool =>
        if RiskLevel_eqb (riskLevel pool) high
        then set weights (poolId pool) (div (Num 0.50) (Num 2))
        else if HedgeType_eqb (hedgeType pool) hedge
        then set weights (poolId pool) (Num 0.15)
        else set weights (poolId pool)
                 (div (Num 0.35) (sub totalPools (Num 3))))
        pools []
  | medium =>
      (* Use default balanced weights *)
      fold_left (fun weights pool =>
        set weights (poolId pool)
            (get_or Pools.DEFAULT_ALLOCATION_WEIGHTS (poolId pool)
                    (Num 0.20)))
        pools []
  end.

(** The market volatility [applyHedgeStrategy] checks. *)
Definition avgVolatility (pools : list AggregatedPoolData) : number :=
  div (fold_left (fun sum pool => add sum (abs (priceChange24h pool)))
                 pools (Num 0))
      (of_nat (length pools)).

(** The body of [if (eurcPool)]: increase the EURC allocation and reduce
    the others. *)
Definition boostEurc (pools : list AggregatedPoolData)
    (weights : object number) : object number :=
  let eurcBoost := Num 0.10 in
  let currentEurcWeight := get_or weights "EURC_USDC" (Num 0) in
  let weights :=
    set weights "EURC_USDC" (min (add currentEurcWeight eurcBoost) (Num 0.40)) in
  let reduction := div eurcBoost (sub (of_nat (length pools)) (Num 1)) in
  fold_left (fun weights pool =>
    if negb (String.eqb (poolId pool) "EURC_USDC")
    then set weights (poolId pool)
             (max (sub (get_or weights (poolId pool) (Num 0)) reduction)
                  (Num 0.05))
    else weights)
    pools weights.

(** The first half of [applyHedgeStrategy]: the weights as they stand when
    the normalization starts. *)
Definition hedgeAdjusted (pools : list AggregatedPoolData)
    (weights : object number) : object number :=
  if gt (avgVolatility pools) (Num 5) then
    match List.find (fun p => String.eqb (poolId p) "EURC_USDC") pools with
    | Some eurcPool => boostEurc pools weights
    | None => weights
    end
  else weights.

(** The second half: normalize weights to sum to 1. *)
Definition normalize (weights : object number) : object number :=
  let totalWeight :=
    fold_left (fun sum w => add sum w) (values weights) (Num 0) in
  fold_left (fun weights poolId =>
    set weights poolId
        (div (match get weights poolId with Some w => w | None => NaN end)
             totalWeight))
    (keys weights) weights.

Definition applyHedgeStrategy (pools : list AggregatedPoolData)
    (weights : object number) : object number :=
  normalize (hedgeAdjusted pools weights).

(** [calculateOptimalAllocations]: allocations with the hedge strategy. *)
Definition finalWeights (pools : list AggregatedPoolData)
    (riskTolerance : RiskLevel) : object number :=
  let adjustedWeights := adjustWeightsForRiskTolerance pools riskTolerance in
  applyHedgeStrategy pools adjustedWeights.

Definition calculateOptimalAllocations (pools : list AggregatedPoolData)
    (totalInvestment : number) (riskTolerance : RiskLevel)
    : list AggregatedPoolData :=
  let finalWeights := finalWeights pools riskTolerance in
  List.map (fun pool =>
    let weight := get_or finalWeights (poolId pool) (Num 0) in
    let amount := mul totalInvestment weight in
    withAllocation pool
      {| amount := amount; percentage := mul weight (Num 100) |})
    pools.

(** ** Portfolio metrics *)

Definition allocationAmount (pool : AggregatedPoolData) : number :=
  match allocationSuggestion pool with
  | Some a => or_else (amount a) (Num 0)
  | None => Num 0
  end.

Definition allocationPercentage (pool : AggregatedPoolData) : number :=
  match allocationSuggestion pool with
  | Some a => or_else (percentage a) (Num 0)
  | None => Num 0
  end.

(** [calculateExpectedDailyYield] *)
Definition calculateExpectedDailyYield (pools : list AggregatedPoolData)
    : number :=
  fold_left (fun total pool =>
    let allocation := allocationAmount pool in
    let dailyYield :=
      div (div (mul allocation (apy pool)) (Num 365)) (Num 100) in
    add total dailyYield)
    pools (Num 0).

Definition riskScore (r : RiskLevel) : number :=
  match r with low => Num 1 | medium => Num 2 | high => Num 3 end.

(** [assessPortfolioRisk] *)
Definition assessPortfolioRisk (pools : list AggregatedPoolData) : RiskLevel :=
  let weightedRisk :=
    fold_left (fun total pool =>
      let weight := div (allocationPercentage pool) (Num 100) in
      add total (mul weight (riskScore (riskLevel pool))))
      pools (Num 0) in
  if lt weightedRisk (Num 1.5) then low
  else if lt weightedRisk (Num 2.5) then medium
  else high.

(** [calculateHedgeRatio] *)
Definition calculateHedgeRatio (pools : list AggregatedPoolData) : number :=
  fold_left (fun sum p => add sum (allocationPercentage p))
    (List.filter (fun p => HedgeType_eqb (hedgeType p) hedge
                           || HedgeType_eqb (hedgeType p) stablecoin) pools)
    (Num 0).

(** [POOL_CORRELATIONS[a]?.[b] || 0] *)
Definition correlation (a b : string) : number :=
  match get Pools.POOL_CORRELATIONS a with
  | Some row => get_or row b (Num 0)
  | None => Num 0
  end.

(** [calculateCorrelationScore]: the two nested loops, the inner one over
    the pools after [pools[i]]. *)
Fixpoint correlationPairs (pools : list AggregatedPoolData)
    (acc : number * nat) : number * nat :=
  match pools with
  | [] => acc
  | pi :: rest =>
      correlationPairs rest
        (fold_left (fun '(totalCorrelation, pairCount) pj =>
           (add totalCorrelation (abs (correlation (poolId pi) (poolId pj))),
            S pairCount))
           rest acc)
  end.

Definition calculateCorrelationScore (pools : list AggregatedPoolData)
    : number :=
  let '(totalCorrelation, pairCount) := correlationPairs pools (Num 0, O) in
  if Nat.ltb 0 pairCount then div totalCorrelation (of_nat pairCount)
  else Num 0.

(** [determineTrend] *)
Definition determineTrend (priceChange24h : number) : Trend :=
  if gt priceChange24h (Num 2) then bull
  else if lt priceChange24h (Num (-2)) then bear
  else stable.

(** [estimateImpermanentLoss]: a negative value represents loss. *)
Definition estimateImpermanentLoss (priceChange24h : number)
    (riskLevel : RiskLevel) : number :=
  let baseIL := mul (abs priceChange24h) (Num 0.1) in
  let riskMultiplier :=
    match riskLevel with
    | low => Num 0.5 | medium => Num 1 | high => Num 1.5
    end in
  neg (mul baseIL riskMultiplier).

(** ** Fetching and aggregating *)

(** The record [aggregatePoolData] returns. *)
Definition aggregated (poolId : string) (poolConfig : Pools.PoolConfig)
    (poolData : OrcaClient.PoolData) (priceData : OrcaClient.PriceData)
    (optimalRange : OrcaClient.OptimalRange) : AggregatedPoolData :=
  (* Determine trend based on price change *)
  let trend := determineTrend (OrcaClient.priceChange24h priceData) in
  (* Calculate IL estimate based on volatility *)
  let ilEstimate :=
    estimateImpermanentLoss (OrcaClient.priceChange24h priceData)
                            (Pools.riskLevel poolConfig) in
  {| poolId := poolId;
     poolName := Pools.name poolConfig;
     address := Pools.address poolConfig;
     currentPrice := OrcaClient.currentPrice priceData;
     priceChange24h := OrcaClient.priceChange24h priceData;
     liquidity := OrcaClient.liquidity poolData;
     volume24h := OrcaClient.volume24h poolData;
     apy := OrcaClient.apy poolData;
     tvl := OrcaClient.tvl poolData;
     fee := OrcaClient.fee poolData;
     riskLevel := Pools.riskLevel poolConfig;
     hedgeType := Pools.hedgeType poolConfig;
     trend := trend;
     trendStrength := OrcaClient.priceChange24h priceData;
     impermanentLossEstimate := ilEstimate;
     optimalRange :=
       Some {| lower := OrcaClient.lowerPrice optimalRange;
               upper := OrcaClient.upperPrice optimalRange |};
     allocationSuggestion := None |}.

(** [aggregatePoolData]: rejects when [calculateOptimalRange] does. *)
Definition aggregatePoolData (env : Env) (poolId : string)
    (poolConfig : Pools.PoolConfig) (poolData : OrcaClient.PoolData)
    (priceData : OrcaClient.PriceData) : M (Outcome AggregatedPoolData) :=
  optimalRange ← OrcaClient.calculateOptimalRange env
                   (Pools.address poolConfig) (Num 10000)
                   (Pools.riskLevel poolConfig);
  match optimalRange with
  | Rejected e => ret (Rejected e)
  | Resolved optimalRange =>
      ret (Resolved (aggregated poolId poolConfig poolData priceData
                                optimalRange))
  end.

(** One turn of the loop of [getPoolsData]: the pool is pushed, or skipped
    (unknown id, missing data, or an error caught and logged). *)
Definition fetchOne (env : Env) (poolId : string)
    : M (option AggregatedPoolData) :=
  match get Pools.SUPPORTED_POOLS poolId with
  | None => ret None
  | Some poolConfig =>
      poolData ← OrcaClient.getPoolData env (Pools.address poolConfig);
      priceData ← OrcaClient.getPriceData env (Pools.address poolConfig);
      match poolData, priceData with
      | Some poolData, Some priceData =>
          aggregated ← aggregatePoolData env poolId poolConfig
                         poolData priceData;
          match aggregated with
          | Resolved a => ret (Some a)
          | Rejected _ => ret None
          end
      | _, _ => ret None
      end
  end.

(** [getPoolsData]: data for specific pools, in the order asked. *)
Fixpoint getPoolsData (env : Env) (poolIds : list string)
    : M (list AggregatedPoolData) :=
  match poolIds with
  | [] => ret []
  | poolId :: rest =>
      one ← fetchOne env poolId;
      others ← getPoolsData env rest;
      ret (match one with Some a => a :: others | None => others end)
  end.

(** [generateRecommendations]: portfolio recommendations for the user's
    parameters. *)
Definition generateRecommendations (env : Env) (totalInvestment : number)
    (expectedDailyFeesPercent : number) (selectedPoolIds : list string)
    (riskTolerance : RiskLevel) : M (Outcome PortfolioRecommendation) :=
  (* Get data for selected pools *)
  poolsData ← getPoolsData env selectedPoolIds;
  (* Calculate allocations based on strategy *)
  let allocatedPools :=
    calculateOptimalAllocations poolsData totalInvestment riskTolerance in
  (* Calculate portfolio metrics *)
  let expectedDailyYield := calculateExpectedDailyYield allocatedPools in
  let portfolioRisk := assessPortfolioRisk allocatedPools in
  let hedgeRatio := calculateHedgeRatio allocatedPools in
  let correlationScore := calculateCorrelationScore allocatedPools in
  t ← OrcaClient.dateNow;
  ret (Resolved {|
    totalInvestment := totalInvestment;
    expectedDailyYield := expectedDailyYield;
    expectedDailyYieldPercentage :=
      mul (div expectedDailyYield totalInvestment) (Num 100);
    portfolioRisk := portfolioRisk;
    pools := allocatedPools;
    hedgeRatio := hedgeRatio;
    correlationScore := correlationScore;
    lastUpdated := t |}).

(** ** [getAllPoolsData]: data for all supported pools *)

(** One turn of its loop, over an entry of the registry. *)
Definition fetchEntry (env : Env) (entry : string * Pools.PoolConfig)
    : M (option AggregatedPoolData) :=
  let '(poolId, poolConfig) := entry in
  poolData ← OrcaClient.getPoolData env (Pools.address poolConfig);
  priceData ← OrcaClient.getPriceData env (Pools.address poolConfig);
  match poolData, priceData with
  | Some poolData, Some priceData =>
      aggregated ← aggregatePoolData env poolId poolConfig
                     poolData priceData;
      match aggregated with
      | Resolved a => ret (Some a)
      | Rejected _ => ret None
      end
  | _, _ => ret None
  end.

Fixpoint fetchEntries (env : Env) (entries : list (string * Pools.PoolConfig))
    : M (list AggregatedPoolData) :=
  match entries with
  | [] => ret []
  | entry :: rest =>
      one ← fetchEntry env entry;
      others ← fetchEntries env rest;
      ret (match one with Some a => a :: others | None => others end)
  end.

Definition getAllPoolsData (env : Env) : M (list AggregatedPoolData) :=
  fetchEntries env Pools.SUPPORTED_POOLS.

End PoolDataAggregator.

(* ===================================================================== *)
(** * [services/priceWebSocket.ts]: the price stream

    The service is an event emitter with a connection flag, a reconnection
    counter, a subscription table and two kinds of timers.  [emitted] logs
    the events in the order [emit] is called; [reconnects] holds the delays
    of the [setTimeout] callbacks that have not fired yet, oldest first;
    [attempts] counts the runs of the [try] block of [connect].

    The [try] block of [connect] awaits [subscribeToPoolAccounts], which
    calls [subscribeToPools], which calls [connect] again as long as
    [isConnected] is false: the flag is set after the subscriptions only.
    The calls nest without an [await] between them, so [connect] re-enters
    itself until the call stack is exhausted.  [depth] is the number of
    nested calls of [connect] the stack still admits: at [0] the [try]
    block ends in a RangeError, which is caught by the innermost [connect]
    that has the stack to handle it; every [connect] around it then
    resumes.  Nothing else in the block throws (an error of
    [new PublicKey] or [onAccountChange] is caught in the loop of
    [subscribeToPools] and logged); the listeners of the events are not
    part of the model.  A call of a method is taken to settle before the
    next one is made, as the hook that uses the service awaits them. *)
(* ===================================================================== *)

Module PriceWebSocketService.
Import JS.

#[local] Open Scope R_scope.

Record PriceUpdate : Type := {
  poolId : string;
  poolAddress : string;
  price : number;
  timestamp : Z;
  change : number
}.

Record VolumeUpdate : Type := {
  vPoolId : string;
  vPoolAddress : string;
  volume24h : number;
  vTimestamp : Z
}.

Inductive Severity : Type := sevHigh | sevMedium.

(** The payload of [priceAlert]; [aChange] is the number its message
    prints ([change.toFixed(2)]). *)
Record PriceAlert : Type := {
  aPoolId : string;
  aChange : number;
  severity : Severity;
  aTimestamp : Z
}.

Inductive Event : Type :=
| connected
| disconnected
| priceUpdate (u : PriceUpdate)
| volumeUpdate (v : VolumeUpdate)
| priceAlert (a : PriceAlert)
| error (message : string).

Record State : Type := {
  subscriptions : gmap string nat;
  priceUpdateInterval : bool;       (* the interval timer is set *)
  isConnected : bool;
  reconnectAttempts : nat;
  reconnects : list Z;
  emitted : list Event;
  attempts : nat;
  nextSubscription : nat;           (* the id [onAccountChange] gives next *)
  draws : nat                       (* [Math.random()] calls so far *)
}.

Definition maxReconnectAttempts : nat := 5.

Definition initial : State := {|
  subscriptions := ∅; priceUpdateInterval := false; isConnected := false;
  reconnectAttempts := 0; reconnects := []; emitted := []; attempts := 0;
  nextSubscription := 0; draws := 0 |}.

Definition emit (e : Event) (s : State) : State := {|
  subscriptions := subscriptions s;
  priceUpdateInterval := priceUpdateInterval s;
  isConnected := isConnected s;
  reconnectAttempts := reconnectAttempts s;
  reconnects := reconnects s;
  emitted := emitted s ++ [e];
  attempts := attempts s;
  nextSubscription := nextSubscription s;
  draws := draws s |}.

(** [handleConnectionError]: handle connection errors and attempt
    reconnection.  The 'error' event is logged as emitted, whether or not a
    listener is registered for it. *)
Definition reconnectDelay (attempt : nat) : Z :=
  Z.min (1000 * 2 ^ Z.of_nat attempt) 30000.

Definition handleConnectionError (s : State) : State :=
  if Nat.leb maxReconnectAttempts (reconnectAttempts s) then
    emit (error "Unable to establish WebSocket connection") s
  else
    let attempt := S (reconnectAttempts s) in
    let delay := reconnectDelay attempt in
    {| subscriptions := subscriptions s;
       priceUpdateInterval := priceUpdateInterval s;
       isConnected := isConnected s;
       reconnectAttempts := attempt;
       reconnects := reconnects s ++ [delay];
       emitted := emitted s;
       attempts := attempts s;
       nextSubscription := nextSubscription s;
       draws := draws s |}.

(** The loop of [subscribeToPools], after its connection check: a pool
    that is unknown or already subscribed is skipped, the others get the
    id [connection.onAccountChange] returns. *)
Definition subscribeOne (s : State) (poolId : string) : State :=
  match get Pools.SUPPORTED_POOLS poolId with
  | None => s
  | Some poolConfig =>
      match subscriptions s !! poolId with
      | Some _ => s
      | None =>
          {| subscriptions :=
               <[ poolId := nextSubscription s ]> (subscriptions s);
             priceUpdateInterval := priceUpdateInterval s;
             isConnected := isConnected s;
             reconnectAttempts := reconnectAttempts s;
             reconnects := reconnects s;
             emitted := emitted s;
             attempts := attempts s;
             nextSubscription := S (nextSubscription s);
             draws := draws s |}
      end
  end.

Definition subscribeLoop (poolIds : list string) (s : State) : State :=
  fold_left subscribeOne poolIds s.

(** [subscribeToPools], over the [connect] it calls first when the
    service is not connected. *)
Definition subscribeToPoolsVia (connect : State -> State)
    (poolIds : list string) (s : State) : State :=
  let s := if negb (isConnected s) then connect s else s in
  subscribeLoop poolIds s.

(** The [try] block of [connect] is entered. *)
Definition entered (s : State) : State := {|
  subscriptions := subscriptions s;
  priceUpdateInterval := priceUpdateInterval s;
  isConnected := isConnected s;
  reconnectAttempts := reconnectAttempts s;
  reconnects := reconnects s;
  emitted := emitted s;
  attempts := S (attempts s);
  nextSubscription := nextSubscription s;
  draws := draws s |}.

(** The end of the [try] block, once the subscriptions are made: the
    price update simulation is started, the flag set, the counter reset and
    'connected' emitted. *)
Definition established (s : State) : State :=
  emit connected
    {| subscriptions := subscriptions s;
       priceUpdateInterval := true;
       isConnected := true;
       reconnectAttempts := 0;
       reconnects := reconnects s;
       emitted := emitted s;
       attempts := attempts s;
       nextSubscription := nextSubscription s;
       draws := draws s |}.

(** [connect]: connect and start monitoring. *)
Fixpoint connect (depth : nat) (s : State) : State :=
  if isConnected s then s   (* WebSocket already connected *)
  else
    let s := entered s in
    match depth with
    | O =>
        (* RangeError: Maximum call stack size exceeded *)
        handleConnectionError s
    | S depth =>
        (* Subscribe to all pool accounts *)
        let s := subscribeToPoolsVia (connect depth)
                   (keys Pools.SUPPORTED_POOLS) s in
        established s
    end.

(** [disconnect] *)
Definition disconnect (s : State) : State :=
  if negb (isConnected s) then s
  else
    emit disconnected
      {| subscriptions := ∅;
         priceUpdateInterval := false;
         isConnected := false;
         reconnectAttempts := reconnectAttempts s;
         reconnects := reconnects s;
         emitted := emitted s;
         attempts := attempts s;
         nextSubscription := nextSubscription s;
         draws := draws s |}.

(** The oldest [setTimeout] callback fires: it calls [connect]. *)
Definition fire (depth : nat) (s : State) : State :=
  match reconnects s with
  | [] => s
  | _ :: later =>
      connect depth
        {| subscriptions := subscriptions s;
           priceUpdateInterval := priceUpdateInterval s;
           isConnected := isConnected s;
           reconnectAttempts := reconnectAttempts s;
           reconnects := later;
           emitted := emitted s;
           attempts := attempts s;
           nextSubscription := nextSubscription s;
           draws := draws s |}
  end.


(** ** The price update simulation *)

Definition basePrices : object number :=
  [ ("SOL_USDC", Num 221.85); ("CBBTC_USDC", Num 102850);
    ("WETH_USDC", Num 3850); ("EURC_USDC", Num 1.059);
    ("USDT_USDC", Num 1.0001) ].

Definition mathRandom (random : nat -> R) (s : State) : number * State :=
  (Num (random (draws s)),
   {| subscriptions := subscriptions s;
      priceUpdateInterval := priceUpdateInterval s;
      isConnected := isConnected s;
      reconnectAttempts := reconnectAttempts s;
      reconnects := reconnects s;
      emitted := emitted s;
      attempts := attempts s;
      nextSubscription := nextSubscription s;
      draws := S (draws s) |}).

(** One turn of the loop of the interval callback, at time [t]. *)
Definition tickOne (random : nat -> R) (t : Z) (s : State)
    (entry : string * Pools.PoolConfig) : State :=
  let '(poolId, poolConfig) := entry in
  match subscriptions s !! poolId with
  | None => s
  | Some _ =>
      let basePrice := get_or basePrices poolId (Num 100) in
      (* Generate random price movement (+-0.5%) *)
      let '(u, s) := mathRandom random s in
      let change := mul (sub u (Num 0.5)) (Num 0.01) in
      let newPrice := mul basePrice (add (Num 1) change) in
      let s := emit (priceUpdate {|
                 poolId := poolId;
                 poolAddress := Pools.address poolConfig;
                 price := newPrice;
                 timestamp := t;
                 change := mul change (Num 100) |}) s in
      (* Also emit volume updates occasionally *)
      let '(u, s) := mathRandom random s in
      if gt u (Num 0.7) then
        let '(u, s) := mathRandom random s in
        emit (volumeUpdate {|
          vPoolId := poolId;
          vPoolAddress := Pools.address poolConfig;
          volume24h := add (mul u (Num 10000000)) (Num 1000000);
          vTimestamp := t |}) s
      else s
  end.

(** The interval callback of [startPriceUpdateSimulation]. *)
Definition tick (random : nat -> R) (t : Z) (s : State) : State :=
  fold_left (tickOne random t) Pools.SUPPORTED_POOLS s.

(** ** Subscriptions *)

(** [subscribeToPools]: connects first when the service is not connected,
    then subscribes the pools. *)
Definition subscribeToPools (depth : nat) (poolIds : list string)
    (s : State) : State :=
  subscribeToPoolsVia (connect depth) poolIds s.

(** One turn of the loop of [unsubscribeFromPools].  [removes id] tells
    whether [connection.removeAccountChangeListener(id)] settles (it throws
    otherwise, and the error is caught and logged).  A pool that is not
    subscribed is skipped, and so is one whose subscription id is [0]:
    the test is [!subscriptionId]. *)
Definition unsubscribeOne (removes : nat -> bool) (s : State)
    (poolId : string) : State :=
  match subscriptions s !! poolId with
  | None => s
  | Some subscriptionId =>
      if Nat.eqb subscriptionId 0 then s
      else if removes subscriptionId then
        {| subscriptions := delete poolId (subscriptions s);
           priceUpdateInterval := priceUpdateInterval s;
           isConnected := isConnected s;
           reconnectAttempts := reconnectAttempts s;
           reconnects := reconnects s;
           emitted := emitted s;
           attempts := attempts s;
           nextSubscription := nextSubscription s;
           draws := draws s |}
      else s
  end.

Definition unsubscribeFromPools (removes : nat -> bool)
    (poolIds : list string) (s : State) : State :=
  fold_left (unsubscribeOne removes) poolIds s.

(** [disconnect] on a connection whose [removeAccountChangeListener] may
    throw: the first listener that cannot be removed ends the [try] block,
    before the table is cleared and the flag reset. *)
Definition disconnectVia (removes : nat -> bool) (s : State) : State :=
  if negb (isConnected s) then s
  else if forallb removes (List.map snd (map_to_list (subscriptions s)))
  then disconnect s
  else s.

(** [isWebSocketConnected] *)
Definition isWebSocketConnected (s : State) : bool := isConnected s.

(** ** Volatility monitoring *)

(** The returns between consecutive prices: the first loop of
    [calculateVolatility]. *)
Fixpoint returnsOf (prices : list number) : list number :=
  match prices with
  | previous :: (current :: _) as rest =>
      div (sub current previous) previous :: returnsOf rest
  | _ => []
  end.

(** [calculateVolatility]: the standard deviation of the returns, as a
    percentage. *)
Definition calculateVolatility (prices : list number) : number :=
  if Nat.ltb (length prices) 2 then Num 0
  else
    let returns := returnsOf prices in
    let mean :=
      div (fold_left (fun a b => add a b) returns (Num 0))
          (of_nat (length returns)) in
    let variance :=
      div (fold_left (fun sum r => add sum (pow (sub r mean) 2))
                     returns (Num 0))
          (of_nat (length returns)) in
    let stdDev := sqrt variance in
    mul stdDev (Num 100).

(** The payload of [volatilityAlert], but for its [message], which
    renders the volatility with [toFixed]. *)
Record VolatilityAlert : Type := {
  wPoolId : string;
  volatility : number;
  wTimestamp : Z
}.

Definition historyLimit : nat := 20.

(** The listener [monitorVolatility(poolId, threshold)] registers, run on
    a price update at time [t]: [priceHistory] is the array it keeps, and
    the alert, if any, is what it emits. *)
Definition monitorVolatility (poolId : string) (threshold : number) (t : Z)
    (priceHistory : list number) (update : PriceUpdate)
    : list number * option VolatilityAlert :=
  if negb (String.eqb (PriceWebSocketService.poolId update) poolId)
  then (priceHistory, None)
  else
    let priceHistory := (priceHistory ++ [price update])%list in
    let priceHistory :=
      if Nat.ltb historyLimit (length priceHistory)
      then List.tl priceHistory else priceHistory in
    if Nat.leb 5 (length priceHistory) then
      let volatility := calculateVolatility priceHistory in
      if gt volatility threshold then
        (priceHistory,
         Some {| wPoolId := poolId; volatility := volatility;
                 wTimestamp := t |})
      else (priceHistory, None)
    else (priceHistory, None).

(** The listener over a run of updates: the history it ends with and the
    alerts it emitted, oldest first. *)
Fixpoint monitorRun (poolId : string) (threshold : number)
    (priceHistory : list number) (updates : list (Z * PriceUpdate))
    : list number * list VolatilityAlert :=
  match updates with
  | [] => (priceHistory, [])
  | (t, update) :: later =>
      let '(priceHistory, alert) :=
        monitorVolatility poolId threshold t priceHistory update in
      let '(final, alerts) :=
        monitorRun poolId threshold priceHistory later in
      (final, match alert with Some a => a :: alerts | None => alerts end)
  end.

End PriceWebSocketService.

(* ===================================================================== *)
(** * [hooks/usePoolRecommendations.ts]: the caller's guard *)
(* ===================================================================== *)

Module UsePoolRecommendations.
Import JS.
Import OrcaClient(M, ret, Env, Outcome).
#[local] Existing Instance OrcaClient.M_bind.

(** What [fetchRecommendations] leaves in the hook's state: the error
    'Invalid configuration' without a call, or the outcome of the call. *)
Inductive Fetch : Type :=
| InvalidConfiguration
| Called (o : Outcome PoolDataAggregator.PortfolioRecommendation).

Definition fetchRecommendations (env : Env) (totalInvestment : number)
    (expectedDailyFeesPercent : number) (selectedPoolIds : list string)
    (riskTolerance : Pools.RiskLevel) : M Fetch :=
  if negb (truthy totalInvestment) || Nat.eqb (length selectedPoolIds) 0
  then ret InvalidConfiguration
  else
    o ← PoolDataAggregator.generateRecommendations env totalInvestment
          expectedDailyFeesPercent selectedPoolIds riskTolerance;
    ret (Called o).

End UsePoolRecommendations.

(* ===================================================================== *)
(** * The words of the specification

    Definitions that follow the specification's text, to be compared with
    the functions above. *)
(* ===================================================================== *)

Module Spec.
Import JS PoolDataAggregator.

(** The annualized yield of a pool: its [apy], a percentage, as a rate. *)
Definition annualYield (pool : AggregatedPoolData) : number :=
  div (apy pool) (Num 100).

(** "expected daily yield = sum of (amount x annualYield / 365)" *)
Definition expectedDailyYield (pools : list AggregatedPoolData) : number :=
  fold_right (fun pool total =>
    add (div (mul (allocationAmount pool) (annualYield pool)) (Num 365))
        total)
    (Num 0) pools.

(** What the code sums for a pool. *)
Definition dailyYieldOf (pool : AggregatedPoolData) : number :=
  div (div (mul (allocationAmount pool) (apy pool)) (Num 365)) (Num 100).

Definition sum (l : list number) : number := fold_right add (Num 0) l.

(** A weight that is a positive real. *)
Definition positive (v : number) : Prop := exists x : R, v = Num x /\ (0 < x)%R.

(** The sum of a list of reals. *)
Definition rsum (l : list R) : R := fold_right Rplus 0%R l.

(** "loss = 2 sqrt(r) / (1 + r) - 1", on the reals. *)
Definition lossFraction (r : R) : R :=
  (2 * R_sqrt.sqrt r / (1 + r) - 1)%R.

(** The weights the allocation gives the pools of a result, and their
    amounts. *)
Definition weightOf (pool : AggregatedPoolData) : number :=
  match allocationSuggestion pool with
  | Some a => div (percentage a) (Num 100)
  | None => Num 0
  end.

Definition amountOf (pool : AggregatedPoolData) : number :=
  match allocationSuggestion pool with
  | Some a => amount a
  | None => Num 0
  end.


(** The delays of the five reconnections, in milliseconds. *)
Definition backoff : list Z := [2000; 4000; 8000; 16000; 30000]%Z.

(** "amount = totalInvestment x (percentage / 100)" *)
Definition consistent (T : number) (pool : AggregatedPoolData) : Prop :=
  exists a, allocationSuggestion pool = Some a
            /\ amount a = mul T (div (percentage a) (Num 100)).

End Spec.

(* ===================================================================== *)
(** * Sample inputs *)
(* ===================================================================== *)

Module Samples.
Import JS PoolDataAggregator.

#[local] Open Scope R_scope.

(** A resolved pool of the registry with the 24h price change [ch] (in
    percent) and the yield [y]. *)
Definition resolved (c : Pools.PoolConfig) (ch y : R) : AggregatedPoolData := {|
  poolId := Pools.id c; poolName := Pools.name c;
  address := Pools.address c;
  currentPrice := Num 1; priceChange24h := Num ch;
  liquidity := Num 1000000; volume24h := Num 100000;
  apy := Num y; tvl := Num 1000000; fee := Num 0.25;
  riskLevel := Pools.riskLevel c; hedgeType := Pools.hedgeType c;
  trend := determineTrend (Num ch); trendStrength := Num ch;
  impermanentLossEstimate :=
    estimateImpermanentLoss (Num ch) (Pools.riskLevel c);
  optimalRange := None; allocationSuggestion := None |}.

(** SOL/USDC and cbBTC/USDC on a volatile day: the hedge pair is not among
    them. *)
Definition volatileBluechips : list AggregatedPoolData :=
  [ resolved Pools.SOL_USDC 10 12.4; resolved Pools.CBBTC_USDC (-10) 8.7 ].

(** SOL/USDC and the hedge pair on a calm day. *)
Definition calmSolAndEurc : list AggregatedPoolData :=
  [ resolved Pools.SOL_USDC 1 12.4; resolved Pools.EURC_USDC (-1) 4.2 ].

(** SOL/USDC and the hedge pair on a volatile day. *)
Definition volatileSolAndEurc : list AggregatedPoolData :=
  [ resolved Pools.SOL_USDC 10 12.4; resolved Pools.EURC_USDC (-10) 4.2 ].

(** The five pools on a volatile day. *)
Definition volatileFive : list AggregatedPoolData :=
  [ resolved Pools.SOL_USDC 8 12.4; resolved Pools.CBBTC_USDC (-6) 8.7;
    resolved Pools.EURC_USDC 6 4.2; resolved Pools.USDT_USDC (-6) 3.1;
    resolved Pools.WETH_USDC 7 9.8 ].

(** One pool holding 36500 at a yield of 10 (percent). *)
Definition oneAllocated : list AggregatedPoolData :=
  [ withAllocation (resolved Pools.SOL_USDC 1 10)
      {| amount := Num 36500; percentage := Num 100 |} ].

(** A data source that answers every request, its random draws all 0.5,
    and a world with an empty cache at time 0. *)
Definition env0 : OrcaClient.Env := {|
  OrcaClient.publicKey := fun _ => true;
  OrcaClient.getAccountInfo := fun _ => OrcaClient.Account;
  OrcaClient.random := fun _ => 0.5 |}.

Definition w0 : OrcaClient.World := {|
  OrcaClient.poolStore := ∅; OrcaClient.priceStore := ∅;
  OrcaClient.now := 0; OrcaClient.rpcLog := []; OrcaClient.draws := 0 |}.

End Samples.

(* ===================================================================== *)
(** * Notions the properties are stated with *)
(* ===================================================================== *)

Module Notions.
Import JS.

#[local] Open Scope R_scope.

(** The node answers for the account [a]: the address is a valid key and
    the account is found. *)
Definition reachable (env : OrcaClient.Env) (a : string) : Prop :=
  OrcaClient.publicKey env a = true
  /\ OrcaClient.getAccountInfo env a = OrcaClient.Account.

(** Every draw of [Math.random()] falls in [0, 1). *)
Definition fair (random : nat -> R) : Prop := forall k, 0 <= random k < 1.

(** A 24h change of at most 5 percent, either way. *)
Definition calm (c : number) : Prop := exists x : R, c = Num x /\ Rabs x <= 5.

(** A price cache every entry of which holds a calm 24h change. *)
Definition calmCache (w : OrcaClient.World) : Prop :=
  forall (k : string) (e : OrcaClient.Entry OrcaClient.PriceData),
    OrcaClient.priceStore w !! k = Some e ->
    calm (OrcaClient.priceChange24h (OrcaClient.data e)).

(** The id is a key of the registry. *)
Definition known (id : string) : bool :=
  match get Pools.SUPPORTED_POOLS id with Some _ => true | None => false end.

(** The storage keys of a pool's snapshot and of its price. *)
Definition poolKey (a : string) : string :=
  OrcaClient.CACHE_PREFIX ++ "pool_" ++ a.

Definition priceKey (a : string) : string :=
  OrcaClient.CACHE_PREFIX ++ "price_" ++ a.

(** A number that is a real in the interval [[lo, hi]]. *)
Definition within (lo hi : R) (v : number) : Prop :=
  exists x : R, v = Num x /\ lo <= x <= hi.

(** The sum of the products of two lists of reals, term by term. *)
Fixpoint dot (xs ys : list R) : R :=
  match xs, ys with
  | x :: xs', y :: ys' => x * y + dot xs' ys'
  | _, _ => 0
  end.

End Notions.

(* ===================================================================== *)
(** * Notions of the portfolio properties *)
(* ===================================================================== *)

Module PortfolioNotions.
Import JS PoolDataAggregator.
Import Pools(RiskLevel, low, medium, high).

#[local] Open Scope R_scope.

(** What a resolved pool is made of. *)
Definition fromRegistry (pid : string) (c : Pools.PoolConfig)
    (p : AggregatedPoolData) : Prop :=
  poolId p = pid /\ poolName p = Pools.name c
  /\ address p = Pools.address c
  /\ riskLevel p = Pools.riskLevel c /\ hedgeType p = Pools.hedgeType c
  /\ allocationSuggestion p = None.

(** The number of pools from which a risk tolerance divides by a
    positive count. *)
Definition enough (risk : RiskLevel) (n : nat) : Prop :=
  match risk with
  | medium => (1 <= n)%nat
  | low => (3 <= n)%nat
  | high => (4 <= n)%nat
  end.

(** The pools with the shares [ws] of the investment [t] allocated. *)
Fixpoint allot (t : R) (pools : list AggregatedPoolData) (ws : list R)
    : list AggregatedPoolData :=
  match pools, ws with
  | pool :: pools', w :: ws' =>
      withAllocation pool {| amount := Num (t * w);
                             percentage := Num (w * 100) |}
      :: allot t pools' ws'
  | _, _ => []
  end.

(** The risk score of a level, as a real. *)
Definition rscore (r : RiskLevel) : R :=
  match r with low => 1 | medium => 2 | high => 3 end.

(** The pool is a hedge: of the hedge type, or a stablecoin pair. *)
Definition isHedge (p : AggregatedPoolData) : bool :=
  HedgeType_eqb (hedgeType p) Pools.hedge
  || HedgeType_eqb (hedgeType p) Pools.stablecoin.

(** The hedge pair and the stablecoin pair on a calm day. *)
Definition calmStables : list AggregatedPoolData :=
  [ Samples.resolved Pools.EURC_USDC 1 4.2;
    Samples.resolved Pools.USDT_USDC 0 3.1 ].

(** The magnitude of the correlation of two pools. *)
Definition link (p q : AggregatedPoolData) : number :=
  abs (correlation (poolId p) (poolId q)).

(** The sum of the magnitudes over the pairs of a list, each pair once,
    and the number of the pairs. *)
Fixpoint pairSum (pools : list AggregatedPoolData) : number :=
  match pools with
  | [] => Num 0
  | p :: rest =>
      add (fold_right (fun q acc => add (link p q) acc) (Num 0) rest)
          (pairSum rest)
  end.

Fixpoint pairCount (pools : list AggregatedPoolData) : nat :=
  match pools with
  | [] => O
  | _ :: rest => (length rest + pairCount rest)%nat
  end.

(** A node that knows every account but that of WETH/USDC. *)
Definition envWithoutWeth : OrcaClient.Env := {|
  OrcaClient.publicKey := fun _ => true;
  OrcaClient.getAccountInfo := fun a =>
    if String.eqb a (Pools.address Pools.WETH_USDC)
    then OrcaClient.NoAccount else OrcaClient.Account;
  OrcaClient.random := fun _ => 0.5 |}.

End PortfolioNotions.

(* ===================================================================== *)
(** * Notions of the price stream properties *)
(* ===================================================================== *)

Module StreamNotions.
Import JS PriceWebSocketService.

#[local] Open Scope R_scope.

(** Subscription ids as [connection.onAccountChange] hands them out: below
    the next one, and no id given twice. *)
Definition numbered (s : State) : Prop :=
  (forall k v, subscriptions s !! k = Some v -> (v < nextSubscription s)%nat)
  /\ (forall k k' v, subscriptions s !! k = Some v ->
                     subscriptions s !! k' = Some v -> k = k').

(** The price updates among a list of events, in order. *)
Fixpoint priceUpdatesOf (events : list Event) : list PriceUpdate :=
  match events with
  | [] => []
  | priceUpdate u :: rest => u :: priceUpdatesOf rest
  | _ :: rest => priceUpdatesOf rest
  end.

(** The pool is subscribed. *)
Definition subscribed (s : State) (poolId : string) : bool :=
  match subscriptions s !! poolId with Some _ => true | None => false end.

(** The id is one of the list. *)
Definition among (ids : list string) (j : string) : bool :=
  List.existsb (String.eqb j) ids.

(** The returns between consecutive prices, their mean and variance, and
    the volatility, on the reals. *)
Fixpoint returnsR (prices : list R) : list R :=
  match prices with
  | previous :: (current :: _) as rest =>
      (current - previous) / previous :: returnsR rest
  | _ => []
  end.

Definition meanR (rs : list R) : R := Spec.rsum rs / INR (length rs).

Definition varianceR (rs : list R) : R :=
  Spec.rsum (List.map (fun r => (r - meanR rs) ^ 2) rs) / INR (length rs).

Definition volatilityR (prices : list R) : R :=
  R_sqrt.sqrt (varianceR (returnsR prices)) * 100.

(** A price update of the pool [poolId] with the price [x]. *)
Definition updateOf (poolId : string) (x : R) (t : Z) : Z * PriceUpdate :=
  (t, {| PriceWebSocketService.poolId := poolId; poolAddress := "";
         price := Num x; timestamp := t; change := Num 0 |}).





Definition isError (e : Event) : bool :=
  match e with error _ => true | _ => false end.

(** The service at rest: no failure counted, no delay but the first, no
    error reported. *)
Definition rest (s : State) : Prop :=
  reconnectAttempts s = 0%nat
  /\ Forall (fun delay => delay = 2000%Z) (reconnects s)
  /\ Forall (fun e => isError e = false) (emitted s).

End StreamNotions.

(* ===================================================================== *)
(** * Facts about the number model *)
(* ===================================================================== *)

Module JSFacts.
Import JS.

#[local] Open Scope R_scope.

(** Deciding the comparisons of closed real terms. *)
Ltac nat_const :=
  repeat match goal with
  | |- context [Z.of_nat ?n] =>
      let z := eval vm_compute in (Z.of_nat n) in
      change (Z.of_nat n) with z
  end.

(** [n - k] for a count [n]: the difference of two integer constants. *)
Ltac int_const :=
  repeat match goal with
  | |- context [IZR ?a + - IZR ?b] =>
      let z := eval vm_compute in (a - b)%Z in
      replace (IZR a + - IZR b) with (IZR z)
        by (rewrite <- opp_IZR, <- plus_IZR; reflexivity)
  end.

Ltac absurd_real := exfalso; lra.

Ltac decide_with d :=
  first [ destruct d; [ absurd_real | ] | destruct d; [ | absurd_real ] ].

Ltac decide_real :=
  match goal with
  | |- context [Rcase_abs ?a] => decide_with (Rcase_abs a)
  | |- context [Rle_dec ?a ?b] => decide_with (Rle_dec a b)
  | |- context [Req_dec_T ?a ?b] => decide_with (Req_dec_T a b)
  | |- context [Rlt_dec ?a ?b] => decide_with (Rlt_dec a b)
  end.

(** Evaluation of a closed term of the model. *)
Ltac js_eval :=
  repeat (cbn -[Rplus Rminus Rmult Rdiv Ropp Rinv Q2R IZR INR Z.of_nat
                R_sqrt.sqrt];
          nat_const; int_const;
          unfold or_else, get_or, truthy, div, mul, sqrt, lt, gt, ge, inf_of,
                 sgn, Rabs, Rmin, Rmax;
          try decide_real).

(** Equality of two values of the model, down to the reals in them. *)
Ltac js_done :=
  repeat (lazymatch goal with
          | |- @eq R _ _ => fail
          | |- _ => f_equal
          end);
  first [ reflexivity | lra | field; repeat split; lra ].

Lemma sgn_pos (r : R) : 0 < r -> sgn r = Pos.
Proof. intros H. unfold sgn. repeat decide_real. reflexivity. Qed.

Lemma sgn_neg (r : R) : r < 0 -> sgn r = Neg.
Proof. intros H. unfold sgn. repeat decide_real. reflexivity. Qed.

Lemma sgn_zero : sgn 0 = Zero.
Proof. unfold sgn. repeat decide_real. reflexivity. Qed.

Lemma sgn_cases (r : R) :
  (r < 0 /\ sgn r = Neg) \/ (r = 0 /\ sgn r = Zero) \/ (0 < r /\ sgn r = Pos).
Proof.
  destruct (Rtotal_order r 0) as [H | [H | H]].
  - left. split; [assumption | now apply sgn_neg].
  - right; left. subst r. split; [reflexivity | apply sgn_zero].
  - right; right. split; [assumption | now apply sgn_pos].
Qed.

Lemma div_num (x y : R) : y <> 0 -> div (Num x) (Num y) = Num (x / y).
Proof.
  intros H. unfold div.
  destruct (sgn_cases y) as [[_ ->] | [[H0 _] | [_ ->]]];
    [reflexivity | contradiction | reflexivity].
Qed.

Lemma lt_num (x y : R) : lt (Num x) (Num y) = true <-> x < y.
Proof.
  unfold lt. destruct (Rlt_dec x y); split; intros; try easy.
Qed.

Lemma gt_num (x y : R) : gt (Num x) (Num y) = true <-> y < x.
Proof. apply lt_num. Qed.

Lemma gt_num_false (x y : R) : gt (Num x) (Num y) = false <-> x <= y.
Proof.
  unfold gt, lt. destruct (Rlt_dec y x); split; intros; try easy; lra.
Qed.

Lemma truthy_num (r : R) : truthy (Num r) = true <-> r <> 0.
Proof.
  unfold truthy. destruct (Req_dec_T r 0); split; intros; try easy.
Qed.

(** Addition is a commutative monoid on the whole of [number]. *)
Lemma add_0_l (a : number) : add (Num 0) a = a.
Proof. destruct a; cbn; try reflexivity. f_equal; lra. Qed.

Lemma add_0_r (a : number) : add a (Num 0) = a.
Proof. destruct a; cbn; try reflexivity. f_equal; lra. Qed.

Lemma add_comm (a b : number) : add a b = add b a.
Proof. destruct a, b; cbn; try reflexivity. f_equal; lra. Qed.

Lemma add_assoc (a b c : number) : add a (add b c) = add (add a b) c.
Proof. destruct a, b, c; cbn; try reflexivity. f_equal; lra. Qed.

(** A left fold of [add] is the sum of the list. *)
Lemma fold_add (l : list number) (a : number) :
  fold_left add l a = add a (fold_right add (Num 0) l).
Proof.
  revert a. induction l as [| x l IH]; intros a; cbn.
  - now rewrite add_0_r.
  - rewrite IH. now rewrite add_assoc.
Qed.

(** What [Math.min] and [Math.max] guarantee, also for [NaN]. *)
Lemma min_not_above (a b : number) : gt (min a b) b = false.
Proof.
  destruct a as [x | | |], b as [y | | |]; cbn; try reflexivity.
  - unfold Rmin. destruct (Rle_dec x y), (Rlt_dec y _); try reflexivity; lra.
  - destruct (Rlt_dec y y); [lra | reflexivity].
Qed.

Lemma max_not_below (a b : number) : lt (max a b) b = false.
Proof.
  destruct a as [x | | |], b as [y | | |]; cbn; try reflexivity.
  - unfold Rmax. destruct (Rle_dec x y), (Rlt_dec _ y); try reflexivity; lra.
  - destruct (Rlt_dec y y); [lra | reflexivity].
Qed.

(** Multiplying by 100 and dividing by 100 again gives the number back. *)
Lemma percent_roundtrip (w : number) : div (mul w (Num 100)) (Num 100) = w.
Proof.
  destruct w as [x | | |]; unfold mul.
  - rewrite div_num by lra. f_equal. field.
  - rewrite (sgn_pos 100) by lra. unfold inf_of, div.
    now rewrite (sgn_pos 100) by lra.
  - rewrite (sgn_pos 100) by lra. unfold flip, inf_of, div.
    now rewrite (sgn_pos 100) by lra.
  - reflexivity.
Qed.

End JSFacts.

(* ===================================================================== *)
(** * Properties of the data-source client *)
(* ===================================================================== *)

Module OrcaClientProps.
Import JS JSFacts OrcaClient.
Import Spec(lossFraction).

#[local] Open Scope R_scope.

(** ** The impermanent-loss formula *)

(** On a positive finite ratio the function computes the formula. *)
Lemma calculateImpermanentLoss_pos (a b : R) :
  a <> 0 -> 0 < b / a ->
  calculateImpermanentLoss (Num a) (Num b) = Num (lossFraction (b / a) * 100).
Proof.
  intros Ha Hr. unfold calculateImpermanentLoss, lossFraction.
  rewrite div_num by assumption.
  unfold sqrt. destruct (Rlt_dec (b / a) 0) as [Hneg | _]; [lra |].
  cbn [mul add].
  rewrite div_num by lra.
  reflexivity.
Qed.

(** The arithmetic-geometric mean inequality behind the sign of the loss. *)
Lemma lossFraction_nonpos (r : R) : 0 < r -> lossFraction r <= 0.
Proof.
  intros Hr. unfold lossFraction.
  assert (Hs : 0 <= R_sqrt.sqrt r) by apply sqrt_pos.
  assert (Hsq : R_sqrt.sqrt r * R_sqrt.sqrt r = r) by (apply sqrt_sqrt; lra).
  assert (Hq : 0 <= (R_sqrt.sqrt r - 1) * (R_sqrt.sqrt r - 1))
    by apply Rle_0_sqr.
  assert (H2 : 2 * R_sqrt.sqrt r <= 1 + r) by lra.
  assert (Hd : 2 * R_sqrt.sqrt r / (1 + r) <= 1).
  { apply (Rmult_le_reg_r (1 + r)); [lra |].
    unfold Rdiv. rewrite Rmult_assoc, Rinv_l by lra. lra. }
  lra.
Qed.

(** The formula is unchanged when the ratio is inverted. *)
Lemma lossFraction_inverse (a b : R) :
  0 < a -> 0 < b -> lossFraction (b / a) = lossFraction (a / b).
Proof.
  intros Ha Hb. unfold lossFraction.
  rewrite (sqrt_div_alt b a), (sqrt_div_alt a b) by assumption.
  assert (Hsa : 0 < R_sqrt.sqrt a) by now apply sqrt_lt_R0.
  assert (Hsb : 0 < R_sqrt.sqrt b) by now apply sqrt_lt_R0.
  assert (Ea : a = R_sqrt.sqrt a * R_sqrt.sqrt a) by (symmetry; apply sqrt_sqrt; lra).
  assert (Eb : b = R_sqrt.sqrt b * R_sqrt.sqrt b) by (symmetry; apply sqrt_sqrt; lra).
  remember (R_sqrt.sqrt a) as s. remember (R_sqrt.sqrt b) as t.
  rewrite Ea, Eb. field. nra.
Qed.

(** A negative ratio has no square root: the result is [NaN]. *)
Lemma calculateImpermanentLoss_neg (a b : R) :
  a <> 0 -> b / a < 0 -> calculateImpermanentLoss (Num a) (Num b) = NaN.
Proof.
  intros Ha Hr. unfold calculateImpermanentLoss.
  rewrite div_num by assumption.
  unfold sqrt. destruct (Rlt_dec (b / a) 0) as [_ | Hpos]; [| lra].
  reflexivity.
Qed.

(** An initial ratio of zero: the quotient is infinite or undefined, and
    the result is [NaN]. *)
Lemma calculateImpermanentLoss_initial_zero (b : R) :
  calculateImpermanentLoss (Num 0) (Num b) = NaN.
Proof.
  assert (Hq : div (Num b) (Num 0) = inf_of (sgn b))
    by (unfold div; now rewrite sgn_zero).
  unfold calculateImpermanentLoss. rewrite Hq.
  destruct (sgn_cases b) as [[_ ->] | [[_ ->] | [_ ->]]];
    cbn [inf_of sqrt mul]; rewrite ?(sgn_pos 2) by lra; reflexivity.
Qed.

(** A ratio of zero: the square root vanishes and the result is [-100]. *)
Lemma calculateImpermanentLoss_zero (a b : R) :
  a <> 0 -> b / a = 0 ->
  calculateImpermanentLoss (Num a) (Num b) = Num (-100).
Proof.
  intros Ha Hr. unfold calculateImpermanentLoss.
  rewrite div_num by assumption. rewrite Hr.
  unfold sqrt. destruct (Rlt_dec 0 0) as [Hneg | _]; [lra |].
  cbn [mul add]. rewrite div_num by lra. rewrite sqrt_0.
  cbn [sub neg add mul]. f_equal. field.
Qed.

(** C7, as the code has it.  For finite ratios [a] (initial) and [b]
    (current), with [r = b / a]: when [r > 0] the function returns
    [(2 sqrt(r) / (1 + r) - 1) * 100], the loss as a signed percentage,
    which is never positive (its magnitude is the negated result); it
    rejects nothing: [r = 0] gives [-100], [r < 0] gives [NaN], and so does
    an initial ratio of [0]. *)
Theorem calculateImpermanentLoss_signed_total (a b : R) :
  (a <> 0 -> 0 < b / a ->
     calculateImpermanentLoss (Num a) (Num b)
       = Num (lossFraction (b / a) * 100)
     /\ lossFraction (b / a) * 100 <= 0)
  /\ (a <> 0 -> b / a = 0 ->
        calculateImpermanentLoss (Num a) (Num b) = Num (-100))
  /\ (a <> 0 -> b / a < 0 ->
        calculateImpermanentLoss (Num a) (Num b) = NaN)
  /\ (a = 0 -> calculateImpermanentLoss (Num a) (Num b) = NaN).
Proof.
  repeat split.
  - now apply calculateImpermanentLoss_pos.
  - pose proof (lossFraction_nonpos (b / a) H0). lra.
  - apply calculateImpermanentLoss_zero.
  - apply calculateImpermanentLoss_neg.
  - intros ->. apply calculateImpermanentLoss_initial_zero.
Qed.

(** The theorem at the ratios 1 -> 4: the loss is [-20] percent. *)
Lemma calculateImpermanentLoss_signed_total_witness :
  calculateImpermanentLoss (Num 1) (Num 4)
    = Num (lossFraction (4 / 1) * 100)
  /\ lossFraction (4 / 1) * 100 <= 0.
Proof.
  apply (proj1 (calculateImpermanentLoss_signed_total 1 4)); lra.
Defined.

(** C7 as the specification words it fails: at the ratio 4 the result is
    [-20], not the magnitude [20]; at the ratio 0 and at a negative ratio
    the call is not rejected but returns [-100] and [NaN]. *)
Lemma calculateImpermanentLoss_not_magnitude :
  calculateImpermanentLoss (Num 1) (Num 4) = Num (-20)
  /\ calculateImpermanentLoss (Num 1) (Num 4) <> Num 20
  /\ calculateImpermanentLoss (Num 1) (Num 0) = Num (-100)
  /\ calculateImpermanentLoss (Num 1) (Num (-4)) = NaN.
Proof.
  assert (H4 : calculateImpermanentLoss (Num 1) (Num 4) = Num (-20)).
  { rewrite calculateImpermanentLoss_pos by lra. unfold lossFraction.
    replace (4 / 1) with (2 * 2) by lra.
    rewrite sqrt_square by lra. f_equal. lra. }
  repeat split.
  - exact H4.
  - rewrite H4. intros E. injection E. lra.
  - apply calculateImpermanentLoss_zero; lra.
  - apply calculateImpermanentLoss_neg; lra.
Qed.

(** C8.  An unchanged ratio gives a loss of [0], and the loss is the same
    in both directions: from [a] to [b] as from [b] to [a], that is at the
    ratio [r] as at the ratio [1 / r]. *)
Theorem calculateImpermanentLoss_identities :
  (forall x : R, 0 < x ->
     calculateImpermanentLoss (Num x) (Num x) = Num 0)
  /\ (forall a b : R, 0 < a -> 0 < b ->
        calculateImpermanentLoss (Num a) (Num b)
          = calculateImpermanentLoss (Num b) (Num a))
  /\ (forall r : R, 0 < r ->
        calculateImpermanentLoss (Num 1) (Num r)
          = calculateImpermanentLoss (Num 1) (Num (1 / r))).
Proof.
  assert (Hsym : forall a b : R, 0 < a -> 0 < b ->
            calculateImpermanentLoss (Num a) (Num b)
              = calculateImpermanentLoss (Num b) (Num a)).
  { intros a b Ha Hb.
    assert (0 < b / a) by now apply Rdiv_lt_0_compat.
    assert (0 < a / b) by now apply Rdiv_lt_0_compat.
    rewrite !calculateImpermanentLoss_pos by lra.
    now rewrite (lossFraction_inverse a b). }
  repeat split.
  - intros x Hx.
    assert (Hr : x / x = 1) by (field; lra).
    rewrite calculateImpermanentLoss_pos by lra.
    rewrite Hr. unfold lossFraction. rewrite sqrt_1. f_equal. lra.
  - exact Hsym.
  - intros r Hr.
    assert (Hi : 0 < 1 / r) by (apply Rdiv_lt_0_compat; lra).
    rewrite (Hsym 1 r) by lra.
    rewrite !calculateImpermanentLoss_pos by lra.
    f_equal. f_equal. f_equal. field. lra.
Qed.

(** The identities at [x = 2], at the ratios 1 -> 4 and 4 -> 1, and at the
    ratios 4 and 1/4. *)
Lemma calculateImpermanentLoss_identities_witness :
  calculateImpermanentLoss (Num 2) (Num 2) = Num 0
  /\ calculateImpermanentLoss (Num 1) (Num 4)
       = calculateImpermanentLoss (Num 4) (Num 1)
  /\ calculateImpermanentLoss (Num 1) (Num 4)
       = calculateImpermanentLoss (Num 1) (Num (1 / 4)).
Proof.
  destruct calculateImpermanentLoss_identities as (H1 & H2 & H3).
  repeat split; [apply H1 | apply H2 | apply H3]; lra.
Defined.

(** ** The pool-data cache *)

(** The storage key of a pool's snapshot. *)
Lemma getFromCache_fresh {T} (store : gmap string (Entry T)) (t : Z)
    (key : string) (ttl : Z) (e : Entry T) :
  store !! (CACHE_PREFIX ++ key) = Some e ->
  (t - stamp e <= ttl)%Z ->
  getFromCache store t key ttl = (Some (data e), store).
Proof.
  intros Hlook Hage. unfold getFromCache. rewrite Hlook.
  destruct (Z.gtb_spec (t - stamp e) ttl); [lia | reflexivity].
Qed.

Lemma getFromCache_stale {T} (store : gmap string (Entry T)) (t : Z)
    (key : string) (ttl : Z) (e : Entry T) :
  store !! (CACHE_PREFIX ++ key) = Some e ->
  (t - stamp e > ttl)%Z ->
  getFromCache store t key ttl = (None, delete (CACHE_PREFIX ++ key) store).
Proof.
  intros Hlook Hage. unfold getFromCache. rewrite Hlook.
  destruct (Z.gtb_spec (t - stamp e) ttl); [reflexivity | lia].
Qed.

Lemma getFromCache_miss {T} (store : gmap string (Entry T)) (t : Z)
    (key : string) (ttl : Z) :
  store !! (CACHE_PREFIX ++ key) = None ->
  getFromCache store t key ttl = (None, store).
Proof. intros Hlook. unfold getFromCache. now rewrite Hlook. Qed.

(** A fresh entry is returned and the world is as it was. *)
Lemma getPoolData_fresh (env : Env) (poolAddress : string) (w : World)
    (e : Entry PoolData) :
  poolStore w !! (CACHE_PREFIX ++ "pool_" ++ poolAddress) = Some e ->
  (now w - stamp e <= CACHE_TTL)%Z ->
  getPoolData env poolAddress w = (Some (data e), w).
Proof.
  intros Hlook Hage. unfold getPoolData, poolCacheGet, mbind, M_bind.
  rewrite (getFromCache_fresh _ _ _ _ e Hlook Hage).
  destruct w; reflexivity.
Qed.

(** A stale entry is removed and the pool is fetched again. *)
Lemma getPoolData_stale (env : Env) (poolAddress : string) (w : World)
    (e : Entry PoolData) :
  let key := CACHE_PREFIX ++ "pool_" ++ poolAddress in
  poolStore w !! key = Some e ->
  (now w - stamp e > CACHE_TTL)%Z ->
  publicKey env poolAddress = true ->
  let fetched := fetchPoolDataFromAPI poolAddress in
  let '(r, w') := getPoolData env poolAddress w in
  rpcLog w' = poolAddress :: rpcLog w
  /\ priceStore w' = priceStore w
  /\ match getAccountInfo env poolAddress with
     | Account =>
         r = Some fetched
         /\ poolStore w'
            = <[ key := {| data := fetched; stamp := now w |} ]>
                (delete key (poolStore w))
     | NoAccount | RpcError =>
         r = None /\ poolStore w' = delete key (poolStore w)
     end.
Proof.
  intros key Hlook Hage Hkey fetched.
  unfold getPoolData, poolCacheGet, mbind, M_bind.
  rewrite (getFromCache_stale _ _ _ _ e Hlook Hage).
  rewrite Hkey. unfold rpcGetAccountInfo.
  destruct (getAccountInfo env poolAddress); cbn; auto.
Qed.

(** A pool that is not cached is requested, stored and returned. *)
Lemma getPoolData_miss (env : Env) (a : string) (w : World) :
  poolStore w !! (CACHE_PREFIX ++ "pool_" ++ a) = None ->
  publicKey env a = true ->
  getAccountInfo env a = Account ->
  getPoolData env a w
  = (Some (fetchPoolDataFromAPI a),
     {| poolStore :=
          <[ CACHE_PREFIX ++ "pool_" ++ a :=
               {| data := fetchPoolDataFromAPI a; stamp := now w |} ]>
            (poolStore w);
        priceStore := priceStore w; now := now w;
        rpcLog := a :: rpcLog w; draws := draws w |}).
Proof.
  intros Hmiss Hkey Hacc.
  unfold getPoolData, poolCacheGet, mbind, M_bind.
  rewrite (getFromCache_miss _ _ _ _ Hmiss). rewrite Hkey.
  unfold rpcGetAccountInfo. rewrite Hacc. reflexivity.
Qed.

(** C9.  When the storage holds a snapshot of the pool whose age is within
    [CACHE_TTL] (30 s), [getPoolData] returns it and changes nothing: the
    storage is as it was and no request is sent.  When its age exceeds
    [CACHE_TTL], the entry is removed and the account is requested from
    the node; if it is found, the data fetched are stored under the key
    with the current time and returned (if not, the answer is [null] and
    the entry stays removed). *)
Theorem getPoolData_cache (env : Env) (poolAddress : string) (w : World)
    (e : Entry PoolData) :
  let key := CACHE_PREFIX ++ "pool_" ++ poolAddress in
  poolStore w !! key = Some e ->
  ((now w - stamp e <= CACHE_TTL)%Z ->
     getPoolData env poolAddress w = (Some (data e), w))
  /\ ((now w - stamp e > CACHE_TTL)%Z ->
      publicKey env poolAddress = true ->
      let fetched := fetchPoolDataFromAPI poolAddress in
      let '(r, w') := getPoolData env poolAddress w in
      rpcLog w' = poolAddress :: rpcLog w
      /\ priceStore w' = priceStore w
      /\ match getAccountInfo env poolAddress with
         | Account =>
             r = Some fetched
             /\ poolStore w'
                = <[ key := {| data := fetched; stamp := now w |} ]>
                    (delete key (poolStore w))
         | NoAccount | RpcError =>
             r = None /\ poolStore w' = delete key (poolStore w)
         end).
Proof.
  intros key Hlook. split.
  - now apply getPoolData_fresh.
  - intros Hage Hkey. now apply (getPoolData_stale env poolAddress w e).
Qed.

(** The theorem on a world whose only entry is the SOL/USDC snapshot,
    stored at time 0: read at time 30000 it is returned as it is; read at
    time 30001 it is fetched again and stored with the new time. *)
Lemma getPoolData_cache_witness :
  let a := Pools.address Pools.SOL_USDC in
  let key := CACHE_PREFIX ++ "pool_" ++ a in
  let e := {| data := fetchPoolDataFromAPI a; stamp := 0%Z |} in
  let world t := {| poolStore := {[ key := e ]}; priceStore := ∅;
                    now := t; rpcLog := []; draws := 0 |} in
  getPoolData Samples.env0 a (world 30000%Z)
    = (Some (fetchPoolDataFromAPI a), world 30000%Z)
  /\ (let '(r, w') := getPoolData Samples.env0 a (world 30001%Z) in
      rpcLog w' = [a]
      /\ priceStore w' = ∅
      /\ r = Some (fetchPoolDataFromAPI a)
      /\ poolStore w'
         = <[ key := {| data := fetchPoolDataFromAPI a; stamp := 30001%Z |} ]>
             (delete key {[ key := e ]})).
Proof.
  intros a key e world. split.
  - apply (proj1 (getPoolData_cache Samples.env0 a (world 30000%Z) e
                    (lookup_singleton_eq _ _))).
    vm_compute. discriminate.
  - apply (proj2 (getPoolData_cache Samples.env0 a (world 30001%Z) e
                    (lookup_singleton_eq _ _))).
    + reflexivity.
    + reflexivity.
Defined.

(** X3.  Two reads of a pool that is not cached, [dt] apart: within the
    window the second read returns the data of the first and the node is
    asked once; past the window it is asked twice. *)
Theorem getPoolData_twice (env : Env) (a : string) (w : World) (dt : Z) :
  publicKey env a = true ->
  getAccountInfo env a = Account ->
  poolStore w !! (CACHE_PREFIX ++ "pool_" ++ a) = None ->
  let '(r1, w1) := getPoolData env a w in
  let '(_, w2) := advance dt w1 in
  let '(r2, w3) := getPoolData env a w2 in
  r1 = Some (fetchPoolDataFromAPI a) /\ r2 = r1
  /\ ((dt <= CACHE_TTL)%Z -> rpcLog w3 = a :: rpcLog w)
  /\ ((dt > CACHE_TTL)%Z -> rpcLog w3 = a :: a :: rpcLog w).
Proof.
  intros Hkey Hacc Hmiss.
  set (key := CACHE_PREFIX ++ "pool_" ++ a) in *.
  set (e := {| data := fetchPoolDataFromAPI a; stamp := now w |}).
  rewrite (getPoolData_miss env a w Hmiss Hkey Hacc). fold key e. cbn [advance poolStore priceStore now rpcLog draws].
  match goal with |- context [getPoolData env a ?x] => set (w2 := x) end.
  assert (Hlook : poolStore w2 !! key = Some e) by apply lookup_insert_eq.
  destruct (Z_le_gt_dec dt CACHE_TTL) as [Hin | Hout].
  - rewrite (getPoolData_fresh env a w2 e Hlook) by (cbn; lia).
    repeat split; intros; try reflexivity; lia.
  - pose proof (getPoolData_stale env a w2 e Hlook) as H2.
    cbn zeta in H2. specialize (H2 ltac:(cbn; lia) Hkey).
    destruct (getPoolData env a w2) as [r2 w3].
    rewrite Hacc in H2. destruct H2 as (Hlog & _ & Hr & _).
    repeat split; intros; try assumption; lia.
Qed.

(** The two reads on SOL/USDC, from an empty cache, one second apart. *)
Lemma getPoolData_twice_witness :
  let a := Pools.address Pools.SOL_USDC in
  let '(r1, w1) := getPoolData Samples.env0 a Samples.w0 in
  let '(_, w2) := advance 1000 w1 in
  let '(r2, w3) := getPoolData Samples.env0 a w2 in
  r1 = Some (fetchPoolDataFromAPI a) /\ r2 = r1 /\ rpcLog w3 = [a].
Proof.
  intros a.
  pose proof (getPoolData_twice Samples.env0 a Samples.w0 1000
                eq_refl eq_refl (lookup_empty _)) as H.
  destruct (getPoolData Samples.env0 a Samples.w0) as [r1 w1].
  destruct (advance 1000 w1) as [u w2].
  destruct (getPoolData Samples.env0 a w2) as [r2 w3].
  destruct H as (H1 & H2 & H3 & _).
  repeat split; [exact H1 | exact H2 |].
  apply H3. unfold CACHE_TTL. lia.
Defined.

(** ** The paths of a fetch *)

(** A price that is not cached, for a pool that is: the price is drawn
    from the cached pool data, stored as JSON and returned. *)
Lemma getPriceData_miss (env : Env) (a : string) (w : World)
    (e : Entry PoolData) :
  priceStore w !! (CACHE_PREFIX ++ "price_" ++ a) = None ->
  poolStore w !! (CACHE_PREFIX ++ "pool_" ++ a) = Some e ->
  (now w - stamp e <= CACHE_TTL)%Z ->
  getPriceData env a w
  = (Some (mockPriceData a (data e) (Num (random env (draws w))) (now w)),
     {| poolStore := poolStore w;
        priceStore :=
          <[ CACHE_PREFIX ++ "price_" ++ a :=
               {| data := jsonPriceData
                            (mockPriceData a (data e)
                               (Num (random env (draws w))) (now w));
                  stamp := now w |} ]>
            (priceStore w);
        now := now w; rpcLog := rpcLog w; draws := S (draws w) |}).
Proof.
  intros Hmiss Hpool Hage.
  unfold getPriceData, priceCacheGet, mbind, M_bind.
  rewrite (getFromCache_miss _ _ _ _ Hmiss).
  unfold fetchPriceDataFromAPI, mbind, M_bind.
  match goal with
  | |- context [getPoolData env a ?x] =>
      rewrite (getPoolData_fresh env a x e Hpool Hage)
  end.
  reflexivity.
Qed.

(** A cached price within its window is returned as it is. *)
Lemma getPriceData_fresh (env : Env) (a : string) (w : World)
    (e : Entry PriceData) :
  priceStore w !! (CACHE_PREFIX ++ "price_" ++ a) = Some e ->
  (now w - stamp e <= PRICE_CACHE_TTL)%Z ->
  getPriceData env a w = (Some (data e), w).
Proof.
  intros Hlook Hage. unfold getPriceData, priceCacheGet, mbind, M_bind.
  rewrite (getFromCache_fresh _ _ _ _ e Hlook Hage).
  destruct w; reflexivity.
Qed.

End OrcaClientProps.

(* ===================================================================== *)
(** * Properties of the allocation engine *)
(* ===================================================================== *)

Module AllocationProps.
Import JS JSFacts PoolDataAggregator.
Import Pools(RiskLevel, low, medium, high).
Import OrcaClient(M, ret, Env, World, Outcome, Resolved, Rejected).
Import Spec(consistent).

#[local] Open Scope R_scope.

(** ** Records of numbers *)

Lemma get_set_eq {A} (o : object A) (k : string) (v : A) :
  get (set o k v) k = Some v.
Proof.
  induction o as [| [k' v'] o IH]; cbn.
  - now rewrite String.eqb_refl.
  - destruct (String.eqb_spec k' k) as [-> | Hne]; cbn.
    + now rewrite String.eqb_refl.
    + destruct (String.eqb_spec k' k); [contradiction | exact IH].
Qed.

Lemma get_set_ne {A} (o : object A) (k k' : string) (v : A) :
  k <> k' -> get (set o k v) k' = get o k'.
Proof.
  intros Hne. induction o as [| [k0 v0] o IH]; cbn.
  - destruct (String.eqb_spec k k'); [contradiction | reflexivity].
  - destruct (String.eqb_spec k0 k) as [-> | Hk]; cbn.
    + destruct (String.eqb_spec k k'); [contradiction | reflexivity].
    + destruct (String.eqb_spec k0 k'); [reflexivity | exact IH].
Qed.

Lemma get_or_set_ne (o : object number) (k k' : string) (v d : number) :
  k <> k' -> get_or (set o k v) k' d = get_or o k' d.
Proof. intros Hne. unfold get_or. now rewrite get_set_ne. Qed.

(** ** The shape of a recommendation *)

(** [generateRecommendations] always settles with a record, built from the
    pools [getPoolsData] resolved. *)
Lemma generateRecommendations_unfold (env : Env) (T fees : number)
    (ids : list string) (risk : RiskLevel) (w : World) :
  generateRecommendations env T fees ids risk w
  = let '(resolved, w') := getPoolsData env ids w in
    let allocated := calculateOptimalAllocations resolved T risk in
    (Resolved {|
       totalInvestment := T;
       expectedDailyYield := calculateExpectedDailyYield allocated;
       expectedDailyYieldPercentage :=
         mul (div (calculateExpectedDailyYield allocated) T) (Num 100);
       portfolioRisk := assessPortfolioRisk allocated;
       pools := allocated;
       hedgeRatio := calculateHedgeRatio allocated;
       correlationScore := calculateCorrelationScore allocated;
       lastUpdated := OrcaClient.now w' |}, w').
Proof.
  unfold generateRecommendations, mbind, OrcaClient.M_bind.
  destruct (getPoolsData env ids w) as [resolved w']. reflexivity.
Qed.

Lemma calculateOptimalAllocations_ids (pools : list AggregatedPoolData)
    (T : number) (risk : RiskLevel) :
  List.map poolId (calculateOptimalAllocations pools T risk)
  = List.map poolId pools.
Proof.
  unfold calculateOptimalAllocations. rewrite List.map_map. reflexivity.
Qed.

(** ** C10: amount and percentage of an allocation *)

Lemma calculateOptimalAllocations_consistent
    (pools : list AggregatedPoolData) (T : number) (risk : RiskLevel) :
  Forall (consistent T) (calculateOptimalAllocations pools T risk).
Proof.
  unfold calculateOptimalAllocations. apply List.Forall_forall.
  intros pool Hin. apply List.in_map_iff in Hin as (p & <- & _).
  eexists. split; [reflexivity |]. cbn [amount percentage].
  now rewrite percent_roundtrip.
Qed.

(** C10.  In every recommendation [generateRecommendations] returns, and
    in every list [calculateOptimalAllocations] returns, each pool carries
    an allocation whose amount is the total investment times its
    percentage over 100. *)
Theorem allocation_amount_matches_percentage :
  (forall (pools : list AggregatedPoolData) (T : number) (risk : RiskLevel),
     Forall (consistent T) (calculateOptimalAllocations pools T risk))
  /\ (forall (env : Env) (T fees : number) (ids : list string)
             (risk : RiskLevel) (w : World),
        match fst (generateRecommendations env T fees ids risk w) with
        | Resolved p =>
            totalInvestment p = T
            /\ Forall (consistent (totalInvestment p)) (PoolDataAggregator.pools p)
        | Rejected _ => False
        end).
Proof.
  split.
  - apply calculateOptimalAllocations_consistent.
  - intros. rewrite generateRecommendations_unfold.
    destruct (getPoolsData env ids w) as [resolved w']. cbn.
    split; [reflexivity | apply calculateOptimalAllocations_consistent].
Qed.

(** ** C4: the expected daily yield *)

Lemma calculateExpectedDailyYield_sum (pools : list AggregatedPoolData) :
  calculateExpectedDailyYield pools
  = Spec.sum (List.map Spec.dailyYieldOf pools).
Proof.
  unfold calculateExpectedDailyYield, Spec.sum.
  change (fold_left _ pools (Num 0))
    with (fold_left (fun total pool => add total (Spec.dailyYieldOf pool))
                    pools (Num 0)).
  rewrite <- (add_0_l (fold_right _ _ _)), <- fold_add.
  generalize (Num 0). induction pools as [| p pools IH]; intros acc; cbn.
  - reflexivity.
  - apply IH.
Qed.




(** One pool holding 36500 at a yield of 10 percent earns 10 a day, by
    the code and by the sum. *)
Lemma expected_daily_yield_of_one_pool :
  calculateExpectedDailyYield Samples.oneAllocated = Num 10
  /\ Spec.expectedDailyYield Samples.oneAllocated = Num 10.
Proof.
  split.
  - unfold calculateExpectedDailyYield, Samples.oneAllocated.
    js_eval. js_done.
  - unfold Spec.expectedDailyYield, Spec.annualYield, Samples.oneAllocated.
    js_eval. js_done.
Qed.

(** ** From the selection to the allocation *)

(** A pool of the registry that is not cached, on a node that answers:
    it resolves, from the mock data and one draw of [Math.random()]. *)
Lemma fetchOne_miss (env : Env) (pid : string) (c : Pools.PoolConfig)
    (w : World) :
  let a := Pools.address c in
  let d := OrcaClient.fetchPoolDataFromAPI a in
  let pr := OrcaClient.mockPriceData a d
              (Num (OrcaClient.random env (OrcaClient.draws w)))
              (OrcaClient.now w) in
  get Pools.SUPPORTED_POOLS pid = Some c ->
  OrcaClient.publicKey env a = true ->
  OrcaClient.getAccountInfo env a = OrcaClient.Account ->
  OrcaClient.poolStore w !! (OrcaClient.CACHE_PREFIX ++ "pool_" ++ a) = None ->
  OrcaClient.priceStore w !! (OrcaClient.CACHE_PREFIX ++ "price_" ++ a) = None ->
  fetchOne env pid w
  = (Some (aggregated pid c d pr
             (OrcaClient.optimalRangeOf (OrcaClient.jsonPriceData pr)
                                        (Pools.riskLevel c))),
     {| OrcaClient.poolStore :=
          <[ OrcaClient.CACHE_PREFIX ++ "pool_" ++ a :=
               {| OrcaClient.data := d;
                  OrcaClient.stamp := OrcaClient.now w |} ]>
            (OrcaClient.poolStore w);
        OrcaClient.priceStore :=
          <[ OrcaClient.CACHE_PREFIX ++ "price_" ++ a :=
               {| OrcaClient.data := OrcaClient.jsonPriceData pr;
                  OrcaClient.stamp := OrcaClient.now w |} ]>
            (OrcaClient.priceStore w);
        OrcaClient.now := OrcaClient.now w;
        OrcaClient.rpcLog := a :: OrcaClient.rpcLog w;
        OrcaClient.draws := S (OrcaClient.draws w) |}).
Proof.
  intros a d pr Hc Hkey Hacc Hpool Hprice.
  unfold fetchOne. rewrite Hc. fold a.
  unfold mbind, OrcaClient.M_bind.
  rewrite (OrcaClientProps.getPoolData_miss env a w Hpool Hkey Hacc).
  fold d. cbv beta iota.
  match goal with
  | |- context [OrcaClient.getPriceData env a ?x] =>
      rewrite (OrcaClientProps.getPriceData_miss env a x
                 {| OrcaClient.data := d;
                    OrcaClient.stamp := OrcaClient.now w |})
  end.
  2: exact Hprice.
  2: apply lookup_insert_eq.
  2: cbn; unfold OrcaClient.CACHE_TTL; lia.
  cbn [OrcaClient.data OrcaClient.draws OrcaClient.now
       OrcaClient.poolStore OrcaClient.priceStore OrcaClient.rpcLog].
  fold pr. cbv beta iota.
  unfold aggregatePoolData, OrcaClient.calculateOptimalRange,
    mbind, OrcaClient.M_bind. fold a.
  match goal with
  | |- context [OrcaClient.getPriceData env a ?x] =>
      rewrite (OrcaClientProps.getPriceData_fresh env a x
                 {| OrcaClient.data := OrcaClient.jsonPriceData pr;
                    OrcaClient.stamp := OrcaClient.now w |})
  end.
  2: apply lookup_insert_eq.
  2: cbn; unfold OrcaClient.PRICE_CACHE_TTL; lia.
  reflexivity.
Qed.

(** The pools SOL_USDC and EURC_USDC as [getPoolsData] resolves them on
    the sample data source, from an empty cache. *)
Lemma getPoolsData_sol_eurc :
  exists (sol eurc : AggregatedPoolData) (w' : World),
    getPoolsData Samples.env0 ["SOL_USDC"; "EURC_USDC"] Samples.w0
    = ([sol; eurc], w')
    /\ sol = aggregated "SOL_USDC" Pools.SOL_USDC
               (OrcaClient.fetchPoolDataFromAPI (Pools.address Pools.SOL_USDC))
               (OrcaClient.mockPriceData (Pools.address Pools.SOL_USDC)
                  (OrcaClient.fetchPoolDataFromAPI
                     (Pools.address Pools.SOL_USDC)) (Num 0.5) 0)
               (OrcaClient.optimalRangeOf
                  (OrcaClient.jsonPriceData
                     (OrcaClient.mockPriceData (Pools.address Pools.SOL_USDC)
                        (OrcaClient.fetchPoolDataFromAPI
                           (Pools.address Pools.SOL_USDC)) (Num 0.5) 0))
                  high)
    /\ eurc = aggregated "EURC_USDC" Pools.EURC_USDC
                (OrcaClient.fetchPoolDataFromAPI
                   (Pools.address Pools.EURC_USDC))
                (OrcaClient.mockPriceData (Pools.address Pools.EURC_USDC)
                   (OrcaClient.fetchPoolDataFromAPI
                      (Pools.address Pools.EURC_USDC)) (Num 0.5) 0)
                (OrcaClient.optimalRangeOf
                   (OrcaClient.jsonPriceData
                      (OrcaClient.mockPriceData
                         (Pools.address Pools.EURC_USDC)
                         (OrcaClient.fetchPoolDataFromAPI
                            (Pools.address Pools.EURC_USDC)) (Num 0.5) 0))
                   low).
Proof.
  do 3 eexists. split; [| split; reflexivity].
  cbn [getPoolsData]. unfold mbind, OrcaClient.M_bind.
  rewrite (fetchOne_miss Samples.env0 "SOL_USDC" Pools.SOL_USDC Samples.w0)
    by (reflexivity || apply lookup_empty).
  cbv beta iota.
  match goal with
  | |- context [fetchOne Samples.env0 "EURC_USDC" ?x] =>
      rewrite (fetchOne_miss Samples.env0 "EURC_USDC" Pools.EURC_USDC x)
  end.
  - reflexivity.
  - reflexivity.
  - reflexivity.
  - reflexivity.
  - cbn [OrcaClient.poolStore]. rewrite lookup_insert_ne.
    + apply lookup_empty.
    + apply String.eqb_neq. reflexivity.
  - cbn [OrcaClient.priceStore]. rewrite lookup_insert_ne.
    + apply lookup_empty.
    + apply String.eqb_neq. reflexivity.
Qed.

(** ** C1: the weights at a division by zero *)

(** The low risk tolerance on two pools, a bluechip and the hedge pair, on
    a calm day.  The bluechip's base weight is [0.30 / (2 - 2)], which is
    [Infinity]; so is the total, and the normalized weights are [NaN] and
    [0]. *)
Lemma low_risk_bluechip_and_hedge (p q : AggregatedPoolData) :
  poolId p = "SOL_USDC" -> hedgeType p = Pools.bluechip ->
  poolId q = "EURC_USDC" -> hedgeType q = Pools.hedge ->
  gt (avgVolatility [p; q]) (Num 5) = false ->
  adjustWeightsForRiskTolerance [p; q] low
    = [("SOL_USDC", PInf); ("EURC_USDC", Num (0.35 / 2))]
  /\ finalWeights [p; q] low = [("SOL_USDC", NaN); ("EURC_USDC", Num 0)].
Proof.
  intros Hp Hpt Hq Hqt Hcalm.
  assert (H1 : adjustWeightsForRiskTolerance [p; q] low
               = [("SOL_USDC", PInf); ("EURC_USDC", Num (0.35 / 2))]).
  { unfold adjustWeightsForRiskTolerance, of_nat. cbn [fold_left length].
    rewrite Hp, Hpt, Hq, Hqt. js_eval. reflexivity. }
  split; [exact H1 |].
  unfold finalWeights, applyHedgeStrategy, hedgeAdjusted.
  rewrite Hcalm, H1. unfold normalize. js_eval. reflexivity.
Qed.

(** C1 at a failing input.  [generateRecommendations(10000, 1,
    ['SOL_USDC', 'EURC_USDC'], 'low')] on a data source that answers every
    request: both pools resolve, the weights after normalization are [NaN]
    and [0], each pool is allocated the weight [NaN || 0 = 0] and [0 || 0
    = 0], and the recommendation returned allocates nothing: the weights
    sum to 0, not 1, and the amounts to 0, not the 10000 invested. *)
Theorem low_risk_two_pools_allocate_nothing :
  exists (p : PortfolioRecommendation) (w' : World),
    generateRecommendations Samples.env0 (Num 10000) (Num 1)
      ["SOL_USDC"; "EURC_USDC"] low Samples.w0
    = (Resolved p, w')
    /\ totalInvestment p = Num 10000
    /\ List.map poolId (pools p) = ["SOL_USDC"; "EURC_USDC"]
    /\ List.map allocationSuggestion (pools p)
       = [ Some {| amount := Num 0; percentage := Num 0 |};
           Some {| amount := Num 0; percentage := Num 0 |} ]
    /\ Spec.sum (List.map Spec.weightOf (pools p)) = Num 0
    /\ Spec.sum (List.map Spec.amountOf (pools p)) = Num 0
    /\ expectedDailyYield p = Num 0.
Proof.
  rewrite generateRecommendations_unfold.
  destruct getPoolsData_sol_eurc as (sol & eurc & w' & -> & Hsol & Heurc).
  assert (Hcalm : gt (avgVolatility [sol; eurc]) (Num 5) = false).
  { rewrite Hsol, Heurc. unfold avgVolatility, of_nat, aggregated.
    unfold OrcaClient.mockPriceData. js_eval. reflexivity. }
  destruct (low_risk_bluechip_and_hedge sol eurc) as [_ Hw];
    [now rewrite Hsol | now rewrite Hsol | now rewrite Heurc
     | now rewrite Heurc | exact Hcalm |].
  assert (Hids : poolId sol = "SOL_USDC" /\ poolId eurc = "EURC_USDC")
    by (now rewrite Hsol, Heurc).
  destruct Hids as [Hs He].
  assert (Hapy : apy sol = Num 12.4 /\ apy eurc = Num 4.2)
    by (now rewrite Hsol, Heurc).
  destruct Hapy as [Hys Hye].
  clear Hsol Heurc.
  do 2 eexists. split; [reflexivity |].
  cbn [totalInvestment pools expectedDailyYield].
  unfold calculateExpectedDailyYield, calculateOptimalAllocations.
  rewrite Hw. cbn [List.map]. rewrite Hs, He.
  unfold Spec.sum, Spec.weightOf, Spec.amountOf.
  cbn [List.map fold_right fold_left allocationSuggestion withAllocation
       poolId amount percentage allocationAmount apy].
  rewrite ?Hs, ?He, Hys, Hye.
  repeat split; js_eval; js_done.
Qed.

(** ** C3: the hedge adjustment *)

(** The loop of [boostEurc] leaves the hedge pair's key, and the keys of
    no pool, as they are. *)
Lemma reduce_others_frame (reduction : number)
    (pools : list AggregatedPoolData) (acc : object number) (k : string) :
  k = "EURC_USDC" \/ ~ In k (List.map poolId pools) ->
  get (fold_left (fun weights pool =>
         if negb (String.eqb (poolId pool) "EURC_USDC")
         then set weights (poolId pool)
                  (max (sub (get_or weights (poolId pool) (Num 0)) reduction)
                       (Num 0.05))
         else weights) pools acc) k
  = get acc k.
Proof.
  revert acc. induction pools as [| p pools IH]; intros acc Hk; cbn.
  - reflexivity.
  - rewrite IH.
    + destruct (String.eqb_spec (poolId p) "EURC_USDC") as [He | Hne]; cbn.
      * reflexivity.
      * apply get_set_ne. intros E. destruct Hk as [-> | Hk].
        -- now apply Hne.
        -- apply Hk. cbn. now left.
    + destruct Hk as [-> | Hk]; [now left | right].
      intros Hin. apply Hk. cbn. now right.
Qed.

(** Every other pool's key holds its weight less the reduction, floored. *)
Lemma reduce_others_get (reduction : number)
    (pools : list AggregatedPoolData) (acc : object number) (k : string) :
  List.NoDup (List.map poolId pools) ->
  In k (List.map poolId pools) -> k <> "EURC_USDC" ->
  get (fold_left (fun weights pool =>
         if negb (String.eqb (poolId pool) "EURC_USDC")
         then set weights (poolId pool)
                  (max (sub (get_or weights (poolId pool) (Num 0)) reduction)
                       (Num 0.05))
         else weights) pools acc) k
  = Some (max (sub (get_or acc k (Num 0)) reduction) (Num 0.05)).
Proof.
  revert acc. induction pools as [| p pools IH]; intros acc Hnd Hin Hk.
  - destruct Hin.
  - cbn [List.map] in Hnd. apply List.NoDup_cons_iff in Hnd as [Hp Hnd].
    cbn [fold_left].
    destruct Hin as [<- | Hin].
    + destruct (String.eqb_spec (poolId p) "EURC_USDC") as [He | _];
        [contradiction |]. cbn [negb].
      rewrite reduce_others_frame by now right.
      apply get_set_eq.
    + rewrite (IH _ Hnd Hin Hk). do 3 f_equal.
      destruct (String.eqb_spec (poolId p) "EURC_USDC") as [He | Hne]; cbn.
      * reflexivity.
      * apply get_or_set_ne. intros E. apply Hp. now rewrite E.
Qed.

Lemma find_eurc (pools : list AggregatedPoolData) :
  (exists p, List.find (fun p => String.eqb (poolId p) "EURC_USDC") pools
             = Some p)
  <-> In "EURC_USDC" (List.map poolId pools).
Proof.
  induction pools as [| q pools IH]; cbn.
  - split; [intros [p Hp]; discriminate | intros []].
  - destruct (String.eqb_spec (poolId q) "EURC_USDC") as [He | Hne].
    + split; [intros _; now left | intros _; now exists q].
    + rewrite IH. split; [intros H; now right | intros [H | H]; easy].
Qed.

(** C3, as the code has it.  For pools with distinct ids: the weights are
    left as they are unless the average absolute 24h change exceeds 5 and
    the hedge pair EURC_USDC is among the pools.  When both hold, the
    hedge pair's weight becomes [min(w + 0.10, 0.40)], which never exceeds
    0.40, and every other pool's weight becomes
    [max(w - 0.10 / (n - 1), 0.05)], which never falls below 0.05 (a
    missing, zero or [NaN] weight [w] counting as 0). *)
Theorem hedge_adjustment_when_pair_present
    (pools : list AggregatedPoolData) (weights : object number) :
  List.NoDup (List.map poolId pools) ->
  let adjusted := hedgeAdjusted pools weights in
  let reduction :=
    div (Num 0.10) (sub (of_nat (length pools)) (Num 1)) in
  (gt (avgVolatility pools) (Num 5) = false
   \/ ~ In "EURC_USDC" (List.map poolId pools) ->
   adjusted = weights)
  /\ (gt (avgVolatility pools) (Num 5) = true ->
      In "EURC_USDC" (List.map poolId pools) ->
      let eurc :=
        min (add (get_or weights "EURC_USDC" (Num 0)) (Num 0.10))
            (Num 0.40) in
      get adjusted "EURC_USDC" = Some eurc
      /\ gt eurc (Num 0.40) = false
      /\ forall k : string,
           In k (List.map poolId pools) -> k <> "EURC_USDC" ->
           let reduced :=
             max (sub (get_or weights k (Num 0)) reduction) (Num 0.05) in
           get adjusted k = Some reduced
           /\ lt reduced (Num 0.05) = false).
Proof.
  intros Hnd adjusted reduction. subst adjusted. unfold hedgeAdjusted.
  split.
  - intros [Hcalm | Habsent].
    + now rewrite Hcalm.
    + destruct (gt _ _); [| reflexivity].
      destruct (List.find _ pools) as [p |] eqn:Hfind; [| reflexivity].
      exfalso. apply Habsent. apply find_eurc. now exists p.
  - intros Hvol Hin. rewrite Hvol.
    apply find_eurc in Hin as [p ->].
    unfold boostEurc. fold reduction.
    split; [| split].
    + rewrite reduce_others_frame by now left. apply get_set_eq.
    + apply min_not_above.
    + intros k Hk Hne. split; [| apply max_not_below].
      rewrite (reduce_others_get _ _ _ _ Hnd Hk Hne).
      do 3 f_equal. apply get_or_set_ne. congruence.
Qed.

Lemma volatileFive_ids_distinct :
  List.NoDup (List.map poolId Samples.volatileFive).
Proof.
  repeat (constructor; [cbn; intuition discriminate |]). constructor.
Defined.

Lemma volatileFive_is_volatile :
  gt (avgVolatility Samples.volatileFive) (Num 5) = true.
Proof.
  unfold avgVolatility, Samples.volatileFive, of_nat. js_eval. reflexivity.
Defined.

(** The theorem on the five pools of the registry, on a day when their
    average absolute change is 6.6, with the balanced base weights. *)
Lemma hedge_adjustment_witness :
  let w := adjustWeightsForRiskTolerance Samples.volatileFive medium in
  let adjusted := hedgeAdjusted Samples.volatileFive w in
  let reduction := div (Num 0.10) (sub (of_nat 5) (Num 1)) in
  get adjusted "EURC_USDC"
    = Some (min (add (get_or w "EURC_USDC" (Num 0)) (Num 0.10)) (Num 0.40))
  /\ get adjusted "SOL_USDC"
     = Some (max (sub (get_or w "SOL_USDC" (Num 0)) reduction) (Num 0.05)).
Proof.
  intros w adjusted reduction.
  destruct (hedge_adjustment_when_pair_present Samples.volatileFive w
              volatileFive_ids_distinct) as [_ H].
  assert (Hin : In "EURC_USDC" (List.map poolId Samples.volatileFive))
    by (cbn; tauto).
  destruct (H volatileFive_is_volatile Hin) as (He & _ & Hothers).
  split; [exact He |].
  apply Hothers; [cbn; tauto | discriminate].
Defined.

(** The weights of that day, in numbers: EURC_USDC goes from 0.20 to 0.30
    and each other pool gives up 0.025. *)
Lemma volatileFive_weights :
  hedgeAdjusted Samples.volatileFive
    (adjustWeightsForRiskTolerance Samples.volatileFive medium)
  = [ ("SOL_USDC", Num 0.225); ("CBBTC_USDC", Num 0.175);
      ("EURC_USDC", Num 0.30); ("USDT_USDC", Num 0.125);
      ("WETH_USDC", Num 0.175) ].
Proof.
  unfold hedgeAdjusted. rewrite volatileFive_is_volatile.
  unfold adjustWeightsForRiskTolerance, boostEurc, Samples.volatileFive,
    of_nat.
  js_eval. js_done.
Qed.

(** C3 as the specification words it fails.  SOL_USDC and CBBTC_USDC move
    by 10 percent on average, above the threshold of 5, and their weights
    are not adjusted: SOL_USDC keeps 0.25 where the reduction by
    [0.10 / (2 - 1)] would leave 0.15.  And when SOL_USDC and the hedge
    pair move by 10 percent, the hedge pair is boosted to 0.30, under the
    cap, but the weight it is allocated, after normalization, is 2/3. *)
Lemma hedge_not_applied_without_hedge_pair :
  let w := adjustWeightsForRiskTolerance Samples.volatileBluechips medium in
  (gt (avgVolatility Samples.volatileBluechips) (Num 5) = true
   /\ hedgeAdjusted Samples.volatileBluechips w = w
   /\ get (hedgeAdjusted Samples.volatileBluechips w) "SOL_USDC"
      = Some (Num 0.25)
   /\ boostEurc Samples.volatileBluechips w
      = [ ("SOL_USDC", Num 0.15); ("CBBTC_USDC", Num 0.10);
          ("EURC_USDC", Num 0.10) ])
  /\ (hedgeAdjusted Samples.volatileSolAndEurc
        (adjustWeightsForRiskTolerance Samples.volatileSolAndEurc medium)
      = [ ("SOL_USDC", Num 0.15); ("EURC_USDC", Num 0.30) ]
      /\ finalWeights Samples.volatileSolAndEurc medium
         = [ ("SOL_USDC", Num (1 / 3)); ("EURC_USDC", Num (2 / 3)) ]
      /\ gt (get_or (finalWeights Samples.volatileSolAndEurc medium)
                    "EURC_USDC" (Num 0)) (Num 0.40) = true).
Proof.
  assert (Hw : adjustWeightsForRiskTolerance Samples.volatileBluechips medium
               = [ ("SOL_USDC", Num 0.25); ("CBBTC_USDC", Num 0.20) ]).
  { unfold adjustWeightsForRiskTolerance, Samples.volatileBluechips.
    js_eval. reflexivity. }
  assert (Hv : gt (avgVolatility Samples.volatileBluechips) (Num 5) = true).
  { unfold avgVolatility, Samples.volatileBluechips, of_nat.
    js_eval. reflexivity. }
  assert (Hh : hedgeAdjusted Samples.volatileSolAndEurc
                 (adjustWeightsForRiskTolerance Samples.volatileSolAndEurc
                    medium)
               = [ ("SOL_USDC", Num 0.15); ("EURC_USDC", Num 0.30) ]).
  { unfold hedgeAdjusted.
    assert (gt (avgVolatility Samples.volatileSolAndEurc) (Num 5) = true)
      as -> by (unfold avgVolatility, Samples.volatileSolAndEurc, of_nat;
                js_eval; reflexivity).
    unfold adjustWeightsForRiskTolerance, boostEurc,
      Samples.volatileSolAndEurc, of_nat.
    js_eval. js_done. }
  assert (Hf : finalWeights Samples.volatileSolAndEurc medium
               = [ ("SOL_USDC", Num (1 / 3)); ("EURC_USDC", Num (2 / 3)) ]).
  { unfold finalWeights, applyHedgeStrategy. rewrite Hh.
    unfold normalize. js_eval. js_done. }
  cbv zeta. rewrite Hw, Hf. unfold hedgeAdjusted at 1 2. rewrite Hv.
  split; [| split; [exact Hh | split; [reflexivity |]]].
  - repeat split.
    unfold boostEurc, Samples.volatileBluechips, of_nat. js_eval. js_done.
  - js_eval. reflexivity.
Qed.

(** ** C2: what [generateRecommendations] does with bad input *)

(** An empty list of pools is allocated to an empty portfolio. *)
Lemma calculateOptimalAllocations_nil (T : number) (risk : RiskLevel) :
  calculateOptimalAllocations [] T risk = [].
Proof. reflexivity. Qed.

(** C2, as the code has it.  [generateRecommendations] checks nothing and
    never rejects: whatever the investment (zero and negative included)
    and the selection (empty included), it settles with a recommendation
    for that investment whose pools are the resolved pools, one for one
    and in order, each with its allocation.  When no pool resolves, the
    recommendation is the empty portfolio: no pools, a yield of 0, the
    risk [low], a hedge ratio and a correlation score of 0. *)
Theorem generateRecommendations_never_rejects (env : Env) (T fees : number)
    (ids : list string) (risk : RiskLevel) (w : World) :
  let '(resolved, w') := getPoolsData env ids w in
  exists p : PortfolioRecommendation,
    generateRecommendations env T fees ids risk w = (Resolved p, w')
    /\ totalInvestment p = T
    /\ pools p = calculateOptimalAllocations resolved T risk
    /\ List.map poolId (pools p) = List.map poolId resolved
    /\ Forall (fun pool => allocationSuggestion pool <> None) (pools p)
    /\ (resolved = [] ->
        pools p = [] /\ expectedDailyYield p = Num 0
        /\ portfolioRisk p = low /\ hedgeRatio p = Num 0
        /\ correlationScore p = Num 0).
Proof.
  rewrite generateRecommendations_unfold.
  destruct (getPoolsData env ids w) as [resolved w'].
  eexists. split; [reflexivity |]. cbn [totalInvestment pools].
  split; [reflexivity |]. split; [reflexivity |].
  split; [apply calculateOptimalAllocations_ids |]. split.
  - apply List.Forall_forall. intros pool Hin.
    unfold calculateOptimalAllocations in Hin.
    apply List.in_map_iff in Hin as (q & <- & _). discriminate.
  - intros ->. cbn. unfold lt, assessPortfolioRisk. cbn.
    repeat split.
    destruct (Rlt_dec 0 1.5) as [_ | H]; [reflexivity | lra].
Qed.

(** The theorem on a selection none of whose ids is in the registry. *)
Lemma generateRecommendations_never_rejects_witness :
  exists p : PortfolioRecommendation,
    generateRecommendations Samples.env0 (Num 10000) (Num 1)
      ["DOGE_USDC"] medium Samples.w0
    = (Resolved p, Samples.w0)
    /\ pools p = [] /\ expectedDailyYield p = Num 0
    /\ portfolioRisk p = low /\ hedgeRatio p = Num 0
    /\ correlationScore p = Num 0.
Proof.
  destruct (generateRecommendations_never_rejects Samples.env0 (Num 10000)
              (Num 1) ["DOGE_USDC"] medium Samples.w0)
    as (p & Hrun & _ & _ & _ & _ & Hempty).
  exists p. split; [exact Hrun | apply Hempty; reflexivity].
Defined.

(** C2 as the specification words it fails: a zero investment with an
    empty selection, a negative investment, and a selection of which no
    pool resolves are all answered with a recommendation, none with a
    failure. *)
Lemma generateRecommendations_accepts_bad_input :
  (exists p, generateRecommendations Samples.env0 (Num 0) (Num 1)
               [] medium Samples.w0 = (Resolved p, Samples.w0)
             /\ totalInvestment p = Num 0 /\ pools p = [])
  /\ (exists p w', generateRecommendations Samples.env0 (Num (-500)) (Num 1)
                     ["SOL_USDC"] medium Samples.w0 = (Resolved p, w')
                   /\ totalInvestment p = Num (-500))
  /\ (exists p, generateRecommendations Samples.env0 (Num 10000) (Num 1)
                  ["DOGE_USDC"] medium Samples.w0 = (Resolved p, Samples.w0)
                /\ pools p = []).
Proof.
  split; [| split].
  - rewrite generateRecommendations_unfold.
    change (getPoolsData Samples.env0 [] Samples.w0) with
      (@pair (list AggregatedPoolData) _ [] Samples.w0).
    eexists. split; [reflexivity |]. split; reflexivity.
  - rewrite generateRecommendations_unfold.
    destruct (getPoolsData _ _ _) as [resolved w'].
    eexists. exists w'. split; reflexivity.
  - rewrite generateRecommendations_unfold.
    change (getPoolsData Samples.env0 ["DOGE_USDC"] Samples.w0) with
      (@pair (list AggregatedPoolData) _ [] Samples.w0).
    eexists. split; reflexivity.
Qed.

(** The caller's guard: [fetchRecommendations] reports 'Invalid
    configuration', without calling, exactly when the investment is [0] or
    [NaN] or the selection is empty; a negative investment is passed on. *)
Theorem fetchRecommendations_guard (env : Env) (T fees : number)
    (ids : list string) (risk : RiskLevel) (w : World) :
  (truthy T = false \/ ids = [] ->
   UsePoolRecommendations.fetchRecommendations env T fees ids risk w
   = (UsePoolRecommendations.InvalidConfiguration, w))
  /\ (truthy T = true -> ids <> [] ->
      exists o w',
        UsePoolRecommendations.fetchRecommendations env T fees ids risk w
        = (UsePoolRecommendations.Called o, w')
        /\ generateRecommendations env T fees ids risk w = (o, w')).
Proof.
  unfold UsePoolRecommendations.fetchRecommendations. split.
  - intros [-> | ->]; [reflexivity |].
    now rewrite orb_true_r.
  - intros -> Hne. destruct ids as [| i ids]; [contradiction |].
    cbn [negb orb length Nat.eqb].
    unfold mbind, OrcaClient.M_bind at 1.
    destruct (generateRecommendations env T fees (i :: ids) risk w)
      as [o w'].
    exists o, w'. split; reflexivity.
Qed.

(** The guard on a zero investment, and on 10000 for a pool that is not in
    the registry. *)
Lemma fetchRecommendations_guard_witness :
  UsePoolRecommendations.fetchRecommendations Samples.env0 (Num 0) (Num 1)
    ["SOL_USDC"] medium Samples.w0
  = (UsePoolRecommendations.InvalidConfiguration, Samples.w0)
  /\ exists o w',
       UsePoolRecommendations.fetchRecommendations Samples.env0 (Num 10000)
         (Num 1) ["DOGE_USDC"] medium Samples.w0
       = (UsePoolRecommendations.Called o, w').
Proof.
  split.
  - apply (proj1 (fetchRecommendations_guard Samples.env0 (Num 0) (Num 1)
                    ["SOL_USDC"] medium Samples.w0)).
    left. unfold truthy. destruct (Req_dec_T 0 0); [reflexivity | lra].
  - destruct (proj2 (fetchRecommendations_guard Samples.env0 (Num 10000)
                       (Num 1) ["DOGE_USDC"] medium Samples.w0))
      as (o & w' & H & _).
    + unfold truthy. destruct (Req_dec_T 10000 0); [lra | reflexivity].
    + discriminate.
    + now exists o, w'.
Defined.

(** ** Where the weights do sum to 1 *)

Lemma set_keys_in {A} (o : object A) (k : string) (v : A) :
  In k (keys o) -> keys (set o k v) = keys o.
Proof.
  induction o as [| [k' v'] o IH]; cbn; [intros [] |].
  destruct (String.eqb_spec k' k) as [-> | Hne]; cbn; [reflexivity |].
  intros [E | Hin]; [contradiction |]. f_equal. now apply IH.
Qed.

Lemma set_keys_notin {A} (o : object A) (k : string) (v : A) :
  ~ In k (keys o) -> keys (set o k v) = (keys o ++ [k])%list.
Proof.
  induction o as [| [k' v'] o IH]; cbn; [reflexivity |].
  intros Hn. destruct (String.eqb_spec k' k) as [-> | Hne]; cbn.
  - exfalso. apply Hn. now left.
  - f_equal. apply IH. intros Hin. apply Hn. now right.
Qed.

Lemma set_values_Forall (Q : number -> Prop) (o : object number)
    (k : string) (v : number) :
  Forall Q (values o) -> Q v -> Forall Q (values (set o k v)).
Proof.
  intros Ho Hv. induction o as [| [k' v'] o IH]; cbn.
  - repeat constructor. exact Hv.
  - cbn in Ho. apply List.Forall_cons_iff in Ho as [Hv' Ho].
    destruct (String.eqb_spec k' k); cbn; constructor; auto.
Qed.

(** A loop that assigns one weight per pool, the pools having distinct
    ids none of which is a key yet, appends the ids in order. *)
Lemma fold_set_shape (Q : number -> Prop)
    (step : object number -> AggregatedPoolData -> object number) :
  (forall w p, exists v, step w p = set w (poolId p) v /\ Q v) ->
  forall (pools : list AggregatedPoolData) (w0 : object number),
    List.NoDup (keys w0 ++ List.map poolId pools)%list ->
    Forall Q (values w0) ->
    keys (fold_left step pools w0) = (keys w0 ++ List.map poolId pools)%list
    /\ Forall Q (values (fold_left step pools w0)).
Proof.
  intros Hstep pools. induction pools as [| p pools IH]; intros w0 Hnd HQ.
  - cbn. now rewrite app_nil_r.
  - cbn [fold_left List.map].
    destruct (Hstep w0 p) as (v & -> & Hv).
    assert (Hfresh : ~ In (poolId p) (keys w0)).
    { intros Hin. apply List.NoDup_remove_2 in Hnd. apply Hnd.
      apply List.in_or_app. now left. }
    destruct (IH (set w0 (poolId p) v)) as [Hk HF].
    + rewrite set_keys_notin by exact Hfresh.
      rewrite <- app_assoc. exact Hnd.
    + now apply set_values_Forall.
    + split; [| exact HF]. rewrite Hk, set_keys_notin by exact Hfresh.
      now rewrite <- app_assoc.
Qed.

(** A loop that only reassigns keys that exist keeps the keys. *)
Lemma fold_set_existing (Q : number -> Prop)
    (step : object number -> AggregatedPoolData -> object number)
    (ids : list string) :
  (forall w p, keys w = ids -> Forall Q (values w) ->
               In (poolId p) ids ->
               keys (step w p) = ids /\ Forall Q (values (step w p))) ->
  forall (pools : list AggregatedPoolData) (w0 : object number),
    keys w0 = ids -> Forall Q (values w0) ->
    (forall p, In p pools -> In (poolId p) ids) ->
    keys (fold_left step pools w0) = ids
    /\ Forall Q (values (fold_left step pools w0)).
Proof.
  intros Hstep pools. induction pools as [| p pools IH];
    intros w0 Hk HQ Hin; cbn [fold_left]; [now split |].
  destruct (Hstep w0 p Hk HQ) as [Hk' HQ']; [apply Hin; now left |].
  apply IH; [assumption | assumption |].
  intros q Hq. apply Hin. now right.
Qed.

Lemma get_app_notin {A} (pre o : object A) (k : string) :
  ~ In k (keys pre) -> get (pre ++ o)%list k = get o k.
Proof.
  induction pre as [| [k' v'] pre IH]; cbn; [reflexivity |].
  intros Hn. destruct (String.eqb_spec k' k) as [-> | Hne].
  - exfalso. apply Hn. now left.
  - apply IH. intros Hin. apply Hn. now right.
Qed.

Lemma set_app_notin {A} (pre o : object A) (k : string) (v : A) :
  ~ In k (keys pre) -> set (pre ++ o)%list k v = (pre ++ set o k v)%list.
Proof.
  induction pre as [| [k' v'] pre IH]; cbn; [reflexivity |].
  intros Hn. destruct (String.eqb_spec k' k) as [-> | Hne].
  - exfalso. apply Hn. now left.
  - f_equal. apply IH. intros Hin. apply Hn. now right.
Qed.

(** With distinct keys, the loop of [normalize] divides every weight by
    the total, in place. *)
Lemma normalize_fold (total : number) (suf pre : object number) :
  List.NoDup (keys (pre ++ suf)%list) ->
  fold_left (fun weights poolId =>
    set weights poolId
        (div (match get weights poolId with Some w => w | None => NaN end)
             total))
    (keys suf) (pre ++ suf)%list
  = (pre ++ List.map (fun kv => (fst kv, div (snd kv) total)) suf)%list.
Proof.
  revert pre. induction suf as [| [k v] suf IH]; intros pre Hnd;
    [reflexivity |].
  cbn [keys List.map fst fold_left].
  assert (Hfresh : ~ In k (keys pre)).
  { unfold keys in *. rewrite List.map_app in Hnd. cbn in Hnd.
    apply List.NoDup_remove_2 in Hnd. intros Hin. apply Hnd.
    apply List.in_or_app. now left. }
  rewrite get_app_notin, set_app_notin by exact Hfresh.
  cbn [get set]. rewrite String.eqb_refl.
  change (pre ++ (k, div v total) :: suf)%list
    with (pre ++ [(k, div v total)] ++ suf)%list.
  rewrite app_assoc. fold (keys suf). rewrite IH.
  - rewrite <- app_assoc. reflexivity.
  - unfold keys in *. rewrite !List.map_app in *. cbn in *.
    rewrite <- app_assoc. exact Hnd.
Qed.

Lemma normalize_map (weights : object number) :
  List.NoDup (keys weights) ->
  normalize weights
  = List.map (fun kv => (fst kv, div (snd kv) (Spec.sum (values weights))))
             weights.
Proof.
  intros Hnd. unfold normalize.
  change (fold_left (fun sum w => add sum w) (values weights) (Num 0))
    with (fold_left add (values weights) (Num 0)).
  rewrite (fold_add (values weights) (Num 0)), add_0_l.
  apply (normalize_fold _ weights []). exact Hnd.
Qed.

(** Reading a record at its keys, in order, gives its values. *)
Lemma get_keys_values {A} (o : object A) :
  List.NoDup (keys o) -> List.map (get o) (keys o) = List.map Some (values o).
Proof.
  induction o as [| [k v] o IH]; [reflexivity |].
  cbn [keys values List.map fst snd]. fold (keys o). fold (values o).
  intros Hnd. apply List.NoDup_cons_iff in Hnd as [Hk Hnd].
  cbn [get]. rewrite String.eqb_refl. f_equal. rewrite <- IH by exact Hnd.
  apply List.map_ext_in. intros k' Hin. cbn [get].
  destruct (String.eqb_spec k k') as [-> | _]; [contradiction | reflexivity].
Qed.

(** Sums of finite numbers are sums of reals. *)
Lemma sum_Num (l : list R) : Spec.sum (List.map Num l) = Num (Spec.rsum l).
Proof.
  unfold Spec.sum, Spec.rsum.
  induction l as [| x l IH]; cbn; [reflexivity | now rewrite IH].
Qed.

Lemma rsum_scaled (c : R) (l : list R) :
  Spec.rsum (List.map (fun x => c * x) l) = c * Spec.rsum l.
Proof.
  unfold Spec.rsum. induction l as [| x l IH]; cbn; [lra | rewrite IH; lra].
Qed.

Lemma or_else_zero (x : R) : or_else (Num x) (Num 0) = Num x.
Proof.
  unfold or_else, truthy. destruct (Req_dec_T x 0) as [-> | _]; reflexivity.
Qed.

Lemma get_or_keys_values (o : object number) (d : number) :
  List.NoDup (keys o) ->
  List.map (fun k => get_or o k d) (keys o)
  = List.map (fun v => or_else v d) (values o).
Proof.
  intros Hnd.
  assert (E : List.map (fun k => get_or o k d) (keys o)
              = List.map (fun r : option number =>
                            match r with Some v => or_else v d | None => d end)
                         (List.map (get o) (keys o)))
    by now rewrite List.map_map.
  rewrite E, get_keys_values by exact Hnd. now rewrite List.map_map.
Qed.

(** The base weights have the pools' ids as keys, in order. *)
Lemma adjustWeights_keys (pools : list AggregatedPoolData)
    (risk : RiskLevel) :
  List.NoDup (List.map poolId pools) ->
  keys (adjustWeightsForRiskTolerance pools risk) = List.map poolId pools.
Proof.
  intros Hnd. unfold adjustWeightsForRiskTolerance.
  destruct risk;
    (eapply (fold_set_shape (fun _ => True)); [| exact Hnd | constructor]);
    intros w p.
  - destruct (_ || _); eexists; split; reflexivity || exact I.
  - eexists; split; reflexivity || exact I.
  - destruct (RiskLevel_eqb _ _); [| destruct (HedgeType_eqb _ _)];
      eexists; split; reflexivity || exact I.
Qed.

(** The hedge adjustment keeps the keys, when they are the pools' ids. *)
Lemma hedgeAdjusted_keys (pools : list AggregatedPoolData)
    (weights : object number) :
  keys weights = List.map poolId pools ->
  keys (hedgeAdjusted pools weights) = List.map poolId pools.
Proof.
  intros Hk. unfold hedgeAdjusted.
  destruct (gt _ _); [| exact Hk].
  destruct (List.find _ pools) as [p |] eqn:Hfind; [| exact Hk].
  assert (Hin : In "EURC_USDC" (List.map poolId pools))
    by (apply find_eurc; now exists p).
  unfold boostEurc.
  eapply (fold_set_existing (fun _ => True)).
  - intros w q Hw _ Hq. split; [| apply Forall_forall; now intros].
    destruct (negb _); [| exact Hw].
    rewrite set_keys_in; [exact Hw | now rewrite Hw].
  - rewrite set_keys_in; [exact Hk | now rewrite Hk].
  - apply Forall_forall. now intros.
  - intros q Hq. now apply List.in_map.
Qed.

(** Normalization at work: finite weights with a total that is not zero
    are divided by it, and each pool reads its own. *)
Lemma normalized_sum
    (pools : list AggregatedPoolData) (T : number) (risk : RiskLevel)
    (vs : list R) :
  List.NoDup (List.map poolId pools) ->
  values (hedgeAdjusted pools (adjustWeightsForRiskTolerance pools risk))
    = List.map Num vs ->
  Spec.rsum vs <> 0 ->
  let allocated := calculateOptimalAllocations pools T risk in
  Spec.sum (List.map Spec.weightOf allocated) = Num 1
  /\ forall t : R, T = Num t ->
       Spec.sum (List.map Spec.amountOf allocated) = Num t.
Proof.
  intros Hnd Hvs Htotal allocated. subst allocated.
  set (w := hedgeAdjusted pools (adjustWeightsForRiskTolerance pools risk))
    in *.
  assert (Hk : keys w = List.map poolId pools)
    by (apply hedgeAdjusted_keys, adjustWeights_keys, Hnd).
  assert (Hndw : List.NoDup (keys w)) by now rewrite Hk.
  set (tot := Spec.rsum vs) in *.
  assert (Hfinal : finalWeights pools risk
                   = List.map (fun kv => (fst kv, div (snd kv) (Num tot))) w).
  { unfold finalWeights, applyHedgeStrategy. fold w.
    rewrite normalize_map by exact Hndw. now rewrite Hvs, sum_Num. }
  assert (Hkeys : keys (finalWeights pools risk) = List.map poolId pools).
  { rewrite Hfinal. unfold keys. rewrite List.map_map. exact Hk. }
  assert (Hvals : values (finalWeights pools risk)
                  = List.map (fun x => Num (/ tot * x)) vs).
  { rewrite Hfinal. unfold values at 1. rewrite List.map_map.
    cbn [snd].
    assert (E : List.map (fun kv : string * number => div (snd kv) (Num tot)) w
                = List.map (fun v => div v (Num tot)) (values w))
      by (unfold values; now rewrite List.map_map).
    rewrite E, Hvs, List.map_map.
    apply List.map_ext. intros x. rewrite div_num by exact Htotal.
    f_equal. field. exact Htotal. }
  assert (Hweights :
            List.map (fun pool => get_or (finalWeights pools risk)
                                         (poolId pool) (Num 0)) pools
            = List.map (fun x => Num (/ tot * x)) vs).
  { assert (E : List.map (fun pool => get_or (finalWeights pools risk)
                                                (poolId pool) (Num 0)) pools
                = List.map (fun k => get_or (finalWeights pools risk) k
                                            (Num 0))
                           (keys (finalWeights pools risk)))
      by (rewrite Hkeys; now rewrite List.map_map).
    rewrite E, get_or_keys_values by now rewrite Hkeys.
    rewrite Hvals, List.map_map. apply List.map_ext. intros x.
    apply or_else_zero. }
  unfold calculateOptimalAllocations. rewrite !List.map_map.
  cbn [Spec.weightOf Spec.amountOf allocationSuggestion withAllocation
       amount percentage].
  split.
  - rewrite (List.map_ext _ (fun pool => get_or (finalWeights pools risk)
                                           (poolId pool) (Num 0)))
      by (intros; apply percent_roundtrip).
    rewrite Hweights.
    assert (E : List.map (fun x => Num (/ tot * x)) vs
                = List.map Num (List.map (fun x => / tot * x) vs))
      by now rewrite List.map_map.
    rewrite E, sum_Num, rsum_scaled. fold tot. f_equal. now apply Rinv_l.
  - intros t ->.
    assert (E : List.map (fun pool => mul (Num t)
                            (get_or (finalWeights pools risk) (poolId pool)
                                    (Num 0))) pools
                = List.map Num
                    (List.map (fun y => t * y)
                       (List.map (fun x => / tot * x) vs))).
    { rewrite !List.map_map.
      rewrite <- (List.map_map
                    (fun pool => get_or (finalWeights pools risk)
                                        (poolId pool) (Num 0))
                    (fun v => mul (Num t) v)).
      rewrite Hweights, List.map_map. reflexivity. }
    rewrite E, sum_Num, !rsum_scaled. fold tot. f_equal. field. exact Htotal.
Qed.

(** X2.  The weights sum to 1, and the amounts to the investment, whenever
    the weights before normalization are finite and their total is not
    zero (the pools having distinct ids). *)
Theorem weights_sum_to_one_when_total_is_finite
    (pools : list AggregatedPoolData) (T : number) (risk : RiskLevel)
    (vs : list R) :
  List.NoDup (List.map poolId pools) ->
  values (hedgeAdjusted pools (adjustWeightsForRiskTolerance pools risk))
    = List.map Num vs ->
  Spec.rsum vs <> 0 ->
  let allocated := calculateOptimalAllocations pools T risk in
  Spec.sum (List.map Spec.weightOf allocated) = Num 1
  /\ forall t : R, T = Num t ->
       Spec.sum (List.map Spec.amountOf allocated) = Num t.
Proof. apply normalized_sum. Qed.

(** The theorem on the five pools of the registry on a volatile day, with
    the low risk tolerance: the weights before normalization are 0.075,
    0.075, 0.275, 0.15 and 0.075. *)
Lemma weights_sum_to_one_when_total_is_finite_witness :
  let allocated :=
    calculateOptimalAllocations Samples.volatileFive (Num 10000) low in
  Spec.sum (List.map Spec.weightOf allocated) = Num 1
  /\ Spec.sum (List.map Spec.amountOf allocated) = Num 10000.
Proof.
  assert (Hvs : values (hedgeAdjusted Samples.volatileFive
                          (adjustWeightsForRiskTolerance Samples.volatileFive
                             low))
                = List.map Num [0.075; 0.075; 0.275; 0.15; 0.075]).
  { unfold hedgeAdjusted. rewrite volatileFive_is_volatile.
    unfold adjustWeightsForRiskTolerance, boostEurc, Samples.volatileFive,
      of_nat.
    js_eval. js_done. }
  destruct (weights_sum_to_one_when_total_is_finite Samples.volatileFive
              (Num 10000) low _ volatileFive_ids_distinct Hvs)
    as [Hw Ha]; [cbn; lra |].
  split; [exact Hw | now apply Ha].
Defined.

(** ** The balanced strategy *)

Lemma default_weight_positive (id : string) :
  Spec.positive (get_or Pools.DEFAULT_ALLOCATION_WEIGHTS id (Num 0.20)).
Proof.
  unfold get_or, Pools.DEFAULT_ALLOCATION_WEIGHTS. cbn [get].
  repeat (destruct (String.eqb _ id));
    unfold or_else, truthy;
    repeat match goal with
           | |- context [Req_dec_T ?a ?b] => destruct (Req_dec_T a b)
           end;
    eexists; (split; [reflexivity | lra]).
Qed.

Lemma get_in_values {A} (o : object A) (k : string) (v : A) :
  get o k = Some v -> In v (values o).
Proof.
  induction o as [| [k' v'] o IH]; cbn; [discriminate |].
  destruct (String.eqb k' k); [intros [= ->]; now left | right; auto].
Qed.

(** A weight read with [|| 0] from positive weights is a real that is not
    negative. *)
Lemma get_or_nonneg (o : object number) (k : string) :
  Forall Spec.positive (values o) ->
  exists x : R, get_or o k (Num 0) = Num x /\ 0 <= x.
Proof.
  intros Hpos. unfold get_or. destruct (get o k) as [v |] eqn:Hget.
  - apply get_in_values in Hget.
    apply (proj1 (List.Forall_forall _ _) Hpos) in Hget as (x & -> & Hx).
    exists x. split; [apply or_else_zero | lra].
  - exists 0. split; [reflexivity | lra].
Qed.

Lemma boosted_positive (x : R) :
  0 <= x -> Spec.positive (min (add (Num x) (Num 0.10)) (Num 0.40)).
Proof.
  intros Hx. cbn. eexists. split; [reflexivity |].
  unfold Rmin. destruct (Rle_dec _ _); lra.
Qed.

Lemma reduced_positive (x m : R) :
  Spec.positive (max (sub (Num x) (div (Num 0.10) (Num m))) (Num 0.05)).
Proof.
  unfold div.
  destruct (sgn_cases m) as [[_ ->] | [[_ ->] | [_ ->]]].
  - cbn. eexists. split; [reflexivity |].
    unfold Rmax. destruct (Rle_dec _ _); lra.
  - rewrite (sgn_pos 0.10) by lra. cbn. exists 0.05. split; [reflexivity | lra].
  - cbn. eexists. split; [reflexivity |].
    unfold Rmax. destruct (Rle_dec _ _); lra.
Qed.

(** The hedge adjustment keeps positive weights positive. *)
Lemma hedgeAdjusted_positive (pools : list AggregatedPoolData)
    (weights : object number) :
  keys weights = List.map poolId pools ->
  Forall Spec.positive (values weights) ->
  Forall Spec.positive (values (hedgeAdjusted pools weights)).
Proof.
  intros Hk Hpos. unfold hedgeAdjusted.
  destruct (gt _ _); [| exact Hpos].
  destruct (List.find _ pools) as [p |] eqn:Hfind; [| exact Hpos].
  assert (Hin : In "EURC_USDC" (List.map poolId pools))
    by (apply find_eurc; now exists p).
  unfold boostEurc, sub at 1, of_nat. cbn [neg add].
  eapply (fold_set_existing Spec.positive _ (List.map poolId pools)).
  - intros w q Hw Hq Hqin.
    destruct (negb _); [| now split].
    split; [rewrite set_keys_in; [exact Hw | now rewrite Hw] |].
    apply set_values_Forall; [exact Hq |].
    destruct (get_or_nonneg w (poolId q) Hq) as (x & -> & _).
    apply reduced_positive.
  - rewrite set_keys_in; [exact Hk | now rewrite Hk].
  - apply set_values_Forall; [exact Hpos |].
    destruct (get_or_nonneg weights "EURC_USDC" Hpos) as (x & -> & Hx).
    now apply boosted_positive.
  - intros q Hq. now apply List.in_map.
Qed.

Lemma positive_values (l : list number) :
  Forall Spec.positive l ->
  exists vs : list R, l = List.map Num vs /\ Forall (fun x => 0 < x) vs.
Proof.
  induction 1 as [| v l (x & -> & Hx) _ (vs & -> & Hvs)].
  - now exists [].
  - exists (x :: vs). split; [reflexivity | now constructor].
Qed.

Lemma rsum_positive (vs : list R) :
  vs <> [] -> Forall (fun x => 0 < x) vs -> 0 < Spec.rsum vs.
Proof.
  unfold Spec.rsum. intros Hne Hpos. destruct Hpos as [| x vs Hx Hvs];
    [contradiction |].
  clear Hne. cbn. revert x Hx.
  induction Hvs as [| y vs Hy Hvs IH]; intros x Hx; cbn; [lra |].
  specialize (IH y Hy). cbn in IH. lra.
Qed.

(** X1.  With the medium risk tolerance the weights of any non-empty list
    of pools with distinct ids sum to 1, volatile day or not, and the
    amounts sum to the investment. *)
Theorem balanced_weights_sum_to_one
    (pools : list AggregatedPoolData) (T : number) :
  pools <> [] ->
  List.NoDup (List.map poolId pools) ->
  let allocated := calculateOptimalAllocations pools T medium in
  Spec.sum (List.map Spec.weightOf allocated) = Num 1
  /\ forall t : R, T = Num t ->
       Spec.sum (List.map Spec.amountOf allocated) = Num t.
Proof.
  intros Hne Hnd.
  assert (Hbase : Forall Spec.positive
                    (values (adjustWeightsForRiskTolerance pools medium))).
  { unfold adjustWeightsForRiskTolerance.
    eapply (fold_set_shape Spec.positive); [| exact Hnd | constructor].
    intros w p. eexists. split; [reflexivity |].
    apply default_weight_positive. }
  pose proof (adjustWeights_keys pools medium Hnd) as Hk.
  pose proof (hedgeAdjusted_positive pools _ Hk Hbase) as Hpos.
  pose proof (hedgeAdjusted_keys pools _ Hk) as Hk'.
  destruct (positive_values _ Hpos) as (vs & Hvs & Hall).
  apply (normalized_sum pools T medium vs Hnd Hvs).
  assert (Hvne : vs <> []).
  { intros ->. apply Hne.
    apply (f_equal (@length _)) in Hvs. unfold values in Hvs.
    apply (f_equal (@length _)) in Hk'. unfold keys in Hk'.
    rewrite !List.length_map in *. cbn in Hvs.
    destruct pools; [reflexivity | cbn in *; lia]. }
  pose proof (rsum_positive vs Hvne Hall). lra.
Qed.

(** The theorem on the five pools of the registry on a volatile day. *)
Lemma balanced_weights_sum_to_one_witness :
  Spec.sum (List.map Spec.weightOf
              (calculateOptimalAllocations Samples.volatileFive (Num 10000)
                 medium))
  = Num 1
  /\ Spec.sum (List.map Spec.amountOf
                 (calculateOptimalAllocations Samples.volatileFive
                    (Num 10000) medium))
     = Num 10000.
Proof.
  destruct (balanced_weights_sum_to_one Samples.volatileFive (Num 10000))
    as [Hw Ha]; [discriminate | exact volatileFive_ids_distinct |].
  split; [exact Hw | now apply Ha].
Defined.

(** The balanced strategy on SOL_USDC and EURC_USDC with 10000 to
    invest: the default weights 0.25 and 0.20 become 5/9 and 4/9, the
    amounts 5555.56 and 4444.44. *)
Theorem balanced_sol_and_eurc :
  finalWeights Samples.calmSolAndEurc medium
  = [ ("SOL_USDC", Num (5 / 9)); ("EURC_USDC", Num (4 / 9)) ]
  /\ List.map allocationSuggestion
       (calculateOptimalAllocations Samples.calmSolAndEurc (Num 10000) medium)
     = [ Some {| amount := Num (50000 / 9); percentage := Num (500 / 9) |};
         Some {| amount := Num (40000 / 9); percentage := Num (400 / 9) |} ].
Proof.
  assert (Hf : finalWeights Samples.calmSolAndEurc medium
               = [ ("SOL_USDC", Num (5 / 9)); ("EURC_USDC", Num (4 / 9)) ]).
  { unfold finalWeights, applyHedgeStrategy, hedgeAdjusted.
    assert (gt (avgVolatility Samples.calmSolAndEurc) (Num 5) = false)
      as -> by (unfold avgVolatility, Samples.calmSolAndEurc, of_nat;
                js_eval; reflexivity).
    unfold adjustWeightsForRiskTolerance, normalize, Samples.calmSolAndEurc.
    js_eval. js_done. }
  split; [exact Hf |].
  unfold calculateOptimalAllocations. rewrite Hf.
  unfold Samples.calmSolAndEurc. js_eval. js_done.
Qed.

End AllocationProps.

(* ===================================================================== *)
(** * Properties of the price stream *)
(* ===================================================================== *)

Module PriceStreamProps.
Import JS JSFacts PriceWebSocketService.

#[local] Open Scope list_scope.

(** ** The reconnection delays *)

Lemma reconnectDelay_values :
  List.map reconnectDelay [1; 2; 3; 4; 5]%nat = Spec.backoff.
Proof. reflexivity. Qed.

(** Subscribing emits nothing and schedules nothing. *)
Lemma subscribeLoop_frame (ids : list string) (s : State) :
  emitted (subscribeLoop ids s) = emitted s
  /\ reconnects (subscribeLoop ids s) = reconnects s.
Proof.
  unfold subscribeLoop. revert s.
  induction ids as [| i ids IH]; intros s; cbn [fold_left];
    [now split |].
  destruct (IH (subscribeOne s i)) as [-> ->]. unfold subscribeOne.
  destruct (get Pools.SUPPORTED_POOLS i); [| now split].
  destruct (subscriptions s !! i); now split.
Qed.

(** ** The ticks of the simulation *)



End PriceStreamProps.

(* ===================================================================== *)
(** * Properties of the client beyond the specification *)
(* ===================================================================== *)

Module ClientProps.
Import JS JSFacts OrcaClient Notions.
#[local] Open Scope R_scope.

Lemma fetchPoolDataFromAPI_address (a : string) :
  address (fetchPoolDataFromAPI a) = a.
Proof.
  unfold fetchPoolDataFromAPI, mockPools. cbn [get].
  repeat match goal with
         | |- context [String.eqb ?k a] =>
             destruct (String.eqb_spec k a) as [<- | ?]; [reflexivity |]
         end.
  reflexivity.
Qed.

(** The result of [getFromCache], case by case. *)
Lemma getFromCache_cases {T} (store : gmap string (Entry T)) (t : Z)
    (key : string) (ttl : Z) :
  (exists e, store !! (CACHE_PREFIX ++ key) = Some e
             /\ (t - stamp e <= ttl)%Z
             /\ getFromCache store t key ttl = (Some (data e), store))
  \/ ((forall e, store !! (CACHE_PREFIX ++ key) = Some e ->
                 (t - stamp e > ttl)%Z)
      /\ getFromCache store t key ttl
         = (None, delete (CACHE_PREFIX ++ key) store)).
Proof.
  unfold getFromCache.
  destruct (store !! (CACHE_PREFIX ++ key)) as [e |] eqn:Hlook.
  - destruct (Z.gtb_spec (t - stamp e) ttl) as [Hold | Hfresh].
    + right. split; [| reflexivity]. intros e' [= <-]. lia.
    + left. exists e. repeat split. exact Hfresh.
  - right. split; [intros e' [=] |].
    now rewrite delete_id.
Qed.

(** X5.  [getPoolData] answers [null] exactly when the storage holds no
    snapshot of the pool within the 30 seconds of [CACHE_TTL] and the node
    does not answer for the address (the key is invalid or the account is
    not found).  A failure is never cached: after a [null] the storage
    holds nothing under the pool's key.  An answer is either the snapshot in
    the storage, the world left as it was, or the snapshot made for the
    address, which is then stored with the current time after one call of the
    node.  The price entries, the clock and the random draws are never
    touched. *)
Theorem getPoolData_answer (env : Env) (a : string) (w : World) :
  let key := poolKey a in
  let fresh := exists e, poolStore w !! key = Some e
                         /\ (now w - stamp e <= CACHE_TTL)%Z in
  let '(r, w') := getPoolData env a w in
  (r = None <-> ~ fresh /\ ~ reachable env a)
  /\ (r = None -> poolStore w' !! key = None)
  /\ (forall d, r = Some d ->
        (exists e, poolStore w !! key = Some e
                   /\ (now w - stamp e <= CACHE_TTL)%Z
                   /\ d = data e /\ w' = w)
        \/ (~ fresh /\ d = fetchPoolDataFromAPI a /\ address d = a
            /\ poolStore w' !! key = Some {| data := d; stamp := now w |}
            /\ rpcLog w' = a :: rpcLog w))
  /\ priceStore w' = priceStore w /\ now w' = now w /\ draws w' = draws w.
Proof.
  intros key fresh. unfold getPoolData, poolCacheGet, mbind, M_bind.
  destruct (getFromCache_cases (poolStore w) (now w) ("pool_" ++ a) CACHE_TTL)
    as [(e & Hlook & Hage & ->) | (Hstale & ->)].
  - cbn. split; [| split; [| split; [| easy]]].
    + split; [discriminate |]. intros [Hn _]. exfalso. apply Hn. now exists e.
    + discriminate.
    + intros d [= <-]. left. exists e. repeat split; try assumption.
      destruct w; reflexivity.
  - assert (Hnf : ~ fresh).
    { intros (e & Hlook & Hage). specialize (Hstale e Hlook). lia. }
    fold (poolKey a). fold key.
    destruct (publicKey env a) eqn:Hkey; cbn.
    2: { split; [| split; [| split; [| easy]]].
         - split; [intros _ | reflexivity]. split; [exact Hnf |].
           intros [H _]. congruence.
         - intros _. apply lookup_delete_eq.
         - discriminate. }
    unfold rpcGetAccountInfo.
    destruct (getAccountInfo env a) eqn:Hacc; cbn;
      (split; [| split; [| split; [| easy]]]).
    + split; [discriminate |]. intros [_ Hn]. exfalso. apply Hn. now split.
    + discriminate.
    + intros d [= <-]. right. repeat split; try assumption.
      * apply fetchPoolDataFromAPI_address.
      * apply lookup_insert_eq.
    + split; [intros _ | reflexivity]. split; [exact Hnf |].
      intros [_ H]. congruence.
    + intros _. apply lookup_delete_eq.
    + discriminate.
    + split; [intros _ | reflexivity]. split; [exact Hnf |].
      intros [_ H]. congruence.
    + intros _. apply lookup_delete_eq.
    + discriminate.
Qed.


(** What [getPoolData] leaves alone. *)
Lemma getPoolData_frame (env : Env) (a : string) (w : World) :
  priceStore (snd (getPoolData env a w)) = priceStore w
  /\ now (snd (getPoolData env a w)) = now w
  /\ draws (snd (getPoolData env a w)) = draws w.
Proof.
  unfold getPoolData, poolCacheGet, mbind, M_bind.
  destruct (getFromCache _ _ _ _) as [[d |] s]; cbn; [easy |].
  destruct (publicKey env a); cbn; [| easy].
  destruct (getAccountInfo env a); cbn; easy.
Qed.

(** A cold read of a pool's price on a node that answers. *)
Lemma getPriceData_cold (env : Env) (a : string) (w : World) :
  reachable env a ->
  poolStore w !! poolKey a = None ->
  priceStore w !! priceKey a = None ->
  let d := fetchPoolDataFromAPI a in
  let pd := mockPriceData a d (Num (random env (draws w))) (now w) in
  getPriceData env a w
  = (Some pd,
     {| poolStore := <[ poolKey a := {| data := d; stamp := now w |} ]>
                       (poolStore w);
        priceStore :=
          <[ priceKey a := {| data := jsonPriceData pd; stamp := now w |} ]>
            (priceStore w);
        now := now w; rpcLog := a :: rpcLog w; draws := S (draws w) |}).
Proof.
  intros [Hkey Hacc] Hpool Hprice d pd.
  unfold getPriceData, priceCacheGet, mbind, M_bind.
  rewrite (OrcaClientProps.getFromCache_miss _ _ _ _ Hprice).
  unfold fetchPriceDataFromAPI, mbind, M_bind.
  match goal with
  | |- context [getPoolData env a ?x] =>
      rewrite (OrcaClientProps.getPoolData_miss env a x Hpool Hkey Hacc)
  end.
  reflexivity.
Qed.

(** X6.  After [clearCache], on a node that answers for the address,
    nothing is served from the storage: [getPoolData] asks the node once
    and leaves a storage that holds its snapshot alone, stamped with the
    current time; [getPriceData] makes a price from the next random draw,
    with one call of the node and one draw. *)
Theorem clearCache_forces_fetch (env : Env) (a : string) (w : World) :
  reachable env a ->
  let '(_, w1) := clearCache w in
  let d := fetchPoolDataFromAPI a in
  getPoolData env a w1
  = (Some d,
     {| poolStore := <[ poolKey a := {| data := d; stamp := now w |} ]> ∅;
        priceStore := ∅; now := now w; rpcLog := a :: rpcLog w;
        draws := draws w |})
  /\ exists pd w2,
       getPriceData env a w1 = (Some pd, w2)
       /\ pd = mockPriceData a d (Num (random env (draws w))) (now w)
       /\ rpcLog w2 = a :: rpcLog w /\ draws w2 = S (draws w).
Proof.
  intros Hr. cbn [clearCache]. split.
  - destruct Hr as [Hkey Hacc].
    rewrite OrcaClientProps.getPoolData_miss;
      [reflexivity | apply lookup_empty | exact Hkey | exact Hacc].
  - do 2 eexists. split.
    + rewrite getPriceData_cold;
        [reflexivity | exact Hr | apply lookup_empty | apply lookup_empty].
    + repeat split.
Qed.

Lemma clearCache_forces_fetch_witness :
  let a := Pools.address Pools.SOL_USDC in
  let e := {| data := fetchPoolDataFromAPI a; stamp := 0%Z |} in
  let w := {| poolStore := {[ poolKey a := e ]}; priceStore := ∅;
              now := 10%Z; rpcLog := []; draws := 0 |} in
  let '(_, w1) := clearCache w in
  fst (getPoolData Samples.env0 a w) = Some (fetchPoolDataFromAPI a)
  /\ rpcLog (snd (getPoolData Samples.env0 a w)) = []
  /\ fst (getPoolData Samples.env0 a w1) = Some (fetchPoolDataFromAPI a)
  /\ rpcLog (snd (getPoolData Samples.env0 a w1)) = [a].
Proof.
  intros a e w.
  pose proof (clearCache_forces_fetch Samples.env0 a w
                (conj eq_refl eq_refl)) as H.
  cbn [clearCache] in *. destruct H as [H _].
  rewrite H. cbn [fst snd rpcLog].
  rewrite (OrcaClientProps.getPoolData_fresh Samples.env0 a w e);
    [repeat split | apply lookup_singleton_eq | vm_compute; discriminate].
Defined.

(** ** The mock price data *)

(** The record built from a draw [x] of [Math.random()]. *)
Lemma mockPriceData_bounds (a : string) (d : PoolData) (x : R) (t : Z) :
  0 <= x < 1 ->
  let pd := mockPriceData a d (Num x) t in
  exists c : R,
    priceChange24h pd = Num c /\ -5 <= c < 5
    /\ priceChange7d pd = Num (2 * c)
    /\ timestamp pd = t /\ poolAddress pd = a
    /\ forall p : R, price d = Num p -> 0 < p ->
         exists q : R,
           currentPrice pd = Num q /\ q = p * (1 + c / 100)
           /\ 0.95 * p <= q < 1.05 * p
           /\ low24h pd = Num (0.95 * q) /\ high24h pd = Num (1.05 * q)
           /\ 0.95 * q < q < 1.05 * q.
Proof.
  intros Hx pd. subst pd. unfold mockPriceData.
  cbn [priceChange24h priceChange7d timestamp poolAddress currentPrice
       low24h high24h sub neg add mul].
  exists ((x + - 0.5) * 0.1 * 100). repeat split; try lra.
  - f_equal. lra.
  - f_equal. lra.
  - intros p -> Hp. cbn [mul].
    exists (p * (1 + (x + - 0.5) * 0.1)).
    repeat split; try (f_equal; lra); nra.
Qed.

(** X7.  [fetchPriceDataFromAPI], with [Math.random()] in [0, 1).  It
    rejects with 'Pool data not found' exactly when [getPoolData] answers
    [null].  Otherwise it resolves after one draw: [priceChange24h] is a
    [c] with [-5 <= c < 5], [priceChange7d] is [2 c], the timestamp is the
    current time, and for a pool price [p > 0] the current price is
    [p (1 + c / 100)], within 5 percent of [p], with [low24h] and [high24h]
    5 percent below and above it. *)
Theorem price_data_within_five_percent (env : Env) (a : string) (w : World) :
  fair (random env) ->
  match getPoolData env a w, fetchPriceDataFromAPI env a w with
  | (None, w1), (o, w') =>
      o = Rejected "Pool data not found" /\ w' = w1
  | (Some d, w1), (o, w') =>
      exists (pd : PriceData) (c : R),
        o = Resolved pd /\ draws w' = S (draws w) /\ now w' = now w
        /\ priceChange24h pd = Num c /\ -5 <= c < 5
        /\ priceChange7d pd = Num (2 * c)
        /\ timestamp pd = now w /\ poolAddress pd = a
        /\ forall p : R, price d = Num p -> 0 < p ->
             exists q : R,
               currentPrice pd = Num q /\ q = p * (1 + c / 100)
               /\ 0.95 * p <= q < 1.05 * p
               /\ low24h pd = Num (0.95 * q) /\ high24h pd = Num (1.05 * q)
               /\ 0.95 * q < q < 1.05 * q
  end.
Proof.
  intros Hfair. unfold fetchPriceDataFromAPI, mbind, M_bind.
  destruct (getPoolData_frame env a w) as (_ & Hnow & Hdraws).
  destruct (getPoolData env a w) as [[d |] w1]; cbn in *; [| easy].
  destruct (mockPriceData_bounds a d (random env (draws w1)) (now w1)
              (Hfair _)) as (c & H24 & Hc & H7 & Ht & Ha & Hp).
  eexists _, c. split; [reflexivity |].
  rewrite <- Hnow, <- Hdraws. repeat split; try assumption; lra.
Qed.

Lemma price_data_within_five_percent_witness :
  exists (pd : PriceData) (w' : World),
    fetchPriceDataFromAPI Samples.env0 (Pools.address Pools.SOL_USDC)
      Samples.w0 = (Resolved pd, w')
    /\ within (-5) 5 (priceChange24h pd)
    /\ within (0.95 * 221.85) (1.05 * 221.85) (currentPrice pd).
Proof.
  pose proof (price_data_within_five_percent Samples.env0
                (Pools.address Pools.SOL_USDC) Samples.w0) as H.
  rewrite OrcaClientProps.getPoolData_miss in H
    by (reflexivity || apply lookup_empty).
  destruct (fetchPriceDataFromAPI _ _ _) as [o w'].
  destruct H as (pd & c & -> & _ & _ & H24 & Hc & _ & _ & _ & Hp).
  { intros k. cbn. lra. }
  exists pd, w'. split; [reflexivity |]. split.
  - exists c. split; [exact H24 | lra].
  - destruct (Hp 221.85 eq_refl ltac:(lra)) as (q & Hq & _ & Hb & _).
    exists q. split; [exact Hq | lra].
Defined.

(** ** The price cache *)

(** Price data built from a finite pool price go through JSON unchanged. *)
Lemma jsonPriceData_finite (a : string) (d : PoolData) (x p : R) (t : Z) :
  price d = Num p ->
  jsonPriceData (mockPriceData a d (Num x) t) = mockPriceData a d (Num x) t.
Proof.
  intros Hp. unfold jsonPriceData, mockPriceData. rewrite Hp. reflexivity.
Qed.

(** A stale price for a pool whose snapshot is still fresh: the price is
    drawn again from the cached snapshot, without a request. *)
Lemma getPriceData_stale (env : Env) (a : string) (w : World)
    (e : Entry PriceData) (ep : Entry PoolData) :
  priceStore w !! priceKey a = Some e ->
  (now w - stamp e > PRICE_CACHE_TTL)%Z ->
  poolStore w !! poolKey a = Some ep ->
  (now w - stamp ep <= CACHE_TTL)%Z ->
  let pd := mockPriceData a (data ep) (Num (random env (draws w))) (now w) in
  getPriceData env a w
  = (Some pd,
     {| poolStore := poolStore w;
        priceStore :=
          <[ priceKey a := {| data := jsonPriceData pd; stamp := now w |} ]>
            (delete (priceKey a) (priceStore w));
        now := now w; rpcLog := rpcLog w; draws := S (draws w) |}).
Proof.
  intros Hprice Hold Hpool Hfresh pd.
  unfold getPriceData, priceCacheGet, mbind, M_bind.
  rewrite (OrcaClientProps.getFromCache_stale _ _ _ _ e Hprice Hold).
  unfold fetchPriceDataFromAPI, mbind, M_bind.
  match goal with
  | |- context [getPoolData env a ?x] =>
      rewrite (OrcaClientProps.getPoolData_fresh env a x ep Hpool Hfresh)
  end.
  reflexivity.
Qed.

(** X8.  Two calls of [getPriceData], [dt] milliseconds apart, for a pool
    that nothing is stored of, on a node that answers.  The first returns a
    price made from one random draw.  Within the 5 seconds of
    [PRICE_CACHE_TTL] the second returns the stored price, with no new draw
    and no new call of the node.  After 5 seconds, and within the 30 of
    [CACHE_TTL], the second makes a new price from the next draw at the
    later time, still without calling the node: the snapshot of the pool is
    served from the storage.  The round trip through JSON leaves the price
    data as it was when the pool's price is finite. *)
Theorem getPriceData_twice (env : Env) (a : string) (w : World) (dt : Z) :
  reachable env a ->
  poolStore w !! poolKey a = None ->
  priceStore w !! priceKey a = None ->
  let d := fetchPoolDataFromAPI a in
  let first := mockPriceData a d (Num (random env (draws w))) (now w) in
  let again :=
    mockPriceData a d (Num (random env (S (draws w)))) (now w + dt) in
  let '(r1, w1) := getPriceData env a w in
  let '(_, w2) := advance dt w1 in
  let '(r2, w3) := getPriceData env a w2 in
  r1 = Some first
  /\ ((dt <= PRICE_CACHE_TTL)%Z ->
      r2 = Some (jsonPriceData first)
      /\ draws w3 = S (draws w) /\ rpcLog w3 = a :: rpcLog w)
  /\ ((PRICE_CACHE_TTL < dt <= CACHE_TTL)%Z ->
      r2 = Some again
      /\ draws w3 = S (S (draws w)) /\ rpcLog w3 = a :: rpcLog w)
  /\ (forall p : R, price d = Num p -> jsonPriceData first = first).
Proof.
  intros Hr Hpool Hprice d first again.
  rewrite (getPriceData_cold env a w Hr Hpool Hprice). fold d first.
  cbn [advance poolStore priceStore now rpcLog draws].
  match goal with |- context [getPriceData env a ?x] => set (w2 := x) end.
  set (e := {| data := jsonPriceData first; stamp := now w |}).
  set (ep := {| data := d; stamp := now w |}).
  assert (Hlook : priceStore w2 !! priceKey a = Some e)
    by apply lookup_insert_eq.
  assert (Hlookp : poolStore w2 !! poolKey a = Some ep)
    by apply lookup_insert_eq.
  assert (Hjson : forall p : R, price d = Num p -> jsonPriceData first = first)
    by (intros p Hp; apply (jsonPriceData_finite a d _ p _ Hp)).
  destruct (Z_le_gt_dec dt PRICE_CACHE_TTL) as [Hin | Hout].
  - rewrite (OrcaClientProps.getPriceData_fresh env a w2 e Hlook)
      by (cbn; lia).
    repeat split; try assumption; unfold PRICE_CACHE_TTL in *; lia.
  - destruct (Z_le_gt_dec dt CACHE_TTL) as [Hin | Hlate].
    + rewrite (getPriceData_stale env a w2 e ep Hlook ltac:(cbn; lia) Hlookp
                 ltac:(cbn; lia)).
      repeat split; try assumption; lia.
    + destruct (getPriceData env a w2) as [r2 w3].
      repeat split; try assumption; unfold PRICE_CACHE_TTL in *; lia.
Qed.

Lemma getPriceData_twice_witness :
  let a := Pools.address Pools.SOL_USDC in
  let '(r1, w1) := getPriceData Samples.env0 a Samples.w0 in
  let '(_, w2) := advance 5000 w1 in
  let '(r2, w3) := getPriceData Samples.env0 a w2 in
  r2 = r1 /\ draws w3 = 1%nat /\ rpcLog w3 = [a].
Proof.
  intros a.
  pose proof (getPriceData_twice Samples.env0 a Samples.w0 5000
                (conj eq_refl eq_refl) (lookup_empty _) (lookup_empty _))
    as H.
  cbv zeta in H.
  destruct (getPriceData Samples.env0 a Samples.w0) as [r1 w1].
  destruct (advance 5000 w1) as [u w2].
  destruct (getPriceData Samples.env0 a w2) as [r2 w3].
  destruct H as (H1 & Hin & _ & Hjson).
  destruct Hin as (H2 & Hd & Hl); [unfold PRICE_CACHE_TTL; lia |].
  rewrite (Hjson 221.85 eq_refl) in H2.
  repeat split; [congruence | exact Hd | exact Hl].
Defined.

(** ** The position range *)

Lemma optimalRangeOf_values (pd : PriceData) (risk : Pools.RiskLevel) :
  let m := match risk with
           | Pools.low => 0.05 | Pools.medium => 0.10 | Pools.high => 0.20
           end in
  let r := optimalRangeOf pd risk in
  expectedAPY r = Num (10 + 1 / m * 0.5)
  /\ 10 + 1 / m * 0.5 < 50
  /\ forall p : R, currentPrice pd = Num p -> 0 < p ->
       lowerPrice r = Num (p * (1 - m)) /\ upperPrice r = Num (p * (1 + m))
       /\ p * (1 - m) < p < p * (1 + m).
Proof.
  unfold optimalRangeOf.
  cbn [expectedAPY lowerPrice upperPrice sub neg add].
  destruct risk; cbn [volatilityMultiplier add neg];
    (split; [js_eval; js_done | split; [lra |]]);
    intros p -> Hp; cbn [mul]; (repeat split; try nra); f_equal; lra.
Qed.

(** X9.  [calculateOptimalRange] rejects with 'Unable to fetch price
    data' exactly when [getPriceData] answers [null].  Otherwise it
    resolves, doing nothing more to the world: the expected APY is 20, 15
    and 12.5 for the low, medium and high tolerance (the cap of 50 is never
    reached), and for a current price [p > 0] the range is
    [p (1 - m)] to [p (1 + m)], [m] being 0.05, 0.10 and 0.20, with [p]
    strictly inside.  The investment plays no part. *)
Theorem calculateOptimalRange_brackets_price (env : Env) (a : string)
    (investment : number) (risk : Pools.RiskLevel) (w : World) :
  let m := match risk with
           | Pools.low => 0.05 | Pools.medium => 0.10 | Pools.high => 0.20
           end in
  match getPriceData env a w, calculateOptimalRange env a investment risk w with
  | (None, w1), (o, w') =>
      o = Rejected "Unable to fetch price data" /\ w' = w1
  | (Some pd, w1), (o, w') =>
      w' = w1
      /\ exists r : OptimalRange,
           o = Resolved r
           /\ expectedAPY r
              = Num (match risk with
                     | Pools.low => 20 | Pools.medium => 15
                     | Pools.high => 12.5
                     end)
           /\ forall p : R, currentPrice pd = Num p -> 0 < p ->
                lowerPrice r = Num (p * (1 - m))
                /\ upperPrice r = Num (p * (1 + m))
                /\ p * (1 - m) < p < p * (1 + m)
  end.
Proof.
  intros m. unfold calculateOptimalRange, mbind, M_bind.
  destruct (getPriceData env a w) as [[pd |] w1]; cbn; [| easy].
  split; [reflexivity |]. eexists. split; [reflexivity |].
  destruct (optimalRangeOf_values pd risk) as (Hapy & _ & Hrange).
  split; [| exact Hrange].
  rewrite Hapy. f_equal. destruct risk; lra.
Qed.

Lemma calculateOptimalRange_brackets_price_witness :
  let pd := {| poolAddress := "A"; currentPrice := Num 200;
               priceChange24h := Num 1; priceChange7d := Num 2;
               high24h := Num 210; low24h := Num 190; timestamp := 0 |} in
  let w := {| poolStore := ∅;
              priceStore := {[ priceKey "A" := {| data := pd; stamp := 0%Z |} ]};
              now := 0%Z; rpcLog := []; draws := 0 |} in
  exists r : OptimalRange,
    fst (calculateOptimalRange Samples.env0 "A" (Num 10000) Pools.low w)
    = Resolved r
    /\ lowerPrice r = Num (200 * (1 - 0.05))
    /\ upperPrice r = Num (200 * (1 + 0.05))
    /\ expectedAPY r = Num 20.
Proof.
  intros pd w.
  pose proof (calculateOptimalRange_brackets_price Samples.env0 "A"
                (Num 10000) Pools.low w) as H.
  rewrite (OrcaClientProps.getPriceData_fresh Samples.env0 "A" w
             {| data := pd; stamp := 0%Z |}) in H
    by (apply lookup_singleton_eq || (vm_compute; discriminate)).
  destruct (calculateOptimalRange _ _ _ _ _) as [o w'].
  destruct H as (_ & r & -> & Hapy & Hrange).
  exists r. destruct (Hrange 200 eq_refl ltac:(lra)) as (Hl & Hu & _).
  repeat split; assumption.
Defined.

(** ** Yield metrics *)

(** Compounding a rate that is not negative [n] times gives at least the
    simple rate. *)
Lemma compound_at_least_simple (x : R) (n : nat) :
  0 <= x -> 1 + INR n * x <= (1 + x) ^ n.
Proof.
  intros Hx. induction n as [| n IH].
  - cbn. lra.
  - rewrite S_INR. cbn [Rpow_def.pow].
    assert (0 <= INR n) by apply pos_INR. nra.
Qed.

(** X10.  [getYieldMetrics] rejects with 'Unable to fetch pool data'
    exactly when [getPoolData] answers [null].  Otherwise the weekly fees
    are 7 times the daily fees, and for a finite fee [f] and volume [v]:
    [apr = 365 f], [apy = ((1 + f / 365) ^ 365 - 1) 100],
    [dailyFees = v f / 100]; for [f >= 0] the [apy] is at least [100 f],
    compounding never yielding less than the rate it compounds. *)
Theorem getYieldMetrics_answer (env : Env) (a : string) (w : World) :
  match getPoolData env a w, getYieldMetrics env a w with
  | (None, w1), (o, w') =>
      o = Rejected "Unable to fetch pool data" /\ w' = w1
  | (Some d, w1), (o, w') =>
      w' = w1
      /\ exists m : YieldMetrics,
           o = Resolved m
           /\ weeklyFees m = mul (dailyFees m) (Num 7)
           /\ forall f v : R, fee d = Num f -> volume24h d = Num v ->
                yApr m = Num (f * 365)
                /\ yApy m = Num (((1 + f / 365) ^ 365 - 1) * 100)
                /\ dailyFees m = Num (v * (f / 100))
                /\ weeklyFees m = Num (v * (f / 100) * 7)
                /\ (0 <= f -> f * 100 <= ((1 + f / 365) ^ 365 - 1) * 100)
  end.
Proof.
  unfold getYieldMetrics, mbind, M_bind.
  destruct (getPoolData env a w) as [[d |] w1]; unfold ret;
    [| split; reflexivity].
  split; [reflexivity |]. eexists. split; [reflexivity |].
  split; [reflexivity |].
  intros f v Hf Hv. unfold yieldMetricsOf.
  cbn [yApr yApy dailyFees weeklyFees]. rewrite Hf, Hv.
  rewrite !div_num by lra. cbn [add sub neg mul pow].
  set (c := (1 + f / 365) ^ 365).
  repeat split; try (f_equal; lra).
  intros Hpos.
  pose proof (compound_at_least_simple (f / 365) 365
                ltac:(apply Rle_mult_inv_pos; lra)) as Hb.
  fold c in Hb.
  replace (INR 365) with 365 in Hb
    by (rewrite INR_IZR_INZ; reflexivity).
  lra.
Qed.

Lemma getYieldMetrics_answer_witness :
  let a := Pools.address Pools.SOL_USDC in
  exists m : YieldMetrics,
    fst (getYieldMetrics Samples.env0 a Samples.w0) = Resolved m
    /\ yApr m = Num (0.25 * 365)
    /\ dailyFees m = Num (12800000 * (0.25 / 100))
    /\ weeklyFees m = Num (12800000 * (0.25 / 100) * 7)
    /\ 0.25 * 100 <= ((1 + 0.25 / 365) ^ 365 - 1) * 100.
Proof.
  intros a.
  pose proof (getYieldMetrics_answer Samples.env0 a Samples.w0) as H.
  rewrite OrcaClientProps.getPoolData_miss in H
    by (reflexivity || apply lookup_empty).
  destruct (getYieldMetrics _ _ _) as [o w'].
  destruct H as (_ & m & -> & _ & H).
  destruct (H 0.25 12800000 eq_refl eq_refl) as (H1 & _ & H3 & H4 & H5).
  exists m. repeat split; try assumption. apply H5.
  apply Rlt_le, Rdiv_lt_0_compat; apply IZR_lt; reflexivity.
Defined.

End ClientProps.

(* ===================================================================== *)
(** * Properties of the registry and of the resolution of pools *)
(* ===================================================================== *)

Module FetchProps.
Import JS JSFacts PoolDataAggregator Notions PortfolioNotions.
Import OrcaClient(M, ret, Env, World, Outcome, Resolved, Rejected).
#[local] Open Scope R_scope.

(** ** The registry *)

Ltac registry_cases id :=
  repeat match goal with
         | |- context [String.eqb ?k id] =>
             destruct (String.eqb_spec k id) as [<- | ?]
         | H : context [String.eqb ?k id] |- _ =>
             destruct (String.eqb_spec k id) as [<- | ?]
         end.

(** X11.  The registry [SUPPORTED_POOLS] and the tables that go with it
    agree.  A pool [getPoolById] finds is filed under its own id; it is
    listed by [getAllPools], by [getPoolsByRiskLevel] at its risk level and
    by [getPoolsByHedgeType] at its hedge type; the client has a snapshot
    for its address, with that address and a positive price, which is the
    base price of the price simulation; it has a positive default weight;
    and no other pool has its address. *)
Theorem registry_coherent (id : string) (c : Pools.PoolConfig) :
  Pools.getPoolById id = Some c ->
  Pools.id c = id
  /\ In c Pools.getAllPools
  /\ In c (Pools.getPoolsByRiskLevel (Pools.riskLevel c))
  /\ In c (Pools.getPoolsByHedgeType (Pools.hedgeType c))
  /\ (exists (d : OrcaClient.PoolData) (p : R),
        get OrcaClient.mockPools (Pools.address c) = Some d
        /\ OrcaClient.address d = Pools.address c
        /\ OrcaClient.price d = Num p /\ 0 < p
        /\ get PriceWebSocketService.basePrices id = Some (Num p))
  /\ (exists x : R,
        get Pools.DEFAULT_ALLOCATION_WEIGHTS id = Some (Num x) /\ 0 < x)
  /\ (forall (id' : string) (c' : Pools.PoolConfig),
        Pools.getPoolById id' = Some c' ->
        Pools.address c' = Pools.address c -> id' = id).
Proof.
  unfold Pools.getPoolById, Pools.SUPPORTED_POOLS. cbn [get].
  registry_cases id; intros [= <-]; try discriminate.
  all: split; [reflexivity |].
  all: split; [cbn; tauto |].
  all: split; [cbn; tauto |].
  all: split; [cbn; tauto |].
  all: split; [eexists _, _; split; [reflexivity |];
               split; [reflexivity |]; split; [reflexivity |];
               split; [lra | reflexivity] |].
  all: split; [eexists; split; [reflexivity | lra] |].
  all: intros id' c'; cbn [get]; registry_cases id';
    intros [= <-]; try discriminate; intros Ha; try reflexivity;
    discriminate Ha.
Qed.

Lemma registry_coherent_witness :
  Pools.id Pools.EURC_USDC = "EURC_USDC"
  /\ In Pools.EURC_USDC (Pools.getPoolsByHedgeType Pools.hedge)
  /\ exists x : R,
       get Pools.DEFAULT_ALLOCATION_WEIGHTS "EURC_USDC" = Some (Num x)
       /\ 0 < x.
Proof.
  destruct (registry_coherent "EURC_USDC" Pools.EURC_USDC eq_refl)
    as (Hid & _ & _ & Hh & _ & Hw & _).
  repeat split; assumption.
Defined.

(** ** One pool *)

Lemma fetchOne_known (env : Env) (pid : string) (c : Pools.PoolConfig) :
  get Pools.SUPPORTED_POOLS pid = Some c ->
  fetchOne env pid = fetchEntry env (pid, c).
Proof. intros Hc. unfold fetchOne, fetchEntry. now rewrite Hc. Qed.

Lemma fetchOne_unknown (env : Env) (pid : string) (w : World) :
  get Pools.SUPPORTED_POOLS pid = None -> fetchOne env pid w = (None, w).
Proof. intros Hc. unfold fetchOne. now rewrite Hc. Qed.

Lemma getPoolsData_cons (env : Env) (pid : string) (ids : list string)
    (w : World) :
  getPoolsData env (pid :: ids) w
  = let '(one, w1) := fetchOne env pid w in
    let '(others, w2) := getPoolsData env ids w1 in
    (match one with Some a => a :: others | None => others end, w2).
Proof.
  cbn [getPoolsData]. unfold mbind, OrcaClient.M_bind.
  destruct (fetchOne env pid w) as [one w1].
  destruct (getPoolsData env ids w1) as [others w2]. reflexivity.
Qed.

(** An id that is not in the registry is passed over. *)
Lemma getPoolsData_skip (env : Env) (pid : string) (ids : list string)
    (w : World) :
  get Pools.SUPPORTED_POOLS pid = None ->
  getPoolsData env (pid :: ids) w = getPoolsData env ids w.
Proof.
  intros Hc. rewrite getPoolsData_cons, (fetchOne_unknown env pid w Hc).
  now destruct (getPoolsData env ids w).
Qed.

Lemma fetchEntry_shape (env : Env) (pid : string) (c : Pools.PoolConfig)
    (w : World) (p : AggregatedPoolData) :
  fst (fetchEntry env (pid, c) w) = Some p ->
  fromRegistry pid c p
  /\ exists (d : OrcaClient.PoolData) (pd : OrcaClient.PriceData),
       fst (OrcaClient.getPoolData env (Pools.address c) w) = Some d
       /\ fst (OrcaClient.getPriceData env (Pools.address c)
                 (snd (OrcaClient.getPoolData env (Pools.address c) w)))
          = Some pd
       /\ priceChange24h p = OrcaClient.priceChange24h pd
       /\ currentPrice p = OrcaClient.currentPrice pd
       /\ apy p = OrcaClient.apy d.
Proof.
  unfold fetchEntry, mbind, OrcaClient.M_bind.
  destruct (OrcaClient.getPoolData env (Pools.address c) w) as [[d |] w1];
    cbn [fst snd].
  2: { destruct (OrcaClient.getPriceData _ _ _) as [[pd |] w2];
         cbn; discriminate. }
  destruct (OrcaClient.getPriceData env (Pools.address c) w1)
    as [[pd |] w2]; cbn [fst snd]; [| cbn; discriminate].
  unfold aggregatePoolData, mbind, OrcaClient.M_bind.
  destruct (OrcaClient.calculateOptimalRange _ _ _ _ _) as [[r | e] w3];
    cbn; [| discriminate].
  intros [= <-]. split; [repeat split |].
  exists d, pd. repeat split.
Qed.

(** ** Calm price data *)

Lemma calm_of_draw (x : R) :
  0 <= x < 1 -> calm (Num ((x + - (0.5)) * 0.1 * 100)).
Proof.
  intros Hx. eexists. split; [reflexivity |]. apply Rabs_le. lra.
Qed.

Lemma calmCache_delete (w : World) (k : string)
    (s : gmap string (OrcaClient.Entry OrcaClient.PriceData)) :
  (forall k' e, s !! k' = Some e ->
                calm (OrcaClient.priceChange24h (OrcaClient.data e))) ->
  forall k' e, delete k s !! k' = Some e ->
               calm (OrcaClient.priceChange24h (OrcaClient.data e)).
Proof.
  intros Hs k' e Hlook. apply lookup_delete_Some in Hlook as [_ Hlook].
  now apply (Hs k').
Qed.

(** [getPoolData] does not touch the prices. *)
Lemma getPoolData_calm (env : Env) (a : string) (w : World) :
  calmCache w -> calmCache (snd (OrcaClient.getPoolData env a w)).
Proof.
  intros Hw. unfold calmCache.
  destruct (ClientProps.getPoolData_frame env a w) as (-> & _). exact Hw.
Qed.

(** [getPriceData] keeps the price cache calm, and what it returns is
    calm. *)
Lemma getPriceData_calm (env : Env) (a : string) (w : World) :
  fair (OrcaClient.random env) -> calmCache w ->
  calmCache (snd (OrcaClient.getPriceData env a w))
  /\ forall pd, fst (OrcaClient.getPriceData env a w) = Some pd ->
                calm (OrcaClient.priceChange24h pd).
Proof.
  intros Hfair Hw.
  unfold OrcaClient.getPriceData, OrcaClient.priceCacheGet, mbind,
    OrcaClient.M_bind.
  destruct (ClientProps.getFromCache_cases (OrcaClient.priceStore w)
              (OrcaClient.now w) ("price_" ++ a) OrcaClient.PRICE_CACHE_TTL)
    as [(e & Hlook & Hage & ->) | (Hstale & ->)].
  - cbn. split.
    + intros k e' Hk. now apply (Hw k).
    + intros pd [= <-]. now apply (Hw _ _ Hlook).
  - unfold OrcaClient.fetchPriceDataFromAPI, mbind, OrcaClient.M_bind.
    match goal with
    | |- context [OrcaClient.getPoolData env a ?x] => set (w1 := x)
    end.
    assert (Hw1 : calmCache w1)
      by (unfold calmCache, w1; cbn; now apply calmCache_delete).
    pose proof (getPoolData_calm env a w1 Hw1) as Hw2.
    destruct (ClientProps.getPoolData_frame env a w1) as (_ & _ & Hd).
    destruct (OrcaClient.getPoolData env a w1) as [[d |] w2];
      cbn [fst snd] in *.
    2: { cbn. split; [exact Hw2 | discriminate]. }
    cbn. split.
    + intros k e Hk. cbn [OrcaClient.priceStore] in Hk.
      unfold OrcaClient.saveToCache in Hk.
      apply lookup_insert_Some in Hk as [[_ <-] | [_ Hk]].
      * cbn. apply calm_of_draw, Hfair.
      * now apply (Hw2 k).
    + intros pd [= <-]. cbn. apply calm_of_draw, Hfair.
Qed.

Lemma fetchEntry_calm (env : Env) (entry : string * Pools.PoolConfig)
    (w : World) :
  fair (OrcaClient.random env) -> calmCache w ->
  calmCache (snd (fetchEntry env entry w))
  /\ forall p, fst (fetchEntry env entry w) = Some p ->
               calm (priceChange24h p).
Proof.
  intros Hfair Hw. destruct entry as [pid c].
  unfold fetchEntry, mbind, OrcaClient.M_bind.
  pose proof (getPoolData_calm env (Pools.address c) w Hw) as Hw1.
  destruct (OrcaClient.getPoolData env (Pools.address c) w) as [r1 w1];
    cbn [snd] in Hw1.
  destruct (getPriceData_calm env (Pools.address c) w1 Hfair Hw1)
    as [Hw2 Hpd].
  destruct (OrcaClient.getPriceData env (Pools.address c) w1) as [r2 w2];
    cbn [fst snd] in *.
  destruct r1 as [d |]; [| cbn; split; [exact Hw2 | discriminate]].
  destruct r2 as [pd |]; [| cbn; split; [exact Hw2 | discriminate]].
  unfold aggregatePoolData, OrcaClient.calculateOptimalRange, mbind,
    OrcaClient.M_bind.
  destruct (getPriceData_calm env (Pools.address c) w2 Hfair Hw2)
    as [Hw3 _].
  destruct (OrcaClient.getPriceData env (Pools.address c) w2) as [r3 w3];
    cbn [fst snd] in *.
  destruct r3 as [pd3 |]; cbn.
  - split; [exact Hw3 |]. intros p [= <-]. cbn. now apply Hpd.
  - split; [exact Hw3 | discriminate].
Qed.

Lemma fetchOne_calm (env : Env) (pid : string) (w : World) :
  fair (OrcaClient.random env) -> calmCache w ->
  calmCache (snd (fetchOne env pid w))
  /\ forall p, fst (fetchOne env pid w) = Some p -> calm (priceChange24h p).
Proof.
  intros Hfair Hw.
  destruct (get Pools.SUPPORTED_POOLS pid) as [c |] eqn:Hc.
  - rewrite (fetchOne_known env pid c Hc). now apply fetchEntry_calm.
  - rewrite (fetchOne_unknown env pid w Hc). cbn. split; [exact Hw | discriminate].
Qed.

Lemma getPoolsData_calm (env : Env) (ids : list string) (w : World) :
  fair (OrcaClient.random env) -> calmCache w ->
  calmCache (snd (getPoolsData env ids w))
  /\ Forall (fun p => calm (priceChange24h p)) (fst (getPoolsData env ids w)).
Proof.
  intros Hfair. revert w. induction ids as [| pid ids IH]; intros w Hw.
  - cbn. split; [exact Hw | constructor].
  - rewrite getPoolsData_cons.
    destruct (fetchOne_calm env pid w Hfair Hw) as [Hw1 Hone].
    destruct (fetchOne env pid w) as [one w1]; cbn [fst snd] in *.
    destruct (IH w1 Hw1) as [Hw2 Hrest].
    destruct (getPoolsData env ids w1) as [others w2]; cbn [fst snd] in *.
    split; [exact Hw2 |].
    destruct one as [p |]; [constructor; auto | exact Hrest].
Qed.

(** The average of calm changes does not exceed 5. *)
Lemma avgVolatility_calm (pools : list AggregatedPoolData) :
  Forall (fun p => calm (priceChange24h p)) pools ->
  gt (avgVolatility pools) (Num 5) = false.
Proof.
  intros Hcalm. unfold avgVolatility.
  assert (Hsum : forall acc : R,
            exists s : R,
              fold_left (fun sum pool => add sum (abs (priceChange24h pool)))
                        pools (Num acc) = Num s
              /\ s <= acc + 5 * INR (length pools)).
  { induction Hcalm as [| p pools (x & Hx & Hb) _ IH]; intros acc.
    - exists acc. split; [reflexivity | cbn; lra].
    - cbn [fold_left]. rewrite Hx. cbn [abs add].
      destruct (IH (acc + Rabs x)) as (s & -> & Hs).
      exists s. split; [reflexivity |].
      change (length (p :: pools)) with (S (length pools)).
      rewrite S_INR. lra. }
  destruct pools as [| p pools].
  { cbn. unfold div, of_nat. change (Z.of_nat 0) with 0%Z.
    rewrite sgn_zero. reflexivity. }
  destruct (Hsum 0) as (s & -> & Hs). unfold of_nat.
  rewrite <- INR_IZR_INZ.
  assert (Hn : 0 < INR (length (p :: pools)))
    by (apply lt_0_INR; cbn; lia).
  rewrite div_num by lra. apply gt_num_false.
  apply (Rmult_le_reg_r (INR (length (p :: pools)))); [exact Hn |].
  unfold Rdiv. rewrite Rmult_assoc, Rinv_l by lra. lra.
Qed.

(** X12.  On the data the client makes ([Math.random()] in [0, 1), and
    a storage whose prices changed by at most 5 percent), every pool
    [getPoolsData] resolves has a 24h change of at most 5 percent either
    way.  So the average volatility never exceeds 5, [applyHedgeStrategy]
    returns the weights as they are, and the final weights are the
    risk-adjusted weights, normalized; the storage stays as calm. *)
Theorem hedge_never_applied_to_client_data (env : Env) (ids : list string)
    (w : World) :
  fair (OrcaClient.random env) -> calmCache w ->
  let '(resolved, w') := getPoolsData env ids w in
  Forall (fun p => calm (priceChange24h p)) resolved
  /\ gt (avgVolatility resolved) (Num 5) = false
  /\ (forall weights, hedgeAdjusted resolved weights = weights)
  /\ (forall risk,
        finalWeights resolved risk
        = normalize (adjustWeightsForRiskTolerance resolved risk))
  /\ calmCache w'.
Proof.
  intros Hfair Hw.
  destruct (getPoolsData_calm env ids w Hfair Hw) as [Hw' Hcalm].
  destruct (getPoolsData env ids w) as [resolved w']; cbn [fst snd] in *.
  pose proof (avgVolatility_calm resolved Hcalm) as Hv.
  assert (Hh : forall weights, hedgeAdjusted resolved weights = weights)
    by (intros weights; unfold hedgeAdjusted; now rewrite Hv).
  repeat split; try assumption.
  intros risk. unfold finalWeights, applyHedgeStrategy. now rewrite Hh.
Qed.

Lemma fair_half : fair (fun _ => 0.5).
Proof. intros k. lra. Defined.

Lemma calmCache_empty (t : Z) (log : list string) (n : nat)
    (s : gmap string (OrcaClient.Entry OrcaClient.PoolData)) :
  calmCache {| OrcaClient.poolStore := s; OrcaClient.priceStore := ∅;
               OrcaClient.now := t; OrcaClient.rpcLog := log;
               OrcaClient.draws := n |}.
Proof. intros k e Hk. cbn in Hk. now rewrite lookup_empty in Hk. Defined.

Lemma hedge_never_applied_to_client_data_witness :
  let '(resolved, w') :=
    getPoolsData Samples.env0 ["SOL_USDC"; "EURC_USDC"] Samples.w0 in
  gt (avgVolatility resolved) (Num 5) = false
  /\ finalWeights resolved Pools.medium
     = normalize (adjustWeightsForRiskTolerance resolved Pools.medium).
Proof.
  pose proof (hedge_never_applied_to_client_data Samples.env0
                ["SOL_USDC"; "EURC_USDC"] Samples.w0 fair_half
                (calmCache_empty _ _ _ _)) as H.
  destruct (getPoolsData _ _ _) as [resolved w'].
  destruct H as (_ & Hv & _ & Hf & _). split; [exact Hv | apply Hf].
Defined.

(** ** A node that answers *)

Lemma getPoolData_reachable (env : Env) (a : string) (w : World) :
  reachable env a ->
  exists d, fst (OrcaClient.getPoolData env a w) = Some d.
Proof.
  intros [Hkey Hacc].
  unfold OrcaClient.getPoolData, OrcaClient.poolCacheGet, mbind,
    OrcaClient.M_bind.
  destruct (OrcaClient.getFromCache _ _ _ _) as [[d |] s]; cbn;
    [now exists d |].
  rewrite Hkey. cbn. rewrite Hacc. cbn. eauto.
Qed.

Lemma getPriceData_reachable (env : Env) (a : string) (w : World) :
  reachable env a ->
  exists pd, fst (OrcaClient.getPriceData env a w) = Some pd.
Proof.
  intros Hr.
  unfold OrcaClient.getPriceData, OrcaClient.priceCacheGet, mbind,
    OrcaClient.M_bind.
  destruct (OrcaClient.getFromCache _ _ _ _) as [[pd |] s]; cbn [fst];
    [cbn; now exists pd |].
  unfold OrcaClient.fetchPriceDataFromAPI, mbind, OrcaClient.M_bind.
  match goal with
  | |- context [OrcaClient.getPoolData env a ?x] =>
      destruct (getPoolData_reachable env a x Hr) as (d & Hd);
      destruct (OrcaClient.getPoolData env a x) as [r w1]
  end.
  cbn [fst] in Hd. subst r. cbn. eauto.
Qed.

Lemma fetchEntry_reachable (env : Env) (pid : string) (c : Pools.PoolConfig)
    (w : World) :
  reachable env (Pools.address c) ->
  exists p, fst (fetchEntry env (pid, c) w) = Some p.
Proof.
  intros Hr. unfold fetchEntry, mbind, OrcaClient.M_bind.
  destruct (getPoolData_reachable env (Pools.address c) w Hr) as (d & Hd).
  destruct (OrcaClient.getPoolData env (Pools.address c) w) as [r1 w1].
  cbn [fst] in Hd. subst r1.
  destruct (getPriceData_reachable env (Pools.address c) w1 Hr)
    as (pd & Hpd).
  destruct (OrcaClient.getPriceData env (Pools.address c) w1) as [r2 w2].
  cbn [fst] in Hpd. subst r2.
  unfold aggregatePoolData, OrcaClient.calculateOptimalRange, mbind,
    OrcaClient.M_bind.
  destruct (getPriceData_reachable env (Pools.address c) w2 Hr)
    as (pd3 & Hpd3).
  destruct (OrcaClient.getPriceData env (Pools.address c) w2) as [r3 w3].
  cbn [fst] in Hpd3. subst r3. cbn. eauto.
Qed.

(** The pools [getPoolsData] returns are pools of the registry, in the
    order of the selection. *)
Lemma getPoolsData_sublist (env : Env) (ids : list string) (w : World) :
  sublist (List.map poolId (fst (getPoolsData env ids w)))
          (List.filter known ids)
  /\ Forall (fun p => exists c, get Pools.SUPPORTED_POOLS (poolId p) = Some c
                                /\ fromRegistry (poolId p) c p)
            (fst (getPoolsData env ids w)).
Proof.
  revert w. induction ids as [| pid ids IH]; intros w.
  - cbn. split; constructor.
  - rewrite getPoolsData_cons. cbn [List.filter]. unfold known at 1.
    destruct (get Pools.SUPPORTED_POOLS pid) as [c |] eqn:Hc.
    + rewrite (fetchOne_known env pid c Hc).
      pose proof (fetchEntry_shape env pid c w) as Hshape.
      destruct (fetchEntry env (pid, c) w) as [one w1]; cbn [fst] in Hshape.
      destruct (IH w1) as [Hsub Hall].
      destruct (getPoolsData env ids w1) as [others w2]; cbn [fst] in *.
      destruct one as [p |].
      * destruct (Hshape p eq_refl) as [Hp _].
        assert (Hid : poolId p = pid) by apply Hp.
        cbn [List.map]. rewrite Hid. split.
        -- now apply sublist_skip.
        -- constructor; [| exact Hall]. exists c. rewrite Hid. now split.
      * split; [now apply sublist_cons | exact Hall].
    + rewrite <- getPoolsData_cons, (getPoolsData_skip env pid ids w Hc).
      apply IH.
Qed.

Lemma getPoolsData_reachable (env : Env) (ids : list string) (w : World) :
  (forall id c, In id ids -> get Pools.SUPPORTED_POOLS id = Some c ->
                reachable env (Pools.address c)) ->
  List.map poolId (fst (getPoolsData env ids w)) = List.filter known ids.
Proof.
  revert w. induction ids as [| pid ids IH]; intros w Hr; [reflexivity |].
  rewrite getPoolsData_cons. cbn [List.filter]. unfold known at 1.
  destruct (get Pools.SUPPORTED_POOLS pid) as [c |] eqn:Hc.
  - rewrite (fetchOne_known env pid c Hc).
    destruct (fetchEntry_reachable env pid c w) as (p & Hp);
      [apply (Hr pid); [now left | exact Hc] |].
    destruct (fetchEntry_shape env pid c w p Hp) as [Hshape _].
    destruct (fetchEntry env (pid, c) w) as [one w1]; cbn [fst] in Hp.
    subst one.
    specialize (IH w1 ltac:(intros id c' Hin; apply Hr; now right)).
    destruct (getPoolsData env ids w1) as [others w2]; cbn [fst] in *.
    cbn [List.map]. f_equal; [apply Hshape | exact IH].
  - rewrite <- getPoolsData_cons, (getPoolsData_skip env pid ids w Hc).
    apply IH. intros id c' Hin. apply Hr. now right.
Qed.

(** X13.  What [getPoolsData] resolves.  The ids of the pools are, in
    order, among the requested ids that the registry knows: an unknown id is
    skipped.  Each pool carries the id, name, address, risk level and hedge
    type of its registry entry, and no allocation.  When the node answers
    for every requested pool of the registry, the result is exactly the
    known ids, in the order asked, repeated ids included.  When no requested
    id is known the result is empty and the world untouched. *)
Theorem getPoolsData_resolution (env : Env) (ids : list string) (w : World) :
  let resolved := fst (getPoolsData env ids w) in
  sublist (List.map poolId resolved) (List.filter known ids)
  /\ Forall (fun p => exists c, get Pools.SUPPORTED_POOLS (poolId p) = Some c
                                /\ fromRegistry (poolId p) c p) resolved
  /\ ((forall id c, In id ids -> get Pools.SUPPORTED_POOLS id = Some c ->
                    reachable env (Pools.address c)) ->
      List.map poolId resolved = List.filter known ids)
  /\ (List.filter known ids = [] -> getPoolsData env ids w = ([], w)).
Proof.
  intros resolved. subst resolved.
  destruct (getPoolsData_sublist env ids w) as [Hsub Hall].
  split; [exact Hsub |]. split; [exact Hall |].
  split; [apply getPoolsData_reachable |].
  clear. revert w. induction ids as [| pid ids IH]; intros w Hnone;
    [reflexivity |].
  cbn [List.filter] in Hnone. unfold known at 1 in Hnone.
  destruct (get Pools.SUPPORTED_POOLS pid) as [c |] eqn:Hc;
    [discriminate |].
  rewrite (getPoolsData_skip env pid ids w Hc). now apply IH.
Qed.

Lemma getPoolsData_resolution_witness :
  List.map poolId
    (fst (getPoolsData Samples.env0
            ["WETH_USDC"; "DOGE_USDC"; "SOL_USDC"; "WETH_USDC"] Samples.w0))
  = ["WETH_USDC"; "SOL_USDC"; "WETH_USDC"]
  /\ getPoolsData Samples.env0 ["DOGE_USDC"; ""] Samples.w0
     = ([], Samples.w0).
Proof.
  split.
  - apply (getPoolsData_resolution Samples.env0
             ["WETH_USDC"; "DOGE_USDC"; "SOL_USDC"; "WETH_USDC"] Samples.w0).
    intros id c _ _. split; reflexivity.
  - apply (getPoolsData_resolution Samples.env0 ["DOGE_USDC"; ""]
             Samples.w0).
    reflexivity.
Defined.

(** ** A pool the node does not answer for *)

Lemma poolKey_inj (a b : string) : poolKey a = poolKey b -> a = b.
Proof.
  unfold poolKey. intros E.
  apply String.app_inj in E. now apply String.app_inj in E.
Qed.

(** A pool that is neither cached nor answered for stays out of the
    cache, whatever pool is read. *)
Lemma getPoolData_missing (env : Env) (a x : string) (w : World) :
  ~ reachable env x ->
  OrcaClient.poolStore w !! poolKey x = None ->
  OrcaClient.poolStore (snd (OrcaClient.getPoolData env a w)) !! poolKey x
  = None
  /\ (a = x -> fst (OrcaClient.getPoolData env a w) = None).
Proof.
  intros Hx Hmiss.
  unfold OrcaClient.getPoolData, OrcaClient.poolCacheGet, mbind,
    OrcaClient.M_bind.
  destruct (ClientProps.getFromCache_cases (OrcaClient.poolStore w)
              (OrcaClient.now w) ("pool_" ++ a) OrcaClient.CACHE_TTL)
    as [(e & Hlook & Hage & ->) | (Hstale & ->)].
  - cbn. split; [exact Hmiss |]. intros ->.
    fold (poolKey x) in Hlook. congruence.
  - fold (poolKey a).
    assert (Hdel : delete (poolKey a) (OrcaClient.poolStore w) !! poolKey x
                   = None).
    { destruct (decide (poolKey a = poolKey x)) as [-> | Hne].
      - apply lookup_delete_eq.
      - now rewrite lookup_delete_ne. }
    destruct (OrcaClient.publicKey env a) eqn:Hkey; cbn;
      [| now split].
    destruct (OrcaClient.getAccountInfo env a) eqn:Hacc; cbn;
      try now split.
    split.
    + unfold OrcaClient.saveToCache. fold (poolKey a).
      rewrite lookup_insert_ne; [exact Hdel |].
      intros E. apply poolKey_inj in E. subst a. apply Hx. now split.
    + intros ->. exfalso. apply Hx. now split.
Qed.

Lemma getPriceData_missing (env : Env) (a x : string) (w : World) :
  ~ reachable env x ->
  OrcaClient.poolStore w !! poolKey x = None ->
  OrcaClient.poolStore (snd (OrcaClient.getPriceData env a w)) !! poolKey x
  = None.
Proof.
  intros Hx Hmiss.
  unfold OrcaClient.getPriceData, OrcaClient.priceCacheGet, mbind,
    OrcaClient.M_bind.
  destruct (OrcaClient.getFromCache _ _ _ _) as [[pd |] s]; cbn [fst snd];
    [exact Hmiss |].
  unfold OrcaClient.fetchPriceDataFromAPI, mbind, OrcaClient.M_bind.
  match goal with
  | |- context [OrcaClient.getPoolData env a ?x0] =>
      destruct (getPoolData_missing env a x x0 Hx Hmiss) as [H1 _];
      destruct (OrcaClient.getPoolData env a x0) as [[d |] w1]
  end; cbn in *; exact H1.
Qed.

Lemma fetchEntry_missing (env : Env) (entry : string * Pools.PoolConfig)
    (x : string) (w : World) :
  ~ reachable env x ->
  OrcaClient.poolStore w !! poolKey x = None ->
  OrcaClient.poolStore (snd (fetchEntry env entry w)) !! poolKey x = None
  /\ (Pools.address (snd entry) = x -> fst (fetchEntry env entry w) = None).
Proof.
  intros Hx Hmiss. destruct entry as [pid c]. cbn [snd].
  unfold fetchEntry, mbind, OrcaClient.M_bind.
  destruct (getPoolData_missing env (Pools.address c) x w Hx Hmiss)
    as [H1 Hnone].
  destruct (OrcaClient.getPoolData env (Pools.address c) w) as [r1 w1];
    cbn [fst snd] in *.
  pose proof (getPriceData_missing env (Pools.address c) x w1 Hx H1) as H2.
  destruct (OrcaClient.getPriceData env (Pools.address c) w1) as [r2 w2];
    cbn [fst snd] in *.
  destruct r1 as [d |].
  2: { cbn. split; [exact H2 | reflexivity]. }
  destruct r2 as [pd |].
  2: { cbn. split; [exact H2 | reflexivity]. }
  unfold aggregatePoolData, OrcaClient.calculateOptimalRange, mbind,
    OrcaClient.M_bind.
  pose proof (getPriceData_missing env (Pools.address c) x w2 Hx H2) as H3.
  destruct (OrcaClient.getPriceData env (Pools.address c) w2) as [r3 w3];
    cbn [fst snd] in *.
  destruct r3 as [pd3 |]; cbn; (split; [exact H3 |]);
    intros E; specialize (Hnone E); discriminate.
Qed.

(** X14.  A pool the node does not answer for, and that the
    storage holds nothing of, is left out of the result of [getPoolsData],
    and costs the others nothing: the pools resolved are the other known
    ids, in the order asked. *)
Theorem getPoolsData_skips_unreachable (env : Env) (ids : list string)
    (w : World) (x : string) (cx : Pools.PoolConfig) :
  get Pools.SUPPORTED_POOLS x = Some cx ->
  ~ reachable env (Pools.address cx) ->
  OrcaClient.poolStore w !! poolKey (Pools.address cx) = None ->
  (forall id c, In id ids -> id <> x ->
                get Pools.SUPPORTED_POOLS id = Some c ->
                reachable env (Pools.address c)) ->
  List.map poolId (fst (getPoolsData env ids w))
  = List.filter (fun id => known id && negb (String.eqb id x)) ids.
Proof.
  intros Hcx Hx. revert w.
  induction ids as [| pid ids IH]; intros w Hmiss Hr; [reflexivity |].
  cbn [List.filter]. unfold known at 1.
  destruct (get Pools.SUPPORTED_POOLS pid) as [c |] eqn:Hc.
  2: { rewrite (getPoolsData_skip env pid ids w Hc). cbn [andb].
       apply IH; [exact Hmiss |]. intros id c' Hin. apply Hr. now right. }
  rewrite getPoolsData_cons, (fetchOne_known env pid c Hc).
  destruct (fetchEntry_missing env (pid, c) (Pools.address cx) w Hx Hmiss)
    as [Hmiss1 Hnone]. cbn [snd] in Hnone.
  destruct (String.eqb_spec pid x) as [-> | Hne]; cbn [andb negb].
  - assert (c = cx) by congruence. subst c.
    specialize (Hnone eq_refl).
    destruct (fetchEntry env (x, cx) w) as [one w1]; cbn [fst snd] in *.
    subst one.
    specialize (IH w1 Hmiss1 ltac:(intros id c' Hin; apply Hr; now right)).
    now destruct (getPoolsData env ids w1) as [others w2].
  - destruct (fetchEntry_reachable env pid c w) as (p & Hp);
      [apply (Hr pid); [now left | exact Hne | exact Hc] |].
    destruct (fetchEntry_shape env pid c w p Hp) as [Hshape _].
    destruct (fetchEntry env (pid, c) w) as [one w1]; cbn [fst snd] in *.
    subst one.
    specialize (IH w1 Hmiss1 ltac:(intros id c' Hin; apply Hr; now right)).
    destruct (getPoolsData env ids w1) as [others w2]; cbn [fst] in *.
    cbn [List.map]. f_equal; [apply Hshape | exact IH].
Qed.

Lemma getPoolsData_skips_unreachable_witness :
  List.map poolId
    (fst (getPoolsData envWithoutWeth
            ["SOL_USDC"; "WETH_USDC"; "EURC_USDC"] Samples.w0))
  = ["SOL_USDC"; "EURC_USDC"].
Proof.
  apply (getPoolsData_skips_unreachable envWithoutWeth
           ["SOL_USDC"; "WETH_USDC"; "EURC_USDC"] Samples.w0
           "WETH_USDC" Pools.WETH_USDC eq_refl).
  - intros [_ H]. discriminate H.
  - apply lookup_empty.
  - intros id c Hin Hne Hc. split; [reflexivity |].
    cbn in Hin. destruct Hin as [<- | [<- | [<- | []]]];
      try (injection Hc as <-; reflexivity).
    now contradiction Hne.
Defined.

(** ** All the pools of the registry *)

(** X15.  [getAllPoolsData] is [getPoolsData] on the ids of the
    registry, in its order: the same pools, and the same world after. *)
Theorem getAllPoolsData_is_getPoolsData (env : Env) (w : World) :
  getAllPoolsData env w
  = getPoolsData env (keys Pools.SUPPORTED_POOLS) w.
Proof.
  unfold getAllPoolsData, Pools.SUPPORTED_POOLS.
  cbn [keys List.map fst fetchEntries getPoolsData].
  rewrite (fetchOne_known env "SOL_USDC" Pools.SOL_USDC eq_refl),
    (fetchOne_known env "CBBTC_USDC" Pools.CBBTC_USDC eq_refl),
    (fetchOne_known env "EURC_USDC" Pools.EURC_USDC eq_refl),
    (fetchOne_known env "USDT_USDC" Pools.USDT_USDC eq_refl),
    (fetchOne_known env "WETH_USDC" Pools.WETH_USDC eq_refl).
  reflexivity.
Qed.

End FetchProps.

(* ===================================================================== *)
(** * Properties of the allocation as shares *)
(* ===================================================================== *)

Module ShareProps.
Import JS JSFacts PoolDataAggregator Notions PortfolioNotions.
Import Pools(RiskLevel, low, medium, high).
Import AllocationProps.
#[local] Open Scope R_scope.

(** ** The weights as reals *)

(** The weight each pool reads after the normalization. *)
Lemma normalized_weights
    (pools : list AggregatedPoolData) (risk : RiskLevel) (vs : list R) :
  List.NoDup (List.map poolId pools) ->
  values (hedgeAdjusted pools (adjustWeightsForRiskTolerance pools risk))
    = List.map Num vs ->
  Spec.rsum vs <> 0 ->
  List.map (fun pool => get_or (finalWeights pools risk) (poolId pool) (Num 0))
           pools
  = List.map (fun x => Num (x / Spec.rsum vs)) vs.
Proof.
  intros Hnd Hvs Htotal.
  set (w := hedgeAdjusted pools (adjustWeightsForRiskTolerance pools risk))
    in *.
  assert (Hk : keys w = List.map poolId pools)
    by (apply hedgeAdjusted_keys, adjustWeights_keys, Hnd).
  assert (Hndw : List.NoDup (keys w)) by now rewrite Hk.
  set (tot := Spec.rsum vs) in *.
  assert (Hfinal : finalWeights pools risk
                   = List.map (fun kv => (fst kv, div (snd kv) (Num tot))) w).
  { unfold finalWeights, applyHedgeStrategy. fold w.
    rewrite normalize_map by exact Hndw. now rewrite Hvs, sum_Num. }
  assert (Hkeys : keys (finalWeights pools risk) = List.map poolId pools).
  { rewrite Hfinal. unfold keys. rewrite List.map_map. exact Hk. }
  assert (Hvals : values (finalWeights pools risk)
                  = List.map (fun x => Num (x / tot)) vs).
  { rewrite Hfinal. unfold values at 1. rewrite List.map_map. cbn [snd].
    rewrite <- (List.map_map snd (fun v => div v (Num tot))).
    fold (values w). rewrite Hvs, List.map_map.
    apply List.map_ext. intros x. now rewrite div_num. }
  rewrite <- (List.map_map poolId
                (fun k => get_or (finalWeights pools risk) k (Num 0))).
  rewrite <- Hkeys, get_or_keys_values by now rewrite Hkeys.
  rewrite Hvals, List.map_map. apply List.map_ext. intros x.
  apply or_else_zero.
Qed.

(** The allocation for real weights. *)
Lemma allocations_allot (pools : list AggregatedPoolData) (t : R)
    (risk : RiskLevel) (ws : list R) :
  List.map (fun pool => get_or (finalWeights pools risk) (poolId pool) (Num 0))
           pools
  = List.map Num ws ->
  calculateOptimalAllocations pools (Num t) risk = allot t pools ws.
Proof.
  unfold calculateOptimalAllocations.
  generalize (finalWeights pools risk) as fw. intros fw. revert ws.
  induction pools as [| p pools IH]; intros [| x ws] Hw;
    try discriminate; [reflexivity |].
  cbn [List.map] in Hw. injection Hw as Hx Hrest.
  cbn [List.map allot]. rewrite Hx. cbn [mul]. f_equal. now apply IH.
Qed.

Lemma allot_weights (t : R) (pools : list AggregatedPoolData) (ws : list R) :
  length pools = length ws ->
  List.map Spec.weightOf (allot t pools ws) = List.map Num ws
  /\ List.map Spec.amountOf (allot t pools ws)
     = List.map (fun x => Num (t * x)) ws
  /\ List.map poolId (allot t pools ws) = List.map poolId pools.
Proof.
  revert ws. induction pools as [| p pools IH]; intros [| x ws] Hlen;
    try discriminate; [repeat split |].
  injection Hlen as Hlen. destruct (IH ws Hlen) as (H1 & H2 & H3).
  cbn [allot List.map]. rewrite H1, H2, H3.
  unfold Spec.weightOf, Spec.amountOf.
  cbn [allocationSuggestion withAllocation percentage amount poolId].
  rewrite div_num by lra. repeat split. do 2 f_equal. field.
Qed.

(** ** Where every weight is a share *)

Lemma base_weights_positive (pools : list AggregatedPoolData)
    (risk : RiskLevel) :
  List.NoDup (List.map poolId pools) ->
  enough risk (length pools) ->
  Forall Spec.positive (values (adjustWeightsForRiskTolerance pools risk)).
Proof.
  intros Hnd Hn. unfold adjustWeightsForRiskTolerance, of_nat.
  assert (Hcount : forall k : Z, (k < Z.of_nat (length pools))%Z ->
            forall c : R, 0 < c ->
              Spec.positive
                (div (Num c) (sub (Num (IZR (Z.of_nat (length pools))))
                                  (Num (IZR k))))).
  { intros k Hk c Hc. cbn [sub neg add].
    assert (0 < IZR (Z.of_nat (length pools)) + - IZR k).
    { rewrite <- opp_IZR, <- plus_IZR. apply IZR_lt. lia. }
    rewrite div_num by lra. eexists. split; [reflexivity |].
    now apply Rdiv_lt_0_compat. }
  destruct risk;
    (eapply (fold_set_shape Spec.positive); [| exact Hnd | constructor]);
    intros w p.
  - destruct (_ || _); eexists; (split; [reflexivity |]).
    + rewrite div_num by lra. eexists. split; [reflexivity | lra].
    + apply (Hcount 2%Z); [cbn in Hn; lia | lra].
  - eexists. split; [reflexivity |]. apply default_weight_positive.
  - destruct (RiskLevel_eqb _ _); [| destruct (HedgeType_eqb _ _)];
      eexists; (split; [reflexivity |]).
    + rewrite div_num by lra. eexists. split; [reflexivity | lra].
    + eexists. split; [reflexivity | lra].
    + apply (Hcount 3%Z); [cbn in Hn; lia | lra].
Qed.

Lemma rsum_bounds_each (vs : list R) :
  Forall (fun x => 0 < x) vs -> Forall (fun x => x <= Spec.rsum vs) vs.
Proof.
  unfold Spec.rsum. induction 1 as [| x vs Hx Hvs IH]; constructor; cbn.
  - assert (0 <= fold_right Rplus 0 vs).
    { clear IH. induction Hvs; cbn; lra. }
    lra.
  - eapply Forall_impl; [exact IH |]. cbn. intros y Hy. lra.
Qed.

Lemma rsum_quotients (vs : list R) :
  Spec.rsum vs <> 0 ->
  Spec.rsum (List.map (fun x => x / Spec.rsum vs) vs) = 1.
Proof.
  intros Hne.
  rewrite (List.map_ext _ (fun x => / Spec.rsum vs * x))
    by (intros; unfold Rdiv; apply Rmult_comm).
  rewrite rsum_scaled. now apply Rinv_l.
Qed.

(** The allocation of a list of pools that is long enough for the risk
    tolerance. *)
Lemma shares (pools : list AggregatedPoolData) (risk : RiskLevel) :
  List.NoDup (List.map poolId pools) ->
  enough risk (length pools) ->
  exists ws : list R,
    List.map (fun pool => get_or (finalWeights pools risk) (poolId pool)
                                 (Num 0)) pools
    = List.map Num ws
    /\ (forall t : R,
          calculateOptimalAllocations pools (Num t) risk = allot t pools ws)
    /\ length pools = length ws
    /\ Forall (fun x => 0 < x <= 1) ws
    /\ Spec.rsum ws = 1.
Proof.
  intros Hnd Hn.
  pose proof (base_weights_positive pools risk Hnd Hn) as Hbase.
  pose proof (adjustWeights_keys pools risk Hnd) as Hk.
  pose proof (hedgeAdjusted_positive pools _ Hk Hbase) as Hpos.
  pose proof (hedgeAdjusted_keys pools _ Hk) as Hk'.
  destruct (positive_values _ Hpos) as (vs & Hvs & Hall).
  assert (Hlen : length pools = length vs).
  { apply (f_equal (@length _)) in Hvs, Hk'. unfold values, keys in *.
    rewrite !List.length_map in *. congruence. }
  assert (Hvne : vs <> []).
  { intros ->. destruct pools; [destruct risk; cbn in Hn; lia | discriminate]. }
  pose proof (rsum_positive vs Hvne Hall) as Htot.
  assert (Hw : List.map (fun pool => get_or (finalWeights pools risk)
                                            (poolId pool) (Num 0)) pools
               = List.map Num (List.map (fun x => x / Spec.rsum vs) vs)).
  { rewrite List.map_map.
    apply normalized_weights; [exact Hnd | exact Hvs | lra]. }
  exists (List.map (fun x => x / Spec.rsum vs) vs).
  split; [exact Hw |]. split; [| split; [| split]].
  - intros t. now apply allocations_allot.
  - now rewrite List.length_map.
  - apply Forall_map.
    pose proof (rsum_bounds_each vs Hall) as Hle.
    apply Forall_forall. intros x Hx.
    pose proof (proj1 (Forall_forall _ _) Hall x Hx) as H0.
    pose proof (proj1 (Forall_forall _ _) Hle x Hx) as H1. cbn in H0, H1.
    split.
    + now apply Rdiv_lt_0_compat.
    + apply (Rmult_le_reg_r (Spec.rsum vs)); [exact Htot |].
      unfold Rdiv. rewrite Rmult_assoc, Rinv_l by lra. lra.
  - apply rsum_quotients. lra.
Qed.

(** X16.  For pools with distinct ids, at least one with the medium
    tolerance, three with the low, four with the high, and whatever their
    volatility: the weights [calculateOptimalAllocations] gives are reals in
    (0, 1] that sum to 1; for a finite investment [t] every amount is [t]
    times the weight, and the amounts sum to [t]. *)
Theorem weights_are_shares (pools : list AggregatedPoolData) (T : number)
    (risk : RiskLevel) :
  List.NoDup (List.map poolId pools) ->
  enough risk (length pools) ->
  let allocated := calculateOptimalAllocations pools T risk in
  exists ws : list R,
    List.map Spec.weightOf allocated = List.map Num ws
    /\ Forall (fun x => 0 < x <= 1) ws
    /\ Spec.rsum ws = 1
    /\ forall t : R, T = Num t ->
         List.map Spec.amountOf allocated = List.map (fun x => Num (t * x)) ws
         /\ Spec.sum (List.map Spec.amountOf allocated) = Num t.
Proof.
  intros Hnd Hn allocated.
  destruct (shares pools risk Hnd Hn) as (ws & Hw & Hallot & Hlen & Hws & Hsum).
  exists ws. split; [| split; [exact Hws | split; [exact Hsum |]]].
  - subst allocated. unfold calculateOptimalAllocations.
    rewrite List.map_map. unfold Spec.weightOf.
    cbn [allocationSuggestion withAllocation percentage].
    erewrite List.map_ext by (intros; apply percent_roundtrip).
    exact Hw.
  - intros t ->. subst allocated. rewrite Hallot.
    destruct (allot_weights t pools ws Hlen) as (_ & Ha & _).
    split; [exact Ha |]. rewrite Ha.
    rewrite <- (List.map_map (fun x => t * x) Num), sum_Num, rsum_scaled.
    f_equal. rewrite Hsum. lra.
Qed.

Lemma weights_are_shares_witness :
  exists ws : list R,
    List.map Spec.weightOf
      (calculateOptimalAllocations Samples.volatileFive (Num 10000) high)
    = List.map Num ws
    /\ Forall (fun x => 0 < x <= 1) ws /\ Spec.rsum ws = 1
    /\ Spec.sum (List.map Spec.amountOf
                   (calculateOptimalAllocations Samples.volatileFive
                      (Num 10000) high))
       = Num 10000.
Proof.
  destruct (weights_are_shares Samples.volatileFive (Num 10000) high
              volatileFive_ids_distinct) as (ws & H1 & H2 & H3 & H4).
  { cbn. lia. }
  exists ws. repeat split; try assumption. now apply H4.
Defined.

(** ** The metrics of a portfolio of shares *)

Lemma allocationAmount_allot (t w : R) (p : AggregatedPoolData) :
  allocationAmount
    (withAllocation p {| amount := Num (t * w); percentage := Num (w * 100) |})
  = Num (t * w)
  /\ allocationPercentage
       (withAllocation p {| amount := Num (t * w);
                            percentage := Num (w * 100) |})
     = Num (w * 100).
Proof.
  unfold allocationAmount, allocationPercentage.
  cbn [allocationSuggestion withAllocation amount percentage].
  now rewrite !or_else_zero.
Qed.

Lemma yield_allot (t : R) (pools : list AggregatedPoolData) (ws ys : list R) :
  length pools = length ws ->
  List.map apy pools = List.map Num ys ->
  calculateExpectedDailyYield (allot t pools ws)
  = Num (t * dot ws ys / 365 / 100).
Proof.
  intros Hlen Hys. rewrite calculateExpectedDailyYield_sum.
  assert (E : List.map Spec.dailyYieldOf (allot t pools ws)
              = List.map Num
                  (List.map (fun wy => t * (fst wy * snd wy) / 365 / 100)
                            (List.combine ws ys))
              /\ dot ws ys
                 = Spec.rsum (List.map (fun wy => fst wy * snd wy)
                                       (List.combine ws ys))).
  { revert ws ys Hlen Hys.
    induction pools as [| p pools IH]; intros [| w ws] [| y ys] Hlen Hys;
      try discriminate; [now split |].
    injection Hlen as Hlen. cbn [List.map] in Hys. injection Hys as Hy Hys.
    destruct (IH ws ys Hlen Hys) as [E1 E2].
    cbn [allot List.map List.combine dot fst snd Spec.rsum fold_right].
    fold (Spec.rsum (List.map (fun wy => fst wy * snd wy)
                              (List.combine ws ys))).
    rewrite E1, <- E2. split; [| reflexivity]. f_equal.
    unfold Spec.dailyYieldOf.
    destruct (allocationAmount_allot t w p) as [-> _].
    change (apy (withAllocation p _)) with (apy p). rewrite Hy.
    cbn [mul]. rewrite !div_num by lra. f_equal. field. }
  destruct E as [-> ->]. rewrite sum_Num. f_equal.
  generalize (List.combine ws ys) as l. intros l. unfold Spec.rsum.
  induction l as [| wy l IH]; cbn; [lra | rewrite IH; lra].
Qed.

(** X17.  For pools with distinct ids, enough for the tolerance
    (one with the medium, three with the low, four with the high) and with
    finite APYs, the expected daily yield is the investment times the
    weighted mean of the APYs, over 365 and over 100; the percentage a
    recommendation reports
    (the yield over the investment, times 100) is the weighted mean APY
    over 365 for an investment other than 0, and [NaN] for 0. *)
Theorem daily_yield_is_weighted_apy (pools : list AggregatedPoolData)
    (t : R) (risk : RiskLevel) (ys : list R) :
  List.NoDup (List.map poolId pools) ->
  enough risk (length pools) ->
  List.map apy pools = List.map Num ys ->
  let allocated := calculateOptimalAllocations pools (Num t) risk in
  let daily := calculateExpectedDailyYield allocated in
  exists ws : list R,
    List.map Spec.weightOf allocated = List.map Num ws
    /\ Spec.rsum ws = 1
    /\ daily = Num (t * dot ws ys / 365 / 100)
    /\ (t <> 0 -> mul (div daily (Num t)) (Num 100) = Num (dot ws ys / 365))
    /\ (t = 0 -> mul (div daily (Num t)) (Num 100) = NaN).
Proof.
  intros Hnd Hn Hys allocated daily. subst daily allocated.
  destruct (shares pools risk Hnd Hn) as (ws & _ & Hallot & Hlen & _ & Hsum).
  exists ws. rewrite Hallot.
  destruct (allot_weights t pools ws Hlen) as (Hw & _ & _).
  rewrite (yield_allot t pools ws ys Hlen Hys).
  repeat split; try assumption.
  - intros Ht. rewrite div_num by exact Ht. cbn [mul]. f_equal. now field.
  - intros ->. unfold div. rewrite sgn_zero.
    replace (0 * dot ws ys / 365 / 100) with 0 by lra.
    now rewrite sgn_zero.
Qed.

Lemma daily_yield_is_weighted_apy_witness :
  let allocated :=
    calculateOptimalAllocations Samples.calmSolAndEurc (Num 10000) medium in
  exists ws : list R,
    List.map Spec.weightOf allocated = List.map Num ws
    /\ mul (div (calculateExpectedDailyYield allocated) (Num 10000)) (Num 100)
       = Num (dot ws [12.4; 4.2] / 365).
Proof.
  destruct (daily_yield_is_weighted_apy Samples.calmSolAndEurc 10000 medium
              [12.4; 4.2]) as (ws & Hw & _ & _ & Hp & _).
  - repeat (constructor; [cbn; intuition discriminate |]). constructor.
  - cbn. lia.
  - reflexivity.
  - exists ws. split; [exact Hw | apply Hp; lra].
Defined.

(** The weighted risk of a portfolio of shares. *)
Lemma risk_allot (t : R) (pools : list AggregatedPoolData) (ws : list R) :
  length pools = length ws ->
  fold_left (fun total pool =>
      add total (mul (div (allocationPercentage pool) (Num 100))
                     (riskScore (riskLevel pool))))
    (allot t pools ws) (Num 0)
  = Num (dot ws (List.map (fun p => rscore (riskLevel p)) pools)).
Proof.
  intros Hlen.
  assert (H : forall acc : R,
            fold_left (fun total pool =>
                add total (mul (div (allocationPercentage pool) (Num 100))
                               (riskScore (riskLevel pool))))
              (allot t pools ws) (Num acc)
            = Num (acc + dot ws (List.map (fun p => rscore (riskLevel p))
                                          pools))).
  { revert ws Hlen. induction pools as [| p pools IH]; intros [| w ws] Hlen acc;
      try discriminate; [cbn; f_equal; lra |].
    injection Hlen as Hlen. cbn [allot fold_left List.map dot].
    destruct (allocationAmount_allot t w p) as [_ ->].
    change (riskLevel (withAllocation p _)) with (riskLevel p).
    rewrite div_num by lra.
    assert (Hs : riskScore (riskLevel p) = Num (rscore (riskLevel p)))
      by now destruct (riskLevel p).
    rewrite Hs. cbn [mul add]. rewrite (IH ws Hlen). f_equal. field. }
  rewrite H. f_equal. lra.
Qed.

(** A sum of shares weighted by scores lies between the scores. *)
Lemma dot_between (lo hi : R) (ws ss : list R) :
  length ws = length ss ->
  Forall (fun x => 0 < x <= 1) ws ->
  Forall (fun s => lo <= s <= hi) ss ->
  lo * Spec.rsum ws <= dot ws ss <= hi * Spec.rsum ws.
Proof.
  unfold Spec.rsum. intros Hlen Hws. revert ss Hlen.
  induction Hws as [| w ws Hw _ IH]; intros [| s ss] Hlen Hss;
    try discriminate; [cbn; lra |].
  injection Hlen as Hlen. apply Forall_cons in Hss as [Hs Hss].
  specialize (IH ss Hlen Hss). cbn [dot fold_right]. nra.
Qed.

(** X18.  For pools with distinct ids, enough for the tolerance
    (one with the medium, three with the low, four with the high), the risk
    [assessPortfolioRisk] gives the portfolio stays among those of its pools:
    it is the level all the pools share when they share one, it is not low
    when no pool is, and not high when no pool is. *)
Theorem portfolio_risk_between_pools (pools : list AggregatedPoolData)
    (t : R) (risk : RiskLevel) :
  List.NoDup (List.map poolId pools) ->
  enough risk (length pools) ->
  let assessed :=
    assessPortfolioRisk (calculateOptimalAllocations pools (Num t) risk) in
  (forall r, Forall (fun p => riskLevel p = r) pools -> assessed = r)
  /\ (Forall (fun p => riskLevel p <> low) pools -> assessed <> low)
  /\ (Forall (fun p => riskLevel p <> high) pools -> assessed <> high).
Proof.
  intros Hnd Hn assessed. subst assessed.
  destruct (shares pools risk Hnd Hn) as (ws & _ & Hallot & Hlen & Hws & Hsum).
  rewrite Hallot. unfold assessPortfolioRisk.
  rewrite (risk_allot t pools ws Hlen).
  set (ss := List.map (fun p => rscore (riskLevel p)) pools).
  assert (Hlens : length ws = length ss)
    by (unfold ss; now rewrite List.length_map).
  assert (Hbetween : forall lo hi,
            Forall (fun p => lo <= rscore (riskLevel p) <= hi) pools ->
            lo <= dot ws ss <= hi).
  { intros lo hi Hp.
    pose proof (dot_between lo hi ws ss Hlens Hws) as H.
    rewrite Hsum in H. unfold ss in H |- *. rewrite Forall_map in H.
    specialize (H Hp). lra. }
  unfold lt.
  split; [| split].
  - intros r Hr.
    destruct (Hbetween (rscore r) (rscore r)) as [H1 H2].
    { eapply Forall_impl; [exact Hr |]. cbn. intros p ->. lra. }
    destruct r; cbn [rscore] in H1, H2;
      repeat match goal with
             | |- context [Rlt_dec ?a ?b] => destruct (Rlt_dec a b)
             end; try reflexivity; lra.
  - intros Hr.
    destruct (Hbetween 2 3) as [H1 H2].
    { eapply Forall_impl; [exact Hr |]. cbn. intros p Hp.
      destruct (riskLevel p); cbn; try lra. now contradiction Hp. }
    destruct (Rlt_dec (dot ws ss) 1.5); [lra |].
    destruct (Rlt_dec (dot ws ss) 2.5); discriminate.
  - intros Hr.
    destruct (Hbetween 1 2) as [H1 H2].
    { eapply Forall_impl; [exact Hr |]. cbn. intros p Hp.
      destruct (riskLevel p); cbn; try lra. now contradiction Hp. }
    destruct (Rlt_dec (dot ws ss) 1.5); [discriminate |].
    destruct (Rlt_dec (dot ws ss) 2.5); [discriminate | lra].
Qed.

Lemma portfolio_risk_between_pools_witness :
  assessPortfolioRisk (calculateOptimalAllocations calmStables (Num 10000)
                         medium) = low
  /\ assessPortfolioRisk
       (calculateOptimalAllocations Samples.volatileBluechips (Num 10000)
          medium) <> low.
Proof.
  split.
  - apply (portfolio_risk_between_pools calmStables 10000 medium).
    + repeat (constructor; [cbn; intuition discriminate |]). constructor.
    + cbn. lia.
    + repeat constructor.
  - apply (portfolio_risk_between_pools Samples.volatileBluechips 10000
             medium).
    + repeat (constructor; [cbn; intuition discriminate |]). constructor.
    + cbn. lia.
    + repeat constructor; discriminate.
Defined.

(** The hedge ratio of a portfolio of shares. *)
Lemma hedge_allot (t : R) (pools : list AggregatedPoolData) (ws : list R) :
  length pools = length ws ->
  calculateHedgeRatio (allot t pools ws)
  = Num (100 * dot ws (List.map (fun p => if isHedge p then 1 else 0) pools)).
Proof.
  intros Hlen. unfold calculateHedgeRatio.
  assert (H : forall acc : R,
            fold_left (fun sum p => add sum (allocationPercentage p))
              (List.filter
                 (fun p => HedgeType_eqb (hedgeType p) Pools.hedge
                           || HedgeType_eqb (hedgeType p) Pools.stablecoin)
                 (allot t pools ws))
              (Num acc)
            = Num (acc + 100 * dot ws (List.map
                                         (fun p => if isHedge p then 1 else 0)
                                         pools))).
  { revert ws Hlen. induction pools as [| p pools IH]; intros [| w ws] Hlen acc;
      try discriminate; [cbn; f_equal; lra |].
    injection Hlen as Hlen. cbn [allot List.filter List.map dot].
    change (hedgeType (withAllocation p _)) with (hedgeType p).
    unfold isHedge at 1.
    destruct (HedgeType_eqb (hedgeType p) Pools.hedge
              || HedgeType_eqb (hedgeType p) Pools.stablecoin).
    - cbn [fold_left].
      destruct (allocationAmount_allot t w p) as [_ ->]. cbn [add].
      rewrite (IH ws Hlen). f_equal. lra.
    - rewrite (IH ws Hlen). f_equal. lra. }
  rewrite H. f_equal. lra.
Qed.

(** X19.  For pools with distinct ids, enough for the tolerance
    (one with the medium, three with the low, four with the high),
    [calculateHedgeRatio] is a percentage between 0 and 100: 0 when no pool is a hedge or a stablecoin
    pair, 100 when all are, and positive as soon as one is. *)
Theorem hedge_ratio_is_hedged_share (pools : list AggregatedPoolData)
    (t : R) (risk : RiskLevel) :
  List.NoDup (List.map poolId pools) ->
  enough risk (length pools) ->
  let ratio :=
    calculateHedgeRatio (calculateOptimalAllocations pools (Num t) risk) in
  within 0 100 ratio
  /\ (Forall (fun p => isHedge p = false) pools -> ratio = Num 0)
  /\ (Forall (fun p => isHedge p = true) pools -> ratio = Num 100)
  /\ (Exists (fun p => isHedge p = true) pools ->
      exists h : R, ratio = Num h /\ 0 < h).
Proof.
  intros Hnd Hn ratio. subst ratio.
  destruct (shares pools risk Hnd Hn) as (ws & _ & Hallot & Hlen & Hws & Hsum).
  rewrite Hallot, (hedge_allot t pools ws Hlen).
  set (f := fun p : AggregatedPoolData => if isHedge p then 1 else 0).
  assert (Hlens : length ws = length (List.map f pools))
    by now rewrite List.length_map.
  assert (Hbetween : forall lo hi,
            Forall (fun p => lo <= f p <= hi) pools ->
            lo <= dot ws (List.map f pools) <= hi).
  { intros lo hi Hp.
    pose proof (dot_between lo hi ws _ Hlens Hws) as H.
    rewrite Hsum, Forall_map in H. specialize (H Hp). lra. }
  split; [| split; [| split]].
  - destruct (Hbetween 0 1) as [H1 H2].
    { apply Forall_forall. intros p _. unfold f.
      destruct (isHedge p); lra. }
    eexists. split; [reflexivity | lra].
  - intros Hnone. destruct (Hbetween 0 0) as [H1 H2].
    { eapply Forall_impl; [exact Hnone |]. cbn. unfold f.
      intros p ->. lra. }
    f_equal. lra.
  - intros Hall. destruct (Hbetween 1 1) as [H1 H2].
    { eapply Forall_impl; [exact Hall |]. cbn. unfold f.
      intros p ->. lra. }
    f_equal. lra.
  - intros Hex. eexists. split; [reflexivity |].
    clear Hbetween Hallot Hsum Hn Hnd Hlens.
    revert ws Hlen Hws.
    induction Hex as [p pools Hp | p pools Hex IH]; intros [| w ws] Hlen Hws;
      try discriminate; injection Hlen as Hlen;
      apply Forall_cons in Hws as [Hw Hws]; cbn [List.map dot].
    + assert (0 <= dot ws (List.map f pools)).
      { pose proof (dot_between 0 1 ws (List.map f pools)) as H.
        rewrite List.length_map in H. specialize (H (eq_sym Hlen) Hws).
        rewrite Forall_map in H.
        assert (Hf : Forall (fun p => 0 <= f p <= 1) pools)
          by (apply Forall_forall; intros q _; unfold f;
              destruct (isHedge q); lra).
        specialize (H Hf). lra. }
      unfold f at 1. rewrite Hp. lra.
    + specialize (IH ws Hlen Hws).
      assert (0 <= f p) by (unfold f; destruct (isHedge p); lra).
      nra.
Qed.

Lemma hedge_ratio_is_hedged_share_witness :
  calculateHedgeRatio (calculateOptimalAllocations calmStables (Num 10000)
                         medium) = Num 100
  /\ calculateHedgeRatio
       (calculateOptimalAllocations Samples.volatileBluechips (Num 10000)
          medium) = Num 0.
Proof.
  split.
  - apply (hedge_ratio_is_hedged_share calmStables 10000 medium).
    + repeat (constructor; [cbn; intuition discriminate |]). constructor.
    + cbn. lia.
    + repeat constructor.
  - apply (hedge_ratio_is_hedged_share Samples.volatileBluechips 10000
             medium).
    + repeat (constructor; [cbn; intuition discriminate |]). constructor.
    + cbn. lia.
    + repeat constructor.
Defined.

(** ** Below the count a risk tolerance divides by *)

(** The high risk tolerance on two pools, one of high risk and one that is
    neither of high risk nor the hedge, on a calm day: the second pool's
    base weight is [0.35 / (2 - 3)]. *)
Lemma high_risk_two_pools (p q : AggregatedPoolData) :
  poolId p <> poolId q ->
  riskLevel p = high -> riskLevel q <> high -> hedgeType q <> Pools.hedge ->
  gt (avgVolatility [p; q]) (Num 5) = false ->
  adjustWeightsForRiskTolerance [p; q] high
  = [(poolId p, Num 0.25); (poolId q, Num (-0.35))]
  /\ finalWeights [p; q] high
     = [(poolId p, Num (-2.5)); (poolId q, Num 3.5)].
Proof.
  intros Hne Hp Hq Hh Hcalm.
  assert (Hpq : String.eqb (poolId p) (poolId q) = false)
    by now apply String.eqb_neq.
  assert (Hqp : String.eqb (poolId q) (poolId p) = false)
    by (apply String.eqb_neq; congruence).
  assert (Hbase : adjustWeightsForRiskTolerance [p; q] high
                  = [(poolId p, Num 0.25); (poolId q, Num (-0.35))]).
  { unfold adjustWeightsForRiskTolerance, of_nat. cbn [fold_left length].
    rewrite Hp.
    assert (RiskLevel_eqb (riskLevel q) high = false) as ->
      by (destruct (riskLevel q); try reflexivity; now contradiction Hq).
    assert (HedgeType_eqb (hedgeType q) Pools.hedge = false) as ->
      by (destruct (hedgeType q); try reflexivity; now contradiction Hh).
    cbn [RiskLevel_eqb set]. rewrite Hpq. cbn [set].
    js_eval. js_done. }
  split; [exact Hbase |].
  unfold finalWeights, applyHedgeStrategy, hedgeAdjusted.
  rewrite Hcalm, Hbase. unfold normalize.
  cbn [values keys List.map fst snd fold_left add get set].
  rewrite !String.eqb_refl, ?Hpq, ?Hqp. cbn [get set].
  rewrite !String.eqb_refl, ?Hpq, ?Hqp.
  js_eval. js_done.
Qed.

(** X20.  With the high tolerance and two pools the weights leave
    (0, 1]: [generateRecommendations] on SOL_USDC and CBBTC_USDC, for any
    finite investment [t] and on any data the client makes, resolves with
    -250 percent ([-2.5 t]) for SOL_USDC and 350 percent ([3.5 t]) for
    CBBTC_USDC. *)
Theorem high_risk_two_pools_go_short (env : OrcaClient.Env) (t : R)
    (fees : number) (w : OrcaClient.World) :
  fair (OrcaClient.random env) -> calmCache w ->
  reachable env (Pools.address Pools.SOL_USDC) ->
  reachable env (Pools.address Pools.CBBTC_USDC) ->
  exists (p : PortfolioRecommendation) (w' : OrcaClient.World),
    generateRecommendations env (Num t) fees ["SOL_USDC"; "CBBTC_USDC"] high w
    = (OrcaClient.Resolved p, w')
    /\ List.map poolId (pools p) = ["SOL_USDC"; "CBBTC_USDC"]
    /\ List.map allocationSuggestion (pools p)
       = [ Some {| amount := Num (t * -2.5); percentage := Num (-250) |};
           Some {| amount := Num (t * 3.5); percentage := Num 350 |} ].
Proof.
  intros Hfair Hw Hsol Hbtc.
  rewrite generateRecommendations_unfold.
  pose proof (FetchProps.getPoolsData_reachable env
                ["SOL_USDC"; "CBBTC_USDC"] w) as Hids.
  destruct (FetchProps.getPoolsData_sublist env
              ["SOL_USDC"; "CBBTC_USDC"] w) as [_ Hshape].
  destruct (FetchProps.getPoolsData_calm env ["SOL_USDC"; "CBBTC_USDC"] w
              Hfair Hw) as [_ Hcalm].
  destruct (getPoolsData env ["SOL_USDC"; "CBBTC_USDC"] w) as [resolved w'].
  cbn [fst snd] in *.
  assert (Hr : List.map poolId resolved = ["SOL_USDC"; "CBBTC_USDC"]).
  { apply Hids. intros id c [<- | [<- | []]] [= <-]; assumption. }
  destruct resolved as [| p [| q [| r resolved]]]; try discriminate.
  injection Hr as Hp Hq.
  apply Forall_cons in Hshape as [(cp & Hcp & Hfp) Hshape].
  apply Forall_cons in Hshape as [(cq & Hcq & Hfq) _].
  rewrite Hp in Hcp. rewrite Hq in Hcq.
  injection Hcp as <-. injection Hcq as <-.
  destruct Hfp as (_ & _ & _ & Hrp & _). destruct Hfq as (_ & _ & _ & Hrq & Hhq & _).
  destruct (high_risk_two_pools p q) as [_ Hfw].
  { rewrite Hp, Hq. discriminate. }
  { exact Hrp. }
  { rewrite Hrq. discriminate. }
  { rewrite Hhq. discriminate. }
  { now apply FetchProps.avgVolatility_calm. }
  do 2 eexists. split; [reflexivity |]. cbn [pools].
  split; [rewrite calculateOptimalAllocations_ids; cbn; now rewrite Hp, Hq |].
  unfold calculateOptimalAllocations. rewrite Hfw.
  cbn [List.map allocationSuggestion withAllocation].
  unfold get_or. cbn [get]. rewrite !String.eqb_refl.
  assert (String.eqb (poolId p) (poolId q) = false) as ->
    by (rewrite Hp, Hq; reflexivity).
  js_eval. js_done.
Qed.

Lemma high_risk_two_pools_go_short_witness :
  exists (p : PortfolioRecommendation) (w' : OrcaClient.World),
    generateRecommendations Samples.env0 (Num 10000) (Num 1)
      ["SOL_USDC"; "CBBTC_USDC"] high Samples.w0
    = (OrcaClient.Resolved p, w')
    /\ List.map allocationSuggestion (pools p)
       = [ Some {| amount := Num (10000 * -2.5); percentage := Num (-250) |};
           Some {| amount := Num (10000 * 3.5); percentage := Num 350 |} ].
Proof.
  destruct (high_risk_two_pools_go_short Samples.env0 10000 (Num 1)
              Samples.w0 FetchProps.fair_half
              (FetchProps.calmCache_empty _ _ _ _)
              (conj eq_refl eq_refl) (conj eq_refl eq_refl))
    as (p & w' & Hrun & _ & Halloc).
  exists p, w'. split; [exact Hrun | exact Halloc].
Defined.

(** ** From the selection to the shares *)

(** X21.  [generateRecommendations] from end to end.  When the
    requested ids the registry knows are distinct and enough for the
    tolerance (one with the medium, three with the low, four with the
    high), and the node answers for each, it resolves with the
    investment [t] it was given and the known ids in the order asked; the
    weights are in (0, 1] and sum to 1, every amount is [t] times the
    weight, and the amounts sum to [t]. *)
Theorem recommendation_is_well_formed (env : OrcaClient.Env) (t : R)
    (fees : number) (ids : list string) (risk : RiskLevel)
    (w : OrcaClient.World) :
  List.NoDup (List.filter known ids) ->
  enough risk (length (List.filter known ids)) ->
  (forall id c, In id ids -> get Pools.SUPPORTED_POOLS id = Some c ->
                reachable env (Pools.address c)) ->
  exists (p : PortfolioRecommendation) (w' : OrcaClient.World) (ws : list R),
    generateRecommendations env (Num t) fees ids risk w
    = (OrcaClient.Resolved p, w')
    /\ totalInvestment p = Num t
    /\ List.map poolId (pools p) = List.filter known ids
    /\ List.map Spec.weightOf (pools p) = List.map Num ws
    /\ Forall (fun x => 0 < x <= 1) ws
    /\ Spec.rsum ws = 1
    /\ List.map Spec.amountOf (pools p) = List.map (fun x => Num (t * x)) ws
    /\ Spec.sum (List.map Spec.amountOf (pools p)) = Num t.
Proof.
  intros Hnd Hn Hr.
  rewrite generateRecommendations_unfold.
  pose proof (FetchProps.getPoolsData_reachable env ids w Hr) as Hids.
  destruct (getPoolsData env ids w) as [resolved w']. cbn [fst] in Hids.
  rewrite <- Hids in Hnd, Hn. rewrite List.length_map in Hn.
  destruct (shares resolved risk Hnd Hn)
    as (ws & _ & Hallot & Hlen & Hws & Hsum).
  destruct (allot_weights t resolved ws Hlen) as (Hw & Ha & Hi).
  eexists _, w', ws. split; [reflexivity |]. cbn [totalInvestment pools].
  rewrite Hallot, Hw, Ha, Hi.
  repeat split; try assumption.
  rewrite <- (List.map_map (fun x => t * x) Num), sum_Num, rsum_scaled.
  f_equal. rewrite Hsum. lra.
Qed.

Lemma recommendation_is_well_formed_witness :
  exists (p : PortfolioRecommendation) (w' : OrcaClient.World) (ws : list R),
    generateRecommendations Samples.env0 (Num 10000) (Num 1)
      ["SOL_USDC"; "DOGE_USDC"; "EURC_USDC"; "USDT_USDC"] low Samples.w0
    = (OrcaClient.Resolved p, w')
    /\ List.map poolId (pools p) = ["SOL_USDC"; "EURC_USDC"; "USDT_USDC"]
    /\ List.map Spec.weightOf (pools p) = List.map Num ws
    /\ Spec.rsum ws = 1
    /\ Spec.sum (List.map Spec.amountOf (pools p)) = Num 10000.
Proof.
  destruct (recommendation_is_well_formed Samples.env0 10000 (Num 1)
              ["SOL_USDC"; "DOGE_USDC"; "EURC_USDC"; "USDT_USDC"] low
              Samples.w0)
    as (p & w' & ws & Hrun & _ & Hids & Hw & _ & Hsum & _ & Hamt).
  - repeat (constructor; [cbn; intuition discriminate |]). constructor.
  - cbn. lia.
  - intros id c _ _. split; reflexivity.
  - exists p, w', ws. repeat split; assumption.
Defined.

End ShareProps.

(* ===================================================================== *)
(** * Properties of the portfolio metrics *)
(* ===================================================================== *)

Module MetricProps.
Import JS JSFacts PoolDataAggregator Notions PortfolioNotions.
Import Pools(RiskLevel, low, medium, high).
Import AllocationProps.
#[local] Open Scope R_scope.

(** ** The estimate of the impermanent loss *)

(** X22.  [estimateImpermanentLoss], for a finite 24h change [c], is
    [- |c| 0.1 k] with [k] 0.5, 1 and 1.5 for the low, medium and high
    level: never a gain, no smaller in size for a riskier level, zero
    for an unchanged price only, the same for a rise as for a fall, and no more
    than 0.75 in size for a change of at most 5 percent. *)
Theorem estimateImpermanentLoss_is_a_loss (c : R) :
  let loss r := estimateImpermanentLoss (Num c) r in
  let size r := Rabs c * 0.1 * match r with
                                | low => 0.5 | medium => 1 | high => 1.5
                                end in
  (forall r, loss r = Num (- size r) /\ - size r <= 0)
  /\ - size high <= - size medium <= - size low
  /\ (forall r, loss r = Num 0 <-> c = 0)
  /\ (forall r, estimateImpermanentLoss (Num (- c)) r = loss r)
  /\ (Rabs c <= 5 -> forall r, -0.75 <= - size r).
Proof.
  intros loss size. subst loss size. cbv beta.
  pose proof (Rabs_pos c) as Hc.
  assert (Hval : forall r,
            estimateImpermanentLoss (Num c) r
            = Num (- (Rabs c * 0.1 * match r with
                                     | low => 0.5 | medium => 1 | high => 1.5
                                     end))).
  { intros r. unfold estimateImpermanentLoss. cbn [abs mul neg].
    destruct r; reflexivity. }
  split; [| split; [| split; [| split]]].
  - intros r. split; [apply Hval |]. destruct r; nra.
  - nra.
  - intros r. rewrite Hval. split.
    + intros [= E]. destruct (Req_dec c 0) as [-> | Hne]; [reflexivity |].
      pose proof (Rabs_pos_lt c Hne). destruct r; nra.
    + intros ->. rewrite Rabs_R0. f_equal. destruct r; lra.
  - intros r. unfold estimateImpermanentLoss. cbn [abs].
    now rewrite Rabs_Ropp.
  - intros Hb r. destruct r; nra.
Qed.

(** ** The correlation score *)

Ltac key_cases :=
  repeat match goal with
         | |- context [String.eqb ?k ?id] =>
             is_var id; destruct (String.eqb_spec k id) as [<- | ?]
         end.

(** Comparisons of two keys that are both known. *)
Ltac known_keys :=
  repeat (match goal with
          | |- context [String.eqb ?x ?y] =>
              first [ is_var x; fail 1 | is_var y; fail 1 | idtac ];
              let v := eval vm_compute in (String.eqb x y) in
              change (String.eqb x y) with v
          end; cbv iota).

Lemma correlation_cases (a b : string) :
  correlation a b = correlation b a
  /\ exists c : R, abs (correlation a b) = Num c /\ 0 <= c <= 0.85.
Proof.
  unfold correlation, Pools.POOL_CORRELATIONS, get_or.
  cbn [get].
  repeat (progress (key_cases; known_keys; cbn [get]));
    try congruence;
    (split; [reflexivity |]);
    unfold or_else, truthy;
    repeat match goal with
           | |- context [Req_dec_T ?x ?y] => destruct (Req_dec_T x y)
           end;
    cbn [abs]; eexists; (split; [reflexivity |]);
    unfold Rabs;
    repeat match goal with
           | |- context [Rcase_abs ?x] => destruct (Rcase_abs x)
           end; lra.
Qed.

Lemma link_sym (p q : AggregatedPoolData) : link p q = link q p.
Proof.
  unfold link. now destruct (correlation_cases (poolId p) (poolId q)) as [-> _].
Qed.

(** The inner loop, then the two loops, of [calculateCorrelationScore]. *)
Lemma correlation_row (p : AggregatedPoolData) (rest : list AggregatedPoolData)
    (total : number) (count : nat) :
  fold_left (fun '(totalCorrelation, pairCount) pj =>
               (add totalCorrelation
                    (abs (correlation (poolId p) (poolId pj))),
                S pairCount))
            rest (total, count)
  = (add total (fold_right (fun q acc => add (link p q) acc) (Num 0) rest),
     (count + length rest)%nat).
Proof.
  revert total count. induction rest as [| q rest IH]; intros total count.
  - cbn. now rewrite add_0_r, Nat.add_0_r.
  - cbn [fold_left fold_right length]. rewrite IH.
    fold (link p q). rewrite add_assoc. f_equal. lia.
Qed.

Lemma correlationPairs_sum (pools : list AggregatedPoolData)
    (total : number) (count : nat) :
  correlationPairs pools (total, count)
  = (add total (pairSum pools), (count + pairCount pools)%nat).
Proof.
  revert total count. induction pools as [| p rest IH]; intros total count.
  - cbn. now rewrite add_0_r, Nat.add_0_r.
  - cbn [correlationPairs pairSum pairCount].
    rewrite correlation_row, IH, <- add_assoc. f_equal. lia.
Qed.

Lemma pairCount_length (pools : list AggregatedPoolData) :
  (2 * pairCount pools = length pools * (length pools - 1))%nat.
Proof.
  induction pools as [| p rest IH]; [reflexivity |].
  cbn [pairCount length]. destruct rest as [| q rest]; [reflexivity |].
  cbn [length] in *. nia.
Qed.

Lemma row_perm (p : AggregatedPoolData) (l l' : list AggregatedPoolData) :
  Permutation l l' ->
  fold_right (fun q acc => add (link p q) acc) (Num 0) l
  = fold_right (fun q acc => add (link p q) acc) (Num 0) l'.
Proof.
  induction 1 as [| x l l' _ IH | x y l | l l' l'' _ IH1 _ IH2]; cbn.
  - reflexivity.
  - now rewrite IH.
  - rewrite !add_assoc. f_equal. apply add_comm.
  - now rewrite IH1.
Qed.

Lemma pairSum_perm (l l' : list AggregatedPoolData) :
  Permutation l l' -> pairSum l = pairSum l'.
Proof.
  induction 1 as [| x l l' Hp IH | x y l | l l' l'' _ IH1 _ IH2].
  - reflexivity.
  - cbn [pairSum]. now rewrite IH, (row_perm x l l' Hp).
  - cbn [pairSum fold_right]. rewrite (link_sym y x).
    set (a := link x y).
    set (rx := fold_right (fun q acc => add (link x q) acc) (Num 0) l).
    set (ry := fold_right (fun q acc => add (link y q) acc) (Num 0) l).
    set (s := pairSum l).
    rewrite <- !add_assoc. f_equal.
    rewrite !add_assoc. f_equal. apply add_comm.
  - now rewrite IH1.
Qed.

Lemma pairCount_perm (l l' : list AggregatedPoolData) :
  Permutation l l' -> pairCount l = pairCount l'.
Proof.
  intros Hp. pose proof (pairCount_length l) as H1.
  pose proof (pairCount_length l') as H2.
  rewrite (Permutation_length Hp) in H1. lia.
Qed.

Lemma pairSum_bound (pools : list AggregatedPoolData) :
  exists x : R,
    pairSum pools = Num x /\ 0 <= x <= 0.85 * INR (pairCount pools).
Proof.
  induction pools as [| p rest (x & Hx & Hb)].
  - exists 0. cbn. split; [reflexivity | lra].
  - cbn [pairSum pairCount]. rewrite Hx.
    assert (Hrow : exists y : R,
              fold_right (fun q acc => add (link p q) acc) (Num 0) rest
              = Num y /\ 0 <= y <= 0.85 * INR (length rest)).
    { clear. induction rest as [| q rest (y & Hy & Hb)].
      - exists 0. cbn. split; [reflexivity | lra].
      - cbn [fold_right length]. rewrite Hy. unfold link.
        destruct (correlation_cases (poolId p) (poolId q))
          as (_ & c & -> & Hc).
        exists (c + y). split; [reflexivity |]. rewrite S_INR. lra. }
    destruct Hrow as (y & -> & Hy).
    exists (y + x). split; [reflexivity |]. rewrite plus_INR. lra.
Qed.

(** X23.  [calculateCorrelationScore] lies between 0 and 0.85, is 0
    for fewer than two pools, and does not depend on the order of the
    pools. *)
Theorem correlation_score_is_order_free (pools : list AggregatedPoolData) :
  within 0 0.85 (calculateCorrelationScore pools)
  /\ ((length pools < 2)%nat -> calculateCorrelationScore pools = Num 0)
  /\ forall pools' : list AggregatedPoolData,
       Permutation pools pools' ->
       calculateCorrelationScore pools' = calculateCorrelationScore pools.
Proof.
  assert (Hscore : forall l,
            calculateCorrelationScore l
            = if Nat.ltb 0 (pairCount l)
              then div (pairSum l) (of_nat (pairCount l)) else Num 0).
  { intros l. unfold calculateCorrelationScore.
    rewrite correlationPairs_sum, add_0_l. reflexivity. }
  split; [| split].
  - rewrite Hscore. destruct (pairSum_bound pools) as (x & -> & Hx).
    destruct (Nat.ltb_spec 0 (pairCount pools)) as [Hpos | Hzero].
    + unfold of_nat. rewrite <- INR_IZR_INZ.
      assert (0 < INR (pairCount pools)) by now apply lt_0_INR.
      rewrite div_num by lra. eexists. split; [reflexivity |]. split.
      * apply Rle_mult_inv_pos; lra.
      * apply (Rmult_le_reg_r (INR (pairCount pools))); [lra |].
        unfold Rdiv. rewrite Rmult_assoc, Rinv_l by lra. lra.
    + exists 0. split; [reflexivity | lra].
  - intros Hlen. rewrite Hscore.
    destruct pools as [| p [| q rest]]; [reflexivity | reflexivity |].
    cbn in Hlen. lia.
  - intros pools' Hp. rewrite !Hscore.
    now rewrite (pairSum_perm _ _ Hp), (pairCount_perm _ _ Hp).
Qed.

Lemma correlation_score_is_order_free_witness :
  calculateCorrelationScore (rev Samples.volatileFive)
  = calculateCorrelationScore Samples.volatileFive
  /\ calculateCorrelationScore [Samples.resolved Pools.SOL_USDC 1 12.4]
     = Num 0.
Proof.
  destruct (correlation_score_is_order_free Samples.volatileFive)
    as (_ & _ & Hperm).
  split.
  - apply Hperm, Permutation_rev.
  - destruct (correlation_score_is_order_free
                [Samples.resolved Pools.SOL_USDC 1 12.4]) as (_ & H & _).
    apply H. cbn. lia.
Defined.

(** ** A pool selected more than once *)

Lemma same_id_base (id : string) (pools : list AggregatedPoolData) :
  pools <> [] ->
  Forall (fun p => poolId p = id) pools ->
  adjustWeightsForRiskTolerance pools medium
  = [(id, get_or Pools.DEFAULT_ALLOCATION_WEIGHTS id (Num 0.20))].
Proof.
  intros Hne Hall. unfold adjustWeightsForRiskTolerance.
  set (v := get_or Pools.DEFAULT_ALLOCATION_WEIGHTS id (Num 0.20)).
  assert (H : forall acc, acc = [] \/ acc = [(id, v)] ->
            pools <> [] ->
            fold_left (fun weights pool =>
                set weights (poolId pool)
                    (get_or Pools.DEFAULT_ALLOCATION_WEIGHTS (poolId pool)
                            (Num 0.20))) pools acc
            = [(id, v)]).
  { clear Hne. induction Hall as [| p pools Hp _ IH]; intros acc Hacc Hne;
      [contradiction |].
    cbn [fold_left]. rewrite Hp. fold v.
    assert (Hset : set acc id v = [(id, v)]).
    { destruct Hacc as [-> | ->]; cbn [set];
        [reflexivity | now rewrite String.eqb_refl]. }
    rewrite Hset. destruct pools as [| q pools]; [reflexivity |].
    apply IH; [now right | discriminate]. }
  apply H; [now left | exact Hne].
Qed.

Lemma same_id_adjusted (id : string) (pools : list AggregatedPoolData)
    (v : R) :
  pools <> [] -> Forall (fun p => poolId p = id) pools -> 0 < v ->
  exists v' : R, hedgeAdjusted pools [(id, Num v)] = [(id, Num v')] /\ 0 < v'.
Proof.
  intros Hne Hall Hv. unfold hedgeAdjusted.
  destruct (gt _ _); [| now exists v].
  destruct pools as [| p pools]; [contradiction |].
  apply Forall_cons in Hall as [Hp Hall].
  cbn [List.find]. rewrite Hp.
  destruct (String.eqb_spec id "EURC_USDC") as [-> | Hid].
  - unfold boostEurc, get_or. cbn [get set]. rewrite !String.eqb_refl.
    rewrite or_else_zero. cbn [add min]. exists (Rmin (v + 0.10) 0.40). split.
    + assert (Hloop : forall (l : list AggregatedPoolData) acc,
                Forall (fun p => poolId p = "EURC_USDC") l ->
                fold_left (fun weights pool =>
                    if negb (String.eqb (poolId pool) "EURC_USDC")
                    then set weights (poolId pool)
                             (max (sub (match get weights (poolId pool) with
                                        | Some v0 => or_else v0 (Num 0)
                                        | None => Num 0
                                        end)
                                       (div (Num 0.10)
                                            (sub (of_nat (length (p :: pools)))
                                                 (Num 1))))
                                  (Num 0.05))
                    else weights) l acc = acc).
      { induction 1 as [| q l Hq _ IH]; [reflexivity |].
        cbn [fold_left]. rewrite Hq. cbn. exact IH. }
      apply Hloop. now constructor.
    + unfold Rmin. destruct (Rle_dec _ _); lra.
  - assert (Hfind : List.find (fun p => String.eqb (poolId p) "EURC_USDC")
                              pools = None).
    { clear -Hall Hid. induction Hall as [| q l Hq _ IH]; [reflexivity |].
      cbn [List.find]. rewrite Hq.
      destruct (String.eqb_spec id "EURC_USDC"); [contradiction | exact IH]. }
    rewrite Hfind. now exists v.
Qed.

(** X24.  [getPoolsData] keeps an id asked twice, and
    [calculateOptimalAllocations] does not share the investment between
    the copies: when all the pools of a list have the same id, the medium
    tolerance allocates 100 percent, the whole investment, to each, and the
    weights sum to the number of copies. *)
Theorem repeated_pool_is_allocated_in_full (id : string)
    (pools : list AggregatedPoolData) (T : number) :
  pools <> [] ->
  Forall (fun p => poolId p = id) pools ->
  Forall (fun p => allocationSuggestion p
                   = Some {| amount := mul T (Num 1);
                             percentage := Num 100 |})
         (calculateOptimalAllocations pools T medium)
  /\ Spec.sum (List.map Spec.weightOf
                 (calculateOptimalAllocations pools T medium))
     = Num (INR (length pools)).
Proof.
  intros Hne Hall.
  assert (Hfw : finalWeights pools medium = [(id, Num 1)]).
  { unfold finalWeights, applyHedgeStrategy.
    rewrite (same_id_base id pools Hne Hall).
    destruct (default_weight_positive id) as (v & -> & Hv).
    destruct (same_id_adjusted id pools v Hne Hall Hv) as (v' & -> & Hv').
    unfold normalize. cbn [values keys List.map fst snd fold_left get set].
    rewrite ?String.eqb_refl. cbn [add get set]. rewrite ?String.eqb_refl.
    rewrite div_num by lra. do 3 f_equal. field. lra. }
  assert (Hone : forall p, In p pools ->
            get_or (finalWeights pools medium) (poolId p) (Num 0) = Num 1).
  { intros p Hin. rewrite Hfw, (proj1 (List.Forall_forall _ _) Hall p Hin).
    unfold get_or. cbn [get]. rewrite String.eqb_refl. apply or_else_zero. }
  unfold calculateOptimalAllocations. split.
  - apply Forall_map, List.Forall_forall. intros p Hin.
    cbn [allocationSuggestion withAllocation]. rewrite (Hone p Hin).
    cbn [mul]. do 3 f_equal. lra.
  - rewrite List.map_map. unfold Spec.weightOf.
    cbn [allocationSuggestion withAllocation percentage].
    erewrite List.map_ext by (intros; apply percent_roundtrip).
    clear Hfw Hall Hne. unfold Spec.sum.
    set (fw := finalWeights pools medium) in *. clearbody fw.
    induction pools as [| p pools IH]; [reflexivity |].
    change (length (p :: pools)) with (S (length pools)).
    rewrite S_INR. cbn [List.map fold_right].
    rewrite (Hone p) by now left.
    rewrite IH by (intros q Hq; apply Hone; now right).
    cbn [add]. f_equal. lra.
Qed.

Lemma repeated_pool_is_allocated_in_full_witness :
  let twice := [ Samples.resolved Pools.SOL_USDC 1 12.4;
                 Samples.resolved Pools.SOL_USDC 1 12.4 ] in
  Forall (fun p => allocationSuggestion p
                   = Some {| amount := mul (Num 10000) (Num 1);
                             percentage := Num 100 |})
         (calculateOptimalAllocations twice (Num 10000) medium)
  /\ Spec.sum (List.map Spec.weightOf
                 (calculateOptimalAllocations twice (Num 10000) medium))
     = Num (INR 2).
Proof.
  intros twice.
  apply (repeated_pool_is_allocated_in_full "SOL_USDC" twice (Num 10000));
    [discriminate | repeat constructor].
Defined.

End MetricProps.

(* ===================================================================== *)
(** * Properties of the subscriptions and of the simulation *)
(* ===================================================================== *)

Module SubscriptionProps.
Import JS JSFacts PriceWebSocketService Notions StreamNotions.
#[local] Open Scope list_scope.

(** ** Subscribing *)

Lemma subscribeOne_frame (s : State) (k : string) :
  emitted (subscribeOne s k) = emitted s
  /\ isConnected (subscribeOne s k) = isConnected s
  /\ reconnects (subscribeOne s k) = reconnects s
  /\ reconnectAttempts (subscribeOne s k) = reconnectAttempts s
  /\ priceUpdateInterval (subscribeOne s k) = priceUpdateInterval s
  /\ draws (subscribeOne s k) = draws s
  /\ attempts (subscribeOne s k) = attempts s.
Proof.
  unfold subscribeOne. destruct (get Pools.SUPPORTED_POOLS k); [| easy].
  destruct (subscriptions s !! k); easy.
Qed.

(** One pool subscribed: the table afterwards. *)
Lemma subscribeOne_lookup (s : State) (k j : string) :
  subscriptions (subscribeOne s k) !! j
  = match subscriptions s !! j with
    | Some v => Some v
    | None => if known k && String.eqb k j
              then Some (nextSubscription s) else None
    end.
Proof.
  unfold subscribeOne, known.
  destruct (get Pools.SUPPORTED_POOLS k) as [c |]; cbn [andb].
  2: { now destruct (subscriptions s !! j). }
  destruct (String.eqb_spec k j) as [<- | Hne].
  - destruct (subscriptions s !! k) as [v |] eqn:Hk; [now rewrite Hk |].
    cbn [subscriptions]. apply lookup_insert_eq.
  - destruct (subscriptions s !! k) as [v |] eqn:Hk.
    + now destruct (subscriptions s !! j).
    + cbn [subscriptions]. rewrite lookup_insert_ne by exact Hne.
      now destruct (subscriptions s !! j).
Qed.

Lemma subscribeOne_next (s : State) (k : string) :
  (nextSubscription s <= nextSubscription (subscribeOne s k))%nat.
Proof.
  unfold subscribeOne. destruct (get Pools.SUPPORTED_POOLS k); [| lia].
  destruct (subscriptions s !! k); cbn; lia.
Qed.

Lemma subscribeOne_numbered (s : State) (k : string) :
  numbered s -> numbered (subscribeOne s k).
Proof.
  intros [Hlt Hinj]. unfold subscribeOne.
  destruct (get Pools.SUPPORTED_POOLS k) as [c |]; [| now split].
  destruct (subscriptions s !! k) as [v |] eqn:Hk; [now split |].
  split; cbn [subscriptions nextSubscription].
  - intros j v Hj. apply lookup_insert_Some in Hj as [[_ <-] | [_ Hj]].
    + lia.
    + specialize (Hlt j v Hj). lia.
  - intros j j' v Hj Hj'.
    apply lookup_insert_Some in Hj as [[<- <-] | [Hne Hj]];
      apply lookup_insert_Some in Hj' as [[<- E] | [Hne' Hj']];
      try reflexivity.
    + specialize (Hlt j' _ Hj'). lia.
    + subst v. specialize (Hlt j _ Hj). lia.
    + now apply (Hinj j j' v).
Qed.

(** A pool that is subscribed stays as it is. *)
Lemma subscribeOne_done (s : State) (k : string) :
  known k = true -> subscribed s k = true -> subscribeOne s k = s.
Proof.
  unfold known, subscribed, subscribeOne.
  destruct (get Pools.SUPPORTED_POOLS k); [| discriminate].
  now destruct (subscriptions s !! k).
Qed.

Lemma subscribeLoop_table (ids : list string) (s : State) :
  (forall j, subscribed (subscribeLoop ids s) j
             = subscribed s j || (known j && among ids j))
  /\ (forall j v, subscriptions s !! j = Some v ->
                  subscriptions (subscribeLoop ids s) !! j = Some v)
  /\ (numbered s -> numbered (subscribeLoop ids s))
  /\ (nextSubscription s <= nextSubscription (subscribeLoop ids s))%nat.
Proof.
  unfold subscribeLoop. revert s.
  induction ids as [| k ids IH]; intros s; cbn [fold_left].
  - split; [| split; [| split]]; try easy. intros j. cbn.
    now rewrite andb_false_r, orb_false_r.
  - destruct (IH (subscribeOne s k)) as (Hsub & Hkeep & Hnum & Hnext).
    split; [| split; [| split]].
    + intros j. rewrite Hsub. unfold subscribed at 1.
      rewrite subscribeOne_lookup. unfold subscribed.
      destruct (subscriptions s !! j) as [v |]; [reflexivity |].
      cbn [orb]. unfold among. cbn [List.existsb].
      destruct (String.eqb_spec k j) as [<- | Hne].
      * rewrite andb_true_r, String.eqb_refl. cbn [orb].
        destruct (known k); [reflexivity |]. reflexivity.
      * rewrite andb_false_r. cbn [orb].
        destruct (String.eqb_spec j k); [congruence | reflexivity].
    + intros j v Hj. apply Hkeep. rewrite subscribeOne_lookup. now rewrite Hj.
    + intros Hs. apply Hnum. now apply subscribeOne_numbered.
    + pose proof (subscribeOne_next s k). lia.
Qed.

Lemma subscribeLoop_done (ids : list string) (s : State) :
  (forall j, In j ids -> known j = true -> subscribed s j = true) ->
  subscribeLoop ids s = s.
Proof.
  unfold subscribeLoop. induction ids as [| k ids IH]; intros Hall;
    [reflexivity |].
  cbn [fold_left].
  assert (Hk : subscribeOne s k = s).
  { destruct (known k) eqn:Hkn.
    - apply subscribeOne_done; [exact Hkn |]. apply Hall; [now left | exact Hkn].
    - unfold subscribeOne, known in *.
      now destruct (get Pools.SUPPORTED_POOLS k). }
  rewrite Hk. apply IH. intros j Hj. apply Hall. now right.
Qed.

(** X25.  [subscribeToPools] on a connected service.  The pools
    subscribed after it are those subscribed before and the requested ids
    the registry knows; a subscription there was keeps its number;
    subscribing to the same ids again changes nothing; the numbers stay
    distinct and below the next one; no event is emitted, the service stays
    connected and no reconnection is scheduled. *)
Theorem subscribeToPools_is_idempotent (depth : nat) (ids : list string)
    (s : State) :
  isConnected s = true ->
  let s' := subscribeToPools depth ids s in
  (forall j, subscribed s' j
             = subscribed s j || (known j && among ids j))
  /\ (forall j v, subscriptions s !! j = Some v ->
                  subscriptions s' !! j = Some v)
  /\ subscribeToPools depth ids s' = s'
  /\ (numbered s -> numbered s')
  /\ emitted s' = emitted s /\ isConnected s' = true
  /\ reconnects s' = reconnects s.
Proof.
  intros Hc s'. subst s'. unfold subscribeToPools, subscribeToPoolsVia.
  rewrite Hc. cbn [negb].
  destruct (subscribeLoop_table ids s) as (Hsub & Hkeep & Hnum & _).
  destruct (PriceStreamProps.subscribeLoop_frame ids s) as [He Hr].
  assert (Hconn : isConnected (subscribeLoop ids s) = true).
  { rewrite <- Hc. clear. unfold subscribeLoop. revert s.
    induction ids as [| k ids IH]; intros s; [reflexivity |].
    cbn [fold_left]. rewrite IH. apply subscribeOne_frame. }
  rewrite Hconn. cbn [negb].
  split; [exact Hsub |]. split; [exact Hkeep |].
  split; [| split; [exact Hnum | split; [exact He | split;
                                          [reflexivity | exact Hr]]]].
  apply subscribeLoop_done. intros j Hj Hk. rewrite Hsub, Hk.
  assert (among ids j = true) as ->.
  { unfold among. apply List.existsb_exists. exists j.
    split; [exact Hj | apply String.eqb_refl]. }
  apply orb_true_r.
Qed.

Lemma subscribeToPools_is_idempotent_witness :
  let s := connect 1 initial in
  let s' := subscribeToPools 1 ["EURC_USDC"; "DOGE_USDC"] s in
  subscribeToPools 1 ["EURC_USDC"; "DOGE_USDC"] s' = s'
  /\ emitted s' = emitted s
  /\ subscribed s' "DOGE_USDC" = false.
Proof.
  intros s s'.
  destruct (subscribeToPools_is_idempotent 1%nat
              ["EURC_USDC"; "DOGE_USDC"] s eq_refl)
    as (Hsub & _ & Hidem & _ & He & _).
  split; [exact Hidem |]. split; [exact He |].
  subst s'. rewrite Hsub. reflexivity.
Defined.

(** ** Unsubscribing *)

Lemma unsubscribeOne_lookup (removes : nat -> bool) (s : State)
    (k j : string) :
  subscriptions (unsubscribeOne removes s k) !! j
  = match subscriptions s !! j with
    | Some v =>
        if String.eqb k j && negb (Nat.eqb v 0) && removes v
        then None else Some v
    | None => None
    end.
Proof.
  unfold unsubscribeOne.
  destruct (String.eqb_spec k j) as [<- | Hne]; cbn [andb].
  - destruct (subscriptions s !! k) as [v |] eqn:Hk; [| now rewrite Hk].
    destruct (Nat.eqb v 0); cbn [negb andb]; [now rewrite Hk |].
    destruct (removes v); [| now rewrite Hk].
    cbn [subscriptions]. apply lookup_delete_eq.
  - destruct (subscriptions s !! k) as [v |] eqn:Hk;
      [| now destruct (subscriptions s !! j)].
    destruct (Nat.eqb v 0); [now destruct (subscriptions s !! j) |].
    destruct (removes v); [| now destruct (subscriptions s !! j)].
    cbn [subscriptions]. rewrite lookup_delete_ne by exact Hne.
    now destruct (subscriptions s !! j).
Qed.

Lemma unsubscribeOne_frame (removes : nat -> bool) (s : State) (k : string) :
  emitted (unsubscribeOne removes s k) = emitted s
  /\ isConnected (unsubscribeOne removes s k) = isConnected s
  /\ reconnects (unsubscribeOne removes s k) = reconnects s
  /\ nextSubscription (unsubscribeOne removes s k) = nextSubscription s
  /\ priceUpdateInterval (unsubscribeOne removes s k) = priceUpdateInterval s.
Proof.
  unfold unsubscribeOne. destruct (subscriptions s !! k) as [v |]; [| easy].
  destruct (Nat.eqb v 0); [easy |]. destruct (removes v); easy.
Qed.

(** X26.  [unsubscribeFromPools] drops the subscription of a
    requested pool when the listener is removed without an error and the
    number of the subscription is not 0: a subscription numbered 0 is taken
    for none ([!subscriptionId]) and is never dropped.  Every other
    subscription stays; no event is emitted, and the connection and the
    simulation are as before. *)
Theorem unsubscribeFromPools_spares_id_zero (removes : nat -> bool)
    (ids : list string) (s : State) :
  let s' := unsubscribeFromPools removes ids s in
  (forall j, subscriptions s' !! j
             = match subscriptions s !! j with
               | Some v =>
                   if among ids j && negb (Nat.eqb v 0) && removes v
                   then None else Some v
               | None => None
               end)
  /\ (forall j, subscriptions s !! j = Some 0%nat ->
                subscriptions s' !! j = Some 0%nat)
  /\ emitted s' = emitted s /\ isConnected s' = isConnected s
  /\ priceUpdateInterval s' = priceUpdateInterval s.
Proof.
  intros s'. subst s'. unfold unsubscribeFromPools.
  assert (H : forall s,
            (forall j, subscriptions (fold_left (unsubscribeOne removes) ids s)
                         !! j
                       = match subscriptions s !! j with
                         | Some v =>
                             if among ids j && negb (Nat.eqb v 0) && removes v
                             then None else Some v
                         | None => None
                         end)
            /\ emitted (fold_left (unsubscribeOne removes) ids s) = emitted s
            /\ isConnected (fold_left (unsubscribeOne removes) ids s)
               = isConnected s
            /\ priceUpdateInterval (fold_left (unsubscribeOne removes) ids s)
               = priceUpdateInterval s).
  { clear s. induction ids as [| k ids IH]; intros s; cbn [fold_left].
    - split; [| easy]. intros j. now destruct (subscriptions s !! j).
    - destruct (IH (unsubscribeOne removes s k)) as (Hl & He & Hc & Hi).
      destruct (unsubscribeOne_frame removes s k) as (He' & Hc' & _ & _ & Hi').
      split; [| split; [congruence | split; congruence]].
      intros j. rewrite Hl, unsubscribeOne_lookup.
      unfold among. cbn [List.existsb]. rewrite (String.eqb_sym j k).
      destruct (subscriptions s !! j) as [v |]; [| reflexivity].
      destruct (String.eqb k j); cbn [andb orb]; [| reflexivity].
      destruct (negb (Nat.eqb v 0) && removes v) eqn:E.
      + reflexivity.
      + rewrite <- andb_assoc, E. now rewrite andb_false_r. }
  destruct (H s) as (Hl & He & Hc & Hi).
  split; [exact Hl |]. split; [| easy].
  intros j Hj. rewrite Hl, Hj. cbn. now rewrite andb_false_r.
Qed.

Lemma unsubscribeFromPools_spares_id_zero_witness :
  let s := connect 1 initial in
  let s' := unsubscribeFromPools (fun _ => true)
              ["SOL_USDC"; "CBBTC_USDC"] s in
  subscriptions s !! "SOL_USDC" = Some 0%nat
  /\ subscribed s' "SOL_USDC" = true
  /\ subscribed s' "CBBTC_USDC" = false
  /\ subscribed s' "EURC_USDC" = true.
Proof.
  intros s s'.
  destruct (unsubscribeFromPools_spares_id_zero (fun _ => true)
              ["SOL_USDC"; "CBBTC_USDC"] s) as (Hl & _).
  fold s' in Hl. unfold subscribed. rewrite !Hl.
  assert (H0 : subscriptions s !! "SOL_USDC" = Some 0%nat) by reflexivity.
  assert (H1 : subscriptions s !! "CBBTC_USDC" = Some 1%nat) by reflexivity.
  assert (H2 : subscriptions s !! "EURC_USDC" = Some 2%nat) by reflexivity.
  rewrite H0, H1, H2. repeat split.
Defined.

(** ** Disconnecting *)

Lemma removable_all (removes : nat -> bool) (m : gmap string nat) :
  forallb removes (List.map snd (map_to_list m)) = true
  <-> map_Forall (fun _ v => removes v = true) m.
Proof.
  rewrite map_Forall_to_list, List.forallb_forall, Forall_forall. split.
  - intros H [k v] Hkv. cbn. apply H. apply List.in_map_iff.
    exists (k, v). split; [reflexivity |]. now apply list_elem_of_In.
  - intros H v Hv. apply List.in_map_iff in Hv as ([k v'] & <- & Hin).
    apply list_elem_of_In in Hin. apply (H (k, v') Hin).
Qed.

(** With no pool subscribed the interval callback emits nothing. *)
Lemma tick_unsubscribed (random : nat -> R) (t : Z) (s : State) :
  subscriptions s = ∅ -> tick random t s = s.
Proof.
  intros He. unfold tick.
  induction Pools.SUPPORTED_POOLS as [| [pid c] l IH]; [reflexivity |].
  cbn [fold_left]. unfold tickOne at 2. rewrite He, lookup_empty. exact IH.
Qed.

(** [connect] on a stack that admits a nested call leaves the service
    connected. *)
Lemma connect_established (depth : nat) (s : State) :
  isConnected (connect (S depth) s) = true.
Proof.
  unfold connect. destruct (isConnected s) eqn:E; [exact E | reflexivity].
Qed.

Lemma fire_established (depth : nat) (s : State) :
  reconnects s <> [] -> isConnected (fire (S depth) s) = true.
Proof.
  intros Hr. unfold fire. destruct (reconnects s) as [| d later];
    [contradiction | apply connect_established].
Qed.

(** X27.  [disconnect], [removes] telling the listeners that are
    removed without an error.  Not connected, it does nothing.  Connected,
    and every listener removed, it clears the subscriptions, stops the
    simulation (a tick does nothing after it), and emits 'disconnected'.
    Connected, and a removal failing, it changes nothing: the service stays
    connected.  In every case the scheduled reconnections and the count of
    attempts are kept, so a reconnection that fires after the disconnection,
    on a stack that admits a nested call of [connect], connects the service
    again. *)
Theorem disconnect_keeps_reconnections (removes : nat -> bool) (s : State) :
  let s' := disconnectVia removes s in
  (isConnected s = false -> s' = s)
  /\ (isConnected s = true ->
      map_Forall (fun _ v => removes v = true) (subscriptions s) ->
      s' = disconnect s
      /\ subscriptions s' = ∅ /\ isConnected s' = false
      /\ priceUpdateInterval s' = false
      /\ emitted s' = emitted s ++ [disconnected]
      /\ forall random t, tick random t s' = s')
  /\ (isConnected s = true ->
      ~ map_Forall (fun _ v => removes v = true) (subscriptions s) ->
      s' = s)
  /\ reconnects s' = reconnects s
  /\ reconnectAttempts s' = reconnectAttempts s
  /\ (reconnects s <> [] ->
      forall depth, isConnected (fire (S depth) s') = true).
Proof.
  intros s'.
  assert (Hr : reconnects s' = reconnects s
               /\ reconnectAttempts s' = reconnectAttempts s).
  { subst s'. unfold disconnectVia, disconnect.
    destruct (isConnected s); cbn [negb]; [| easy].
    destruct (forallb _ _); easy. }
  destruct Hr as [Hr Ha].
  split; [| split; [| split; [| split; [exact Hr | split; [exact Ha |]]]]].
  - intros Hc. subst s'. unfold disconnectVia. now rewrite Hc.
  - intros Hc Hall. apply removable_all in Hall.
    assert (E : s' = disconnect s)
      by (subst s'; unfold disconnectVia; now rewrite Hc, Hall).
    rewrite E. unfold disconnect. rewrite Hc. cbn [negb].
    split; [reflexivity |]. split; [reflexivity |]. split; [reflexivity |].
    split; [reflexivity |]. split; [reflexivity |].
    intros random t. now apply tick_unsubscribed.
  - intros Hc Hn. subst s'. unfold disconnectVia. rewrite Hc. cbn [negb].
    destruct (forallb _ _) eqn:Hall; [| reflexivity].
    apply removable_all in Hall. contradiction.
  - intros Hne depth. apply fire_established. now rewrite Hr.
Qed.

Lemma disconnect_keeps_reconnections_witness :
  let s := connect 1 initial in
  let s' := disconnectVia (fun _ => true) s in
  reconnects s = [2000%Z]
  /\ isConnected s' = false /\ subscriptions s' = ∅
  /\ isConnected (fire 1 s') = true.
Proof.
  intros s s'.
  destruct (disconnect_keeps_reconnections (fun _ => true) s)
    as (_ & Hd & _ & _ & _ & Hf).
  fold s' in Hd, Hf.
  destruct Hd as (_ & He & Hc & _); [reflexivity | |].
  { intros k v _. reflexivity. }
  split; [reflexivity |]. split; [exact Hc |]. split; [exact He |].
  apply (Hf ltac:(discriminate) 0%nat).
Defined.

(** ** The interval callback *)

#[local] Open Scope R_scope.

(** What a tick emits for one entry of the registry. *)
Lemma tickOne_emits (random : nat -> R) (t : Z) (s : State)
    (pid : string) (c : Pools.PoolConfig) :
  fair random ->
  subscriptions (tickOne random t s (pid, c)) = subscriptions s
  /\ exists new : list Event,
       emitted (tickOne random t s (pid, c)) = (emitted s ++ new)%list
       /\ if subscribed s pid
          then exists (u : PriceUpdate) (x : R),
                 priceUpdatesOf new = [u]
                 /\ poolId u = pid /\ poolAddress u = Pools.address c
                 /\ timestamp u = t
                 /\ price u = mul (get_or basePrices pid (Num 100)) (Num x)
                 /\ 0.995 <= x < 1.005
          else new = [].
Proof.
  intros Hfair. unfold tickOne, subscribed.
  destruct (subscriptions s !! pid) as [sid |].
  2: { split; [reflexivity |]. exists []. now rewrite app_nil_r. }
  unfold mathRandom. cbn [draws emit subscriptions].
  pose proof (Hfair (draws s)) as Hx.
  destruct (gt _ _); cbn [emitted emit subscriptions];
    (split; [reflexivity |]);
    eexists; (split; [rewrite <- ?app_assoc; reflexivity |]);
    eexists _, (1 + (random (draws s) + - (0.5)) * 0.01);
    cbn [priceUpdatesOf poolId poolAddress timestamp price app];
    (repeat split; try lra).
Qed.

Lemma priceUpdatesOf_app (l l' : list Event) :
  priceUpdatesOf (l ++ l') = (priceUpdatesOf l ++ priceUpdatesOf l')%list.
Proof.
  induction l as [| e l IH]; [reflexivity |].
  destruct e; cbn [app priceUpdatesOf]; now rewrite ?IH.
Qed.

Lemma tick_entries (random : nat -> R) (t : Z)
    (entries : list (string * Pools.PoolConfig)) (s : State) :
  fair random ->
  subscriptions (fold_left (tickOne random t) entries s) = subscriptions s
  /\ exists new : list Event,
       emitted (fold_left (tickOne random t) entries s)
       = (emitted s ++ new)%list
       /\ List.map poolId (priceUpdatesOf new)
          = List.filter (subscribed s) (List.map fst entries)
       /\ Forall (fun u =>
            exists (c : Pools.PoolConfig) (x : R),
              In (poolId u, c) entries
              /\ poolAddress u = Pools.address c /\ timestamp u = t
              /\ price u = mul (get_or basePrices (poolId u) (Num 100)) (Num x)
              /\ 0.995 <= x < 1.005)
            (priceUpdatesOf new).
Proof.
  intros Hfair. revert s.
  induction entries as [| [pid c] entries IH]; intros s; cbn [fold_left].
  - split; [reflexivity |]. exists []. rewrite app_nil_r.
    repeat split. constructor.
  - destruct (tickOne_emits random t s pid c Hfair) as (Hs1 & new1 & He1 & H1).
    destruct (IH (tickOne random t s (pid, c))) as (Hs2 & new2 & He2 & Hi2 & Hp2).
    split; [congruence |].
    exists (new1 ++ new2)%list. split; [now rewrite He2, He1, app_assoc |].
    rewrite priceUpdatesOf_app, List.map_app.
    assert (Hsame : List.filter (subscribed (tickOne random t s (pid, c)))
                                (List.map fst entries)
                    = List.filter (subscribed s) (List.map fst entries)).
    { apply List.filter_ext. intros k. unfold subscribed. now rewrite Hs1. }
    rewrite Hi2, Hsame. cbn [List.map fst List.filter].
    destruct (subscribed s pid).
    + destruct H1 as (u & x & -> & Hid & Ha & Ht & Hp & Hx).
      split; [cbn; now rewrite Hid |].
      apply Forall_app. split.
      * repeat constructor. exists c, x. rewrite Hid.
        repeat split; try assumption; try lra. now left.
      * eapply Forall_impl; [exact Hp2 |]. cbn.
        intros v (c' & x' & Hin & Hrest). exists c', x'.
        split; [now right | exact Hrest].
    + subst new1. split; [reflexivity |]. cbn [priceUpdatesOf app].
      eapply Forall_impl; [exact Hp2 |]. cbn.
      intros v (c' & x' & Hin & Hrest). exists c', x'.
      split; [now right | exact Hrest].
Qed.

(** Every pool of the registry has a base price. *)
Lemma basePrice_of (pid : string) (c : Pools.PoolConfig) :
  In (pid, c) Pools.SUPPORTED_POOLS ->
  get Pools.SUPPORTED_POOLS pid = Some c
  /\ exists b : R,
       get basePrices pid = Some (Num b) /\ 0 < b
       /\ get_or basePrices pid (Num 100) = Num b.
Proof.
  cbn. intros [E | [E | [E | [E | [E | []]]]]]; injection E as <- <-;
    (split; [reflexivity |]); eexists;
    (split; [reflexivity |]); (split; [lra |]);
    unfold get_or, basePrices; cbn [get]; MetricProps.known_keys;
    unfold or_else, truthy;
    match goal with
    | |- context [Req_dec_T ?a ?b] => destruct (Req_dec_T a b)
    end; (reflexivity || lra).
Qed.

(** X28.  One tick of the price simulation, with [Math.random()] in
    [0, 1), leaves the subscriptions as they are and emits one price update
    for every subscribed pool of the registry, in the order of the registry;
    the update carries the address of the pool, the time of the tick, and a
    price within 0.5 percent of the base price of the pool. *)
Theorem tick_updates_each_subscribed_pool (random : nat -> R) (t : Z)
    (s : State) :
  fair random ->
  subscriptions (tick random t s) = subscriptions s
  /\ exists new : list Event,
       emitted (tick random t s) = (emitted s ++ new)%list
       /\ List.map poolId (priceUpdatesOf new)
          = List.filter (subscribed s) (keys Pools.SUPPORTED_POOLS)
       /\ Forall (fun u =>
            exists (c : Pools.PoolConfig) (b x : R),
              get Pools.SUPPORTED_POOLS (poolId u) = Some c
              /\ poolAddress u = Pools.address c /\ timestamp u = t
              /\ get basePrices (poolId u) = Some (Num b)
              /\ price u = Num x /\ 0.995 * b <= x < 1.005 * b)
            (priceUpdatesOf new).
Proof.
  intros Hfair. unfold tick.
  destruct (tick_entries random t Pools.SUPPORTED_POOLS s Hfair)
    as (Hs & new & He & Hi & Hp).
  split; [exact Hs |]. exists new. split; [exact He |]. split; [exact Hi |].
  eapply Forall_impl; [exact Hp |]. cbn beta.
  intros u (c & x & Hin & Ha & Ht & Hpr & Hx).
  destruct (basePrice_of _ _ Hin) as (Hc & b & Hb & Hpos & Hor).
  exists c, b, (b * x). rewrite Hpr, Hor. cbn [mul].
  repeat split; try assumption; nra.
Qed.

Lemma tick_updates_each_subscribed_pool_witness :
  let s := connect 1 initial in
  exists new : list Event,
    emitted (tick (fun _ => 0.5) 5000 s) = (emitted s ++ new)%list
    /\ List.map poolId (priceUpdatesOf new)
       = ["SOL_USDC"; "CBBTC_USDC"; "EURC_USDC"; "USDT_USDC"; "WETH_USDC"].
Proof.
  intros s.
  destruct (tick_updates_each_subscribed_pool (fun _ => 0.5) 5000 s)
    as (_ & new & He & Hi & _).
  { intros k. lra. }
  exists new. split; [exact He |]. rewrite Hi. reflexivity.
Defined.


End SubscriptionProps.

(* ===================================================================== *)
(** * Properties of the runs of the price stream *)
(* ===================================================================== *)

Module StreamRunProps.
Import JS JSFacts PriceWebSocketService Notions StreamNotions.
#[local] Open Scope list_scope.

(** ** What each operation leaves of the state *)








(** ** [connect] *)







(** ** Runs of the service *)







(** ** C5: the reconnection policy *)



(** ** C6: price alerts *)

#[local] Open Scope R_scope.




End StreamRunProps.


(* ===================================================================== *)
(** * Properties of the volatility monitor *)
(* ===================================================================== *)

Module VolatilityProps.
Import JS JSFacts PriceWebSocketService Notions StreamNotions.
Import AllocationProps(sum_Num).
#[local] Open Scope R_scope.

(** ** From the numbers to the reals *)

Lemma returnsOf_real (ps : list R) :
  Forall (fun p => p <> 0) ps ->
  returnsOf (List.map Num ps) = List.map Num (returnsR ps).
Proof.
  induction 1 as [| p ps Hp Hps IH]; [reflexivity |].
  destruct ps as [| q ps]; [reflexivity |].
  change (returnsOf (List.map Num (p :: q :: ps)))
    with (div (sub (Num q) (Num p)) (Num p)
          :: returnsOf (List.map Num (q :: ps))).
  rewrite IH. cbn [sub neg add]. rewrite div_num by exact Hp.
  reflexivity.
Qed.

Lemma returnsR_length (ps : list R) :
  length (returnsR ps) = (length ps - 1)%nat.
Proof.
  induction ps as [| p ps IH]; [reflexivity |].
  destruct ps as [| q ps]; [reflexivity |].
  change (returnsR (p :: q :: ps))
    with ((q - p) / p :: returnsR (q :: ps)).
  cbn [length] in *. lia.
Qed.

Lemma fold_add_real (rs : list R) :
  fold_left (fun a b => add a b) (List.map Num rs) (Num 0)
  = Num (Spec.rsum rs).
Proof.
  change (fold_left (fun a b => add a b)) with (fold_left add).
  now rewrite fold_add, add_0_l, sum_Num.
Qed.

Lemma fold_squares_real (m : R) (rs : list R) :
  fold_left (fun sum r => add sum (pow (sub r (Num m)) 2))
            (List.map Num rs) (Num 0)
  = Num (Spec.rsum (List.map (fun r => (r - m) ^ 2) rs)).
Proof.
  assert (H : forall acc,
            fold_left (fun sum r => add sum (pow (sub r (Num m)) 2))
                      (List.map Num rs) (Num acc)
            = Num (acc + Spec.rsum (List.map (fun r => (r - m) ^ 2) rs))).
  { induction rs as [| r rs IH]; intros acc.
    - cbn. f_equal. lra.
    - cbn [List.map fold_left sub neg add pow]. rewrite IH. f_equal.
      unfold Spec.rsum. cbn [List.map fold_right]. unfold Rminus. lra. }
  rewrite H. f_equal. lra.
Qed.

Lemma varianceR_nonneg (rs : list R) : 0 <= varianceR rs.
Proof.
  unfold varianceR.
  assert (0 <= Spec.rsum (List.map (fun r => (r - meanR rs) ^ 2) rs)).
  { generalize (meanR rs) as m. intros m. unfold Spec.rsum.
    induction rs as [| r rs IH]; cbn [List.map fold_right]; [lra |].
    pose proof (pow2_ge_0 (r - m)). lra. }
  destruct rs as [| r rs].
  - cbn. unfold Rdiv. rewrite Rinv_0. lra.
  - apply Rle_mult_inv_pos; [assumption |]. apply lt_0_INR. cbn. lia.
Qed.

(** [calculateVolatility] on finite prices none of which is zero. *)
Lemma calculateVolatility_real (ps : list R) :
  (2 <= length ps)%nat ->
  Forall (fun p => p <> 0) ps ->
  calculateVolatility (List.map Num ps) = Num (volatilityR ps).
Proof.
  intros Hlen Hps. unfold calculateVolatility.
  rewrite List.length_map.
  destruct (Nat.ltb_spec (length ps) 2) as [Hlt | _]; [lia |].
  rewrite (returnsOf_real ps Hps), List.length_map.
  set (rs := returnsR ps).
  assert (Hn : 0 < INR (length rs)).
  { apply lt_0_INR. unfold rs. rewrite returnsR_length. lia. }
  unfold of_nat. rewrite <- INR_IZR_INZ.
  rewrite fold_add_real, div_num by lra.
  fold (meanR rs). rewrite fold_squares_real, div_num by lra.
  fold (varianceR rs). unfold sqrt.
  destruct (Rlt_dec (varianceR rs) 0) as [Hneg | _].
  - pose proof (varianceR_nonneg rs). lra.
  - reflexivity.
Qed.

(** ** The deviation of returns within a band *)

Lemma squares_about_mean (m : R) (rs : list R) :
  Spec.rsum (List.map (fun r => (r - m) ^ 2) rs)
  = Spec.rsum (List.map (fun r => r ^ 2) rs)
    - 2 * m * Spec.rsum rs + INR (length rs) * m ^ 2.
Proof.
  unfold Spec.rsum. induction rs as [| r rs IH].
  - cbn. lra.
  - change (length (r :: rs)) with (S (length rs)). rewrite S_INR.
    cbn [List.map fold_right]. rewrite IH. ring.
Qed.

Lemma squares_bound (e : R) (rs : list R) :
  Forall (fun r => Rabs r <= e) rs ->
  Spec.rsum (List.map (fun r => r ^ 2) rs) <= INR (length rs) * e ^ 2.
Proof.
  unfold Spec.rsum. induction 1 as [| r rs Hr _ IH].
  - cbn. lra.
  - change (length (r :: rs)) with (S (length rs)). rewrite S_INR.
    cbn [List.map fold_right].
    pose proof (pow_maj_Rabs e r 2 Hr). lra.
Qed.

Lemma varianceR_bound (e : R) (rs : list R) :
  0 <= e -> Forall (fun r => Rabs r <= e) rs -> varianceR rs <= e ^ 2.
Proof.
  intros He Hrs. unfold varianceR.
  destruct rs as [| r0 rs0] eqn:E.
  { cbn. unfold Rdiv. rewrite Rinv_0. nra. }
  rewrite <- E in *.
  assert (Hn : 0 < INR (length rs))
    by (apply lt_0_INR; rewrite E; cbn; lia).
  rewrite squares_about_mean.
  pose proof (squares_bound e rs Hrs) as Hsq.
  assert (Hm : Spec.rsum rs = INR (length rs) * meanR rs).
  { unfold meanR. field. lra. }
  rewrite Hm.
  apply (Rmult_le_reg_r (INR (length rs))); [exact Hn |].
  unfold Rdiv. rewrite Rmult_assoc, Rinv_l by lra.
  pose proof (pow2_ge_0 (meanR rs)). nra.
Qed.

Lemma returnsR_band (lo hi : R) (ps : list R) :
  0 < lo ->
  Forall (fun p => lo <= p <= hi) ps ->
  Forall (fun r => Rabs r <= (hi - lo) / lo) (returnsR ps).
Proof.
  intros Hlo. induction 1 as [| p ps Hp Hps IH]; [constructor |].
  destruct ps as [| q ps]; [constructor |].
  change (returnsR (p :: q :: ps))
    with ((q - p) / p :: returnsR (q :: ps)).
  constructor; [| exact IH].
  apply Forall_cons in Hps as [Hq _].
  assert (Hip : 0 < / p) by (apply Rinv_0_lt_compat; lra).
  assert (Hil : 0 < / lo) by now apply Rinv_0_lt_compat.
  assert (Hle : / p <= / lo) by (apply Rinv_le_contravar; lra).
  unfold Rdiv. apply Rabs_le. split; nra.
Qed.

Lemma returnsR_scaled (k : R) (ps : list R) :
  k <> 0 -> Forall (fun p => p <> 0) ps ->
  returnsR (List.map (fun p => k * p) ps) = returnsR ps.
Proof.
  intros Hk. induction 1 as [| p ps Hp Hps IH]; [reflexivity |].
  destruct ps as [| q ps]; [reflexivity |].
  change (returnsR (List.map (fun p => k * p) (p :: q :: ps)))
    with ((k * q - k * p) / (k * p)
          :: returnsR (List.map (fun p => k * p) (q :: ps))).
  rewrite IH. cbn [returnsR]. f_equal. now field.
Qed.

Lemma volatilityR_band (lo hi : R) (ps : list R) :
  0 < lo -> lo <= hi ->
  Forall (fun p => lo <= p <= hi) ps ->
  0 <= volatilityR ps <= 100 * ((hi - lo) / lo).
Proof.
  intros Hlo Hhi Hps. unfold volatilityR.
  set (e := (hi - lo) / lo).
  assert (He : 0 <= e) by (apply Rle_mult_inv_pos; lra).
  pose proof (varianceR_nonneg (returnsR ps)) as H0.
  pose proof (varianceR_bound e (returnsR ps) He
                (returnsR_band lo hi ps Hlo Hps)) as H1.
  pose proof (sqrt_pos (varianceR (returnsR ps))) as Hs0.
  assert (Hs1 : R_sqrt.sqrt (varianceR (returnsR ps)) <= e).
  { rewrite <- (sqrt_pow2 e He). now apply sqrt_le_1_alt. }
  lra.
Qed.

Lemma calculateVolatility_within (ps : list R) (lo hi : R) :
  (2 <= length ps)%nat -> 0 < lo -> lo <= hi ->
  Forall (fun p => lo <= p <= hi) ps ->
  within 0 (100 * ((hi - lo) / lo)) (calculateVolatility (List.map Num ps)).
Proof.
  intros Hlen Hlo Hhi Hps. rewrite calculateVolatility_real.
  - eexists. split; [reflexivity |]. now apply volatilityR_band.
  - exact Hlen.
  - eapply Forall_impl; [exact Hps |]. cbn. intros p Hp. lra.
Qed.

(** X29.  [calculateVolatility] is 0 for fewer than two prices; for
    two or more prices in a band from [lo > 0] to [hi] it is between 0 and
    [100 (hi - lo) / lo]; it is the same when every price is multiplied by
    one factor other than 0; and it is 0 for a constant positive price. *)
Theorem calculateVolatility_of_a_band :
  (forall prices : list number,
     (length prices < 2)%nat -> calculateVolatility prices = Num 0)
  /\ (forall (ps : list R) (lo hi : R),
        (2 <= length ps)%nat -> 0 < lo -> lo <= hi ->
        Forall (fun p => lo <= p <= hi) ps ->
        within 0 (100 * ((hi - lo) / lo))
               (calculateVolatility (List.map Num ps)))
  /\ (forall (ps : list R) (k : R),
        k <> 0 -> Forall (fun p => p <> 0) ps ->
        calculateVolatility (List.map (fun p => Num (k * p)) ps)
        = calculateVolatility (List.map Num ps))
  /\ (forall (p : R) (n : nat),
        0 < p -> calculateVolatility (List.repeat (Num p) n) = Num 0).
Proof.
  split; [| split; [| split]].
  - intros prices Hlen. unfold calculateVolatility.
    destruct (Nat.ltb_spec (length prices) 2); [reflexivity | lia].
  - intros ps lo hi. apply calculateVolatility_within.
  - intros ps k Hk Hps.
    destruct (Nat.ltb_spec (length ps) 2) as [Hlt | Hge].
    + unfold calculateVolatility. rewrite !List.length_map.
      destruct (Nat.ltb_spec (length ps) 2); [reflexivity | lia].
    + rewrite <- (List.map_map (fun p => k * p) Num).
      assert (Hlen' : (2 <= length (List.map (fun p => (k * p)%R) ps))%nat)
        by now rewrite List.length_map.
      assert (Hps' : Forall (fun p => p <> 0) (List.map (fun p => k * p) ps)).
      { apply Forall_map. eapply Forall_impl; [exact Hps |]. cbn.
        intros p Hp. now apply Rmult_integral_contrapositive. }
      rewrite (calculateVolatility_real ps Hge Hps),
        (calculateVolatility_real _ Hlen' Hps').
      unfold volatilityR. now rewrite returnsR_scaled.
  - intros p n Hp.
    destruct (Nat.ltb_spec n 2) as [Hlt | Hge].
    + unfold calculateVolatility. rewrite List.repeat_length.
      destruct (Nat.ltb_spec n 2); [reflexivity | lia].
    + replace (List.repeat (Num p) n) with (List.map Num (List.repeat p n))
        by apply List.map_repeat.
      rewrite calculateVolatility_real.
      * f_equal.
        pose proof (volatilityR_band p p (List.repeat p n) Hp (Rle_refl p))
          as H.
        unfold Rminus in H. rewrite Rplus_opp_r in H.
        unfold Rdiv in H. rewrite Rmult_0_l, Rmult_0_r in H.
        assert (Hall : Forall (fun q => p <= q <= p) (List.repeat p n)).
        { apply Forall_forall. intros q Hq.
          apply list_elem_of_In, List.repeat_spec in Hq. subst q. lra. }
        specialize (H Hall). lra.
      * now rewrite List.repeat_length.
      * apply Forall_forall. intros q Hq.
        apply list_elem_of_In, List.repeat_spec in Hq. subst q. lra.
Qed.

Lemma calculateVolatility_of_a_band_witness :
  within 0 (100 * ((101 - 99) / 99))
         (calculateVolatility (List.map Num [100; 101; 99; 100.5]))
  /\ calculateVolatility (List.map (fun p => Num (2 * p)) [100; 101; 99])
     = calculateVolatility (List.map Num [100; 101; 99]).
Proof.
  destruct calculateVolatility_of_a_band as (_ & Hband & Hscale & _).
  split.
  - apply Hband; [cbn; lia | lra | lra |].
    repeat constructor; lra.
  - apply Hscale; [lra |]. repeat constructor; lra.
Defined.

(** ** The listener of [monitorVolatility] *)

#[local] Open Scope list_scope.

(** The history after an update of the monitored pool. *)
Lemma monitorVolatility_history (pid : string) (threshold : number) (t : Z)
    (h : list number) (u : PriceUpdate) :
  poolId u = pid ->
  fst (monitorVolatility pid threshold t h u)
  = if Nat.ltb (length h) historyLimit then h ++ [price u]
    else List.tl (h ++ [price u]).
Proof.
  intros Hid. unfold monitorVolatility. rewrite Hid, String.eqb_refl.
  cbn [negb]. rewrite List.length_app. cbn [length].
  replace (length h + 1)%nat with (S (length h)) by lia.
  change (Nat.ltb historyLimit (S (length h)))
    with (Nat.leb historyLimit (length h)).
  rewrite Nat.ltb_antisym.
  destruct (Nat.leb historyLimit (length h)); cbn [negb];
    destruct (Nat.leb 5 _); try destruct (gt _ _); reflexivity.
Qed.

Lemma monitorVolatility_step (pid : string)
    (threshold : number) (t : Z) (h : list number) (u : PriceUpdate) :
  let '(h', alert) := monitorVolatility pid threshold t h u in
  (poolId u <> pid -> h' = h /\ alert = None)
  /\ (poolId u = pid ->
      ((length h < 20)%nat -> h' = h ++ [price u])
      /\ ((length h <= 20)%nat ->
          (length h' <= 20)%nat
          /\ length h' = Nat.min (S (length h)) 20
          /\ exists dropped, dropped ++ h' = h ++ [price u])
      /\ ((length h < 4)%nat -> alert = None)
      /\ forall a, alert = Some a ->
           wPoolId a = pid /\ wTimestamp a = t
           /\ volatility a = calculateVolatility h'
           /\ gt (calculateVolatility h') threshold = true
           /\ (5 <= length h')%nat).
Proof.
  pose proof (monitorVolatility_history pid threshold t h u) as Hh.
  unfold monitorVolatility in *.
  destruct (String.eqb_spec (poolId u) pid) as [Hid | Hne]; cbn [negb] in *.
  2: { split; [now split | contradiction]. }
  specialize (Hh Hid).
  set (h1 := if Nat.ltb historyLimit (length (h ++ [price u]))
             then List.tl (h ++ [price u]) else h ++ [price u]) in *.
  assert (Hfst : h1 = if Nat.ltb (length h) historyLimit
                      then h ++ [price u] else List.tl (h ++ [price u])).
  { destruct (Nat.leb 5 (length h1)); [destruct (gt _ _) |]; exact Hh. }
  clear Hh.
  assert (Hlen : length (h ++ [price u]) = S (length h))
    by (rewrite List.length_app; cbn; lia).
  assert (Hshort : (length h < 20)%nat -> h1 = h ++ [price u]).
  { intros Hl. rewrite Hfst. unfold historyLimit.
    destruct (Nat.ltb_spec (length h) 20); [reflexivity | lia]. }
  assert (Hbound : (length h <= 20)%nat ->
            (length h1 <= 20)%nat
            /\ length h1 = Nat.min (S (length h)) 20
            /\ exists dropped, dropped ++ h1 = h ++ [price u]).
  { intros Hl. rewrite Hfst. unfold historyLimit.
    destruct (Nat.ltb_spec (length h) 20) as [Hlt | Hge].
    - rewrite Hlen. split; [lia |]. split; [lia |]. now exists [].
    - destruct h as [| x h]; [cbn in Hge; lia |].
      cbn [app List.tl]. rewrite List.length_app. cbn [length] in *.
      split; [lia |]. split; [lia |]. now exists [x]. }
  assert (Hquiet : (length h < 4)%nat -> (length h1 < 5)%nat).
  { intros Hl. rewrite (Hshort ltac:(lia)), Hlen. lia. }
  destruct (Nat.leb_spec 5 (length h1)) as [H5 | H5].
  - destruct (gt (calculateVolatility h1) threshold) eqn:Hgt.
    + split; [contradiction |]. intros _.
      split; [exact Hshort |]. split; [exact Hbound |].
      split; [intros Hl; specialize (Hquiet Hl); lia |].
      intros a [= <-]. cbn. repeat split; assumption.
    + split; [contradiction |]. intros _.
      split; [exact Hshort |]. split; [exact Hbound |].
      split; [reflexivity | discriminate].
  - split; [contradiction |]. intros _.
    split; [exact Hshort |]. split; [exact Hbound |].
    split; [reflexivity | discriminate].
Qed.

(** A history drawn from a band stays in the band. *)
Lemma band_history (lo hi : R) (h : list R) (x : R) :
  Forall (fun p => lo <= p <= hi) h -> lo <= x <= hi ->
  exists h' : list R,
    (if Nat.ltb (length (List.map Num h)) historyLimit
     then List.map Num h ++ [Num x]
     else List.tl (List.map Num h ++ [Num x]))
    = List.map Num h'
    /\ Forall (fun p => lo <= p <= hi) h'.
Proof.
  intros Hh Hx.
  assert (Hall : Forall (fun p => lo <= p <= hi) (h ++ [x]))
    by (apply List.Forall_app; split;
        [exact Hh | apply List.Forall_cons; [exact Hx | constructor]]).
  destruct (Nat.ltb _ _).
  - exists (h ++ [x]). split; [| exact Hall].
    now rewrite List.map_app.
  - exists (List.tl (h ++ [x])). split.
    + change [Num x] with (List.map Num [x]).
      rewrite <- (List.map_app Num h [x]). now destruct (h ++ [x]).
    + destruct (h ++ [x]) as [| y l]; [constructor |].
      now apply Forall_cons in Hall as [_ Hall].
Qed.

Lemma monitorRun_silent (pid : string)
    (threshold lo hi : R) (h : list R) (updates : list (Z * PriceUpdate)) :
  0 < lo -> lo <= hi -> 100 * ((hi - lo) / lo) <= threshold ->
  Forall (fun p => lo <= p <= hi) h ->
  Forall (fun tu => poolId (snd tu) = pid ->
                    exists x : R, price (snd tu) = Num x /\ lo <= x <= hi)
         updates ->
  let '(final, alerts) :=
    monitorRun pid (Num threshold) (List.map Num h) updates in
  alerts = []
  /\ exists h' : list R,
       final = List.map Num h' /\ Forall (fun p => lo <= p <= hi) h'.
Proof.
  intros Hlo Hhi Hth Hh Hup. revert h Hh.
  induction Hup as [| [t u] updates Hu _ IH]; intros h Hh.
  - cbn. split; [reflexivity |]. now exists h.
  - cbn [monitorRun snd] in *.
    pose proof (monitorVolatility_step pid
                  (Num threshold) t (List.map Num h) u) as Hstep.
    pose proof (monitorVolatility_history pid (Num threshold) t
                  (List.map Num h) u) as Hhist.
    destruct (monitorVolatility pid (Num threshold) t (List.map Num h) u)
      as [h1 alert]. cbn [fst] in Hhist.
    destruct Hstep as [Hother Hsame].
    destruct (String.eqb_spec (poolId u) pid) as [Hid | Hne].
    + destruct (Hu Hid) as (x & Hx & Hb).
      rewrite (Hhist Hid), Hx in *.
      destruct (band_history lo hi h x Hh Hb) as (h' & Hh' & Hband).
      rewrite Hh' in *.
      assert (Hnone : alert = None).
      { destruct alert as [a |]; [| reflexivity]. exfalso.
        destruct (Hsame Hid) as (_ & _ & _ & Ha).
        destruct (Ha a eq_refl) as (_ & _ & _ & Hgt & H5).
        rewrite List.length_map in H5.
        destruct (calculateVolatility_within h' lo hi ltac:(lia) Hlo Hhi
                    Hband) as (v & Hv & Hvb).
        rewrite Hv in Hgt. apply gt_num in Hgt. lra. }
      subst alert. specialize (IH h' Hband).
      destruct (monitorRun pid (Num threshold) (List.map Num h') updates)
        as [final alerts].
      exact IH.
    + destruct (Hother Hne) as [-> ->]. specialize (IH h Hh).
      destruct (monitorRun pid (Num threshold) (List.map Num h) updates)
        as [final alerts].
      exact IH.
Qed.

(** X30.  The listener of [monitorVolatility].  An update of
    another pool changes nothing and raises no alert.  An update of the
    monitored pool adds its price to the history, which holds the last 20
    prices; there is no alert before the history holds 5; an alert carries
    the pool, the time and the volatility of the history, which exceeds the
    threshold.  Over any run of updates whose prices stay in a band from
    [lo > 0] to [hi], a threshold of [100 (hi - lo) / lo] or more is never
    exceeded; so the default threshold of 5 raises no alert on prices within
    0.5 percent of a base price, which is all the simulation emits. *)
Theorem monitorVolatility_history_and_alerts :
  (forall (pid : string) (threshold : number) (t : Z) (h : list number)
          (u : PriceUpdate),
     let '(h', alert) := monitorVolatility pid threshold t h u in
     (poolId u <> pid -> h' = h /\ alert = None)
     /\ (poolId u = pid ->
         ((length h < 20)%nat -> h' = h ++ [price u])
         /\ ((length h <= 20)%nat ->
             (length h' <= 20)%nat
             /\ length h' = Nat.min (S (length h)) 20
             /\ exists dropped, dropped ++ h' = h ++ [price u])
         /\ ((length h < 4)%nat -> alert = None)
         /\ forall a, alert = Some a ->
              wPoolId a = pid /\ wTimestamp a = t
              /\ volatility a = calculateVolatility h'
              /\ gt (calculateVolatility h') threshold = true
              /\ (5 <= length h')%nat))
  /\ (forall (pid : string) (threshold lo hi : R) (h : list R)
             (updates : list (Z * PriceUpdate)),
        0 < lo -> lo <= hi -> 100 * ((hi - lo) / lo) <= threshold ->
        Forall (fun p => lo <= p <= hi) h ->
        Forall (fun tu => poolId (snd tu) = pid ->
                          exists x : R,
                            price (snd tu) = Num x /\ lo <= x <= hi)
               updates ->
        let '(final, alerts) :=
          monitorRun pid (Num threshold) (List.map Num h) updates in
        alerts = []
        /\ exists h' : list R,
             final = List.map Num h'
             /\ Forall (fun p => lo <= p <= hi) h')
  /\ (forall (pid : string) (b : R) (updates : list (Z * PriceUpdate)),
        0 < b ->
        Forall (fun tu => poolId (snd tu) = pid ->
                          exists x : R,
                            price (snd tu) = Num x
                            /\ 0.995 * b <= x <= 1.005 * b)
               updates ->
        snd (monitorRun pid (Num 5) [] updates) = []).
Proof.
  split; [| split].
  - exact monitorVolatility_step.
  - exact monitorRun_silent.
  - intros pid b updates Hb Hup.
    pose proof (monitorRun_silent pid 5 (0.995 * b) (1.005 * b) []
                  updates) as H.
    cbn [List.map] in H.
    destruct (monitorRun pid (Num 5) [] updates) as [final alerts].
    apply H; [lra | lra | | constructor | exact Hup].
    assert (Hq : (1.005 * b - 0.995 * b) / (0.995 * b) <= 0.05).
    { apply (Rmult_le_reg_r (0.995 * b)); [lra |].
      unfold Rdiv. rewrite Rmult_assoc, Rinv_l, Rmult_1_r by lra. lra. }
    lra.
Qed.

Lemma monitorVolatility_history_and_alerts_witness :
  (let '(h', alert) :=
     monitorVolatility "SOL_USDC" (Num 5) 5000 [Num 220; Num 222]
       (snd (updateOf "SOL_USDC" 221 5000)) in
   h' = [Num 220; Num 222; Num 221] /\ alert = None)
  /\ (let '(final, alerts) :=
        monitorRun "SOL_USDC" (Num 5) (List.map Num [100; 101])
          [updateOf "SOL_USDC" 99 1; updateOf "EURC_USDC" 1 2;
           updateOf "SOL_USDC" 100.5 3; updateOf "SOL_USDC" 101 4;
           updateOf "SOL_USDC" 99.5 5] in
      alerts = []).
Proof.
  destruct monitorVolatility_history_and_alerts as (Hstep & Hrun & _).
  split.
  - specialize (Hstep "SOL_USDC" (Num 5) 5000%Z [Num 220; Num 222]
                  (snd (updateOf "SOL_USDC" 221 5000))).
    destruct (monitorVolatility _ _ _ _ _) as [h' alert].
    destruct Hstep as [_ H]. destruct (H eq_refl) as (Hs & _ & Hq & _).
    split; [apply Hs; cbn; lia | apply Hq; cbn; lia].
  - specialize (Hrun "SOL_USDC" 5 99 101 [100; 101]
                  [updateOf "SOL_USDC" 99 1; updateOf "EURC_USDC" 1 2;
                   updateOf "SOL_USDC" 100.5 3; updateOf "SOL_USDC" 101 4;
                   updateOf "SOL_USDC" 99.5 5]).
    destruct (monitorRun _ _ _ _) as [final alerts].
    apply Hrun; [lra | lra | lra | repeat constructor; lra |].
    repeat apply List.Forall_cons; try apply List.Forall_nil;
      cbn; intros Hid; try discriminate Hid;
      eexists; (split; [reflexivity | lra]).
Defined.

End VolatilityProps.
